(** * run_myco.py: the Myco client/server run supervisor

    A shallow embedding of [MycoRunner] and [main] from [run_myco.py],
    followed by the properties of the run stated in the specification.

    The script is sequential Python that talks to the operating system:
    it runs external tools, launches child processes, reads their output,
    sleeps, reads the wall clock and receives signals.  The embedding is a
    state-and-exception monad over an explicit interpreter state; every
    answer of the operating system comes from an environment record
    ([env]), so a theorem quantified over [env] speaks about every
    behaviour of the outside world. *)

From Stdlib Require Import ZArith NArith List String Ascii Bool Lia DecimalString.
Import ListNotations.
Local Open Scope Z_scope.

(** ** Python text

    A Python [str] is a sequence of code points and a [bytes] value a
    sequence of octets; both are lists of [N] here. *)

Module Text.

Definition str := list N.
Definition bytes := list N.

(** An ASCII literal as a [str] (or as the [bytes] of its encoding). *)
Definition u (s : string) : str := map N_of_ascii (list_ascii_of_string s).

Definition nl : N := 10%N.

Definition nonempty (s : list N) : bool :=
  match s with [] => false | _ :: _ => true end.

(** [bytes.decode('utf-8')] with the default strict error handling:
    [None] stands for [UnicodeDecodeError]. *)
Definition cont (b : N) : bool := ((128 <=? b) && (b <=? 191))%N.

Definition between (lo hi b : N) : bool := ((lo <=? b) && (b <=? hi))%N.

Fixpoint decode_utf8 (bs : bytes) : option str :=
  match bs with
  | [] => Some []
  | b0 :: r0 =>
    if (b0 <? 128)%N then option_map (cons b0) (decode_utf8 r0)
    else if between 194 223 b0 then
      match r0 with
      | b1 :: r1 =>
        if cont b1
        then option_map (cons ((b0 - 192) * 64 + (b1 - 128))%N) (decode_utf8 r1)
        else None
      | _ => None
      end
    else if between 224 239 b0 then
      match r0 with
      | b1 :: b2 :: r2 =>
        if (if (b0 =? 224)%N then between 160 191 b1
            else if (b0 =? 237)%N then between 128 159 b1
            else cont b1) && cont b2
        then option_map
               (cons ((b0 - 224) * 4096 + (b1 - 128) * 64 + (b2 - 128))%N)
               (decode_utf8 r2)
        else None
      | _ => None
      end
    else if between 240 244 b0 then
      match r0 with
      | b1 :: b2 :: b3 :: r3 =>
        if (if (b0 =? 240)%N then between 144 191 b1
            else if (b0 =? 244)%N then between 128 143 b1
            else cont b1) && cont b2 && cont b3
        then option_map
               (cons ((b0 - 240) * 262144 + (b1 - 128) * 4096
                      + (b2 - 128) * 64 + (b3 - 128))%N)
               (decode_utf8 r3)
        else None
      | _ => None
      end
    else None
  end.

(** [str.isspace] on one code point: the Unicode white space characters. *)
Definition isspace (c : N) : bool :=
  between 9 13 c || between 28 32 c || (c =? 133)%N || (c =? 160)%N
  || (c =? 5760)%N || between 8192 8202 c || (c =? 8232)%N || (c =? 8233)%N
  || (c =? 8239)%N || (c =? 8287)%N || (c =? 12288)%N.

Fixpoint lstrip (s : str) : str :=
  match s with
  | [] => []
  | c :: r => if isspace c then lstrip r else s
  end.

Definition rstrip (s : str) : str := rev (lstrip (rev s)).

(** [s.strip()] *)
Definition strip (s : str) : str := rstrip (lstrip s).

Fixpoint starts_with (p s : str) : bool :=
  match p, s with
  | [], _ => true
  | _ :: _, [] => false
  | a :: p', b :: s' => (a =? b)%N && starts_with p' s'
  end.

(** [needle in hay] on strings: substring containment. *)
Fixpoint contains (needle hay : str) : bool :=
  starts_with needle hay
  || match hay with
     | [] => false
     | _ :: r => contains needle r
     end.

(** [s.split(sep)] for a one-character separator: every occurrence cuts,
    empty pieces are kept, and the empty string gives one empty piece. *)
Fixpoint split_on (sep : N) (s : str) : list str :=
  match s with
  | [] => [[]]
  | c :: r =>
    if (c =? sep)%N then [] :: split_on sep r
    else match split_on sep r with
         | [] => [[c]]
         | p :: ps => (c :: p) :: ps
         end
  end.

(** [s.split()]: cut at runs of white space, no empty pieces. *)
Fixpoint split_ws_aux (cur : str) (s : str) : list str :=
  match s with
  | [] => match cur with [] => [] | _ => [rev cur] end
  | c :: r =>
    if isspace c
    then match cur with
         | [] => split_ws_aux [] r
         | _ => rev cur :: split_ws_aux [] r
         end
    else split_ws_aux (c :: cur) r
  end.

Definition split_ws (s : str) : list str := split_ws_aux [] s.

(** [s.isdigit()]: non-empty and every character a digit.  The digit
    table is given for the code points below 256, which covers what the
    process tables print. *)
Definition isdigit_cp (c : N) : bool :=
  between 48 57 c || (c =? 178)%N || (c =? 179)%N || (c =? 185)%N.

Definition isdigit (s : str) : bool := nonempty s && forallb isdigit_cp s.

(** [str(n)] for an integer, as used by the f-strings. *)
Definition str_of_int (n : Z) : str := u (NilZero.string_of_int (Z.to_int n)).

End Text.

Import Text.

Example u_ascii : u "LISTEN" = [76; 73; 83; 84; 69; 78]%N.
Proof. reflexivity. Qed.

Example strip_line : strip (u "  4242 " ++ [nl]) = u "4242".
Proof. reflexivity. Qed.

Example split_lines : split_on nl (u "12" ++ [nl] ++ u "34") = [u "12"; u "34"].
Proof. reflexivity. Qed.

Example split_fields :
  split_ws (u "tcp  0 0.0.0.0:3002   LISTEN 4242/rpc_server")
  = [u "tcp"; u "0"; u "0.0.0.0:3002"; u "LISTEN"; u "4242/rpc_server"].
Proof. reflexivity. Qed.

Example decode_two_byte : decode_utf8 [195; 169]%N = Some [233%N].
Proof. reflexivity. Qed.

Example decode_bad : decode_utf8 [255]%N = None.
Proof. reflexivity. Qed.

Example port_text : str_of_int 3002 = u "3002".
Proof. reflexivity. Qed.

(** ** Exceptions

    The exception classes the script names, with the part of Python's
    class hierarchy that decides which [except] clause catches what. *)

Inductive exn : Type :=
| FileNotFoundError
| PermissionError
| OSError
| CalledProcessError
| TimeoutExpired
| SubprocessError
| UnicodeDecodeError
| RuntimeError
| KeyboardInterrupt
| SystemExit (code : Z).

Inductive exn_class : Type :=
| C_OSError
| C_FileNotFoundError
| C_SubprocessError
| C_CalledProcessError
| C_TimeoutExpired
| C_UnicodeDecodeError
| C_RuntimeError
| C_KeyboardInterrupt.

Definition isinstance (e : exn) (c : exn_class) : bool :=
  match c, e with
  | C_OSError, (FileNotFoundError | PermissionError | OSError) => true
  | C_FileNotFoundError, FileNotFoundError => true
  | C_SubprocessError, (CalledProcessError | TimeoutExpired | SubprocessError) => true
  | C_CalledProcessError, CalledProcessError => true
  | C_TimeoutExpired, TimeoutExpired => true
  | C_UnicodeDecodeError, UnicodeDecodeError => true
  | C_RuntimeError, RuntimeError => true
  | C_KeyboardInterrupt, KeyboardInterrupt => true
  | _, _ => false
  end.

Definition caught_by (classes : list exn_class) (e : exn) : bool :=
  existsb (isinstance e) classes.

(** ** The outside world *)

Inductive signum : Type := SIGINT | SIGTERM.

Definition signal_number (sg : signum) : Z :=
  match sg with SIGINT => 2 | SIGTERM => 15 end.

(** What launching a program can fail with: the executable is missing,
    may not be executed, some other [OSError], or a [SubprocessError]. *)
Inductive os_failure : Type :=
| NotFound | NotPermitted | OtherOSError | OtherSubprocessError.

Definition exn_of_failure (f : os_failure) : exn :=
  match f with
  | NotFound => FileNotFoundError
  | NotPermitted => PermissionError
  | OtherOSError => OSError
  | OtherSubprocessError => SubprocessError
  end.

(** [subprocess.run(argv, capture_output=True, text=True)]: the tool ran
    to its end with a return code and its standard output as text, or it
    could not be run. *)
Inductive run_result : Type :=
| Completed (returncode : Z) (stdout : str)
| RunFails (f : os_failure).

(** [subprocess.Popen(argv, ...)]: a child with a process id, or a
    failure to launch. *)
Inductive popen_result : Type :=
| Spawned (pid : Z)
| PopenFails (f : os_failure).

(** [process.stdout.readline()].  The pipe is created by
    [Popen(stdout=PIPE, bufsize=0)] and is left in blocking mode, so the
    call comes back with a line (or with a last partial line, or with
    empty bytes at end of file), raises [OSError], or, for a child that
    stays alive without completing a line, does not come back. *)
Inductive read_result : Type :=
| ReadBytes (line : bytes)
| ReadFails
| ReadBlocks.

Record env : Type := {
  (** [os.path.exists("justfile")] *)
  env_exists : bool;
  (** the n-th call of [subprocess.run], given its arguments *)
  env_run : nat -> list str -> run_result;
  (** the n-th call of [subprocess.Popen] *)
  env_popen : nat -> list str -> popen_result;
  (** time that passed, beyond the sleeps, before the n-th reading of
      the clock (milliseconds) *)
  env_lag : nat -> N;
  (** the child's exit status seen by the n-th call of [poll] overall,
      on the child launched by the h-th [Popen] *)
  env_poll : nat -> nat -> option Z;
  (** the n-th call of [readline] overall, on child h *)
  env_readline : nat -> nat -> read_result;
  (** the n-th call of [wait(timeout=...)] overall, on child h;
      [None] is [TimeoutExpired] *)
  env_wait : nat -> nat -> option Z;
  (** the lines the client prints, and its exit status if it ever exits *)
  env_client_lines : list str;
  env_client_exit : option Z;
  (** at most one signal, delivered at the n-th operation of the run *)
  env_signal : option (nat * signum)
}.

(** ** Console output and other observable actions *)

Inductive msg : Type :=
| MKillingOnPort (pid : str) (port : Z)
| MKillingListening (pid : str) (port : Z)
| MKillingRpcServer (pid : str)
| MKillingCargo (pid : str)
| MWaitingToTerminate
| MPortInUse (port : Z)
| MCleaningUp
| MTerminating (pid : Z)
| MForceKilling (pid : Z)
| MCleanupCompleted
| MReceivedSignal (signum : Z)
| MWaitingFor (server_name : str)
| MTerminatedUnexpectedly (server_name : str)
| MServerLine (server_name line_str : str)
| MReady (server_name : str)
| MReadError (server_name : str) (e : exn)
| MNotReady (server_name : str) (timeout : Z)
| MStarting (server_name : str)
| MFailedToStart (server_name : str) (e : exn)
| MRunningClient
| MClientOutput
| MRule
| MClientLine (line : str)
| MClientCompleted
| MClientFailed (returncode : Z)
| MFailedToRunClient (e : exn)
| MBanner
| MDoubleRule
| MCleaningExisting
| MStillInUse
| MUnableToFree
| MFailedExiting (server_name : str)
| MInterrupted
| MUnexpected (e : exn)
| MNoJustfile
| MNoJust
| MInstallHint
| MSucceeded
| MFailed.

Inductive event : Type :=
| EPrint (m : msg)
| ESleep (ms : Z)
| ERun (argv : list str) (completed : bool)
| EPopen (argv : list str) (launched : bool)
| ETerminate (h : nat)
| EKill (h : nat)
| EHandler (sg : signum).

(** ** Interpreter state *)

(** A [subprocess.Popen] object: its [pid] and its cached [returncode]. *)
Record popen : Type := { pid : Z; returncode : option Z }.

Record state : Type := {
  (** what the run did so far, newest first *)
  out : list event;
  (** wall clock, milliseconds *)
  now : Z;
  (** how many calls of each kind were made *)
  n_run : nat;
  n_popen : nat;
  n_time : nat;
  n_poll : nat;
  n_read : nat;
  n_wait : nat;
  (** operations performed, the positions at which a signal can arrive *)
  ticks : nat;
  (** the [Popen] objects, referenced by index from the fields below *)
  objects : list popen;
  (** [self.processes], [self.server2_process], [self.server1_process] *)
  processes : list nat;
  server2_process : option nat;
  server1_process : option nat;
  (** the local [killed_any] of [cleanup_ports] *)
  killed_any : bool;
  (** signals for which [signal.signal] installed the handler *)
  handlers : list signum;
  (** whether the handler has been entered *)
  signalled : bool
}.

Definition initial : state :=
  {| out := []; now := 0; n_run := 0; n_popen := 0; n_time := 0; n_poll := 0;
     n_read := 0; n_wait := 0; ticks := 0; objects := []; processes := [];
     server2_process := None; server1_process := None; killed_any := false;
     handlers := []; signalled := false |}.

Definition emit (e : event) (s : state) : state :=
  {| out := e :: out s; now := now s; n_run := n_run s; n_popen := n_popen s;
     n_time := n_time s; n_poll := n_poll s; n_read := n_read s;
     n_wait := n_wait s; ticks := ticks s; objects := objects s;
     processes := processes s; server2_process := server2_process s;
     server1_process := server1_process s; killed_any := killed_any s;
     handlers := handlers s; signalled := signalled s |}.

Definition set_now (t : Z) (s : state) : state :=
  {| out := out s; now := t; n_run := n_run s; n_popen := n_popen s;
     n_time := n_time s; n_poll := n_poll s; n_read := n_read s;
     n_wait := n_wait s; ticks := ticks s; objects := objects s;
     processes := processes s; server2_process := server2_process s;
     server1_process := server1_process s; killed_any := killed_any s;
     handlers := handlers s; signalled := signalled s |}.

Definition count_run (s : state) : state :=
  {| out := out s; now := now s; n_run := S (n_run s); n_popen := n_popen s;
     n_time := n_time s; n_poll := n_poll s; n_read := n_read s;
     n_wait := n_wait s; ticks := ticks s; objects := objects s;
     processes := processes s; server2_process := server2_process s;
     server1_process := server1_process s; killed_any := killed_any s;
     handlers := handlers s; signalled := signalled s |}.

Definition count_popen (s : state) : state :=
  {| out := out s; now := now s; n_run := n_run s; n_popen := S (n_popen s);
     n_time := n_time s; n_poll := n_poll s; n_read := n_read s;
     n_wait := n_wait s; ticks := ticks s; objects := objects s;
     processes := processes s; server2_process := server2_process s;
     server1_process := server1_process s; killed_any := killed_any s;
     handlers := handlers s; signalled := signalled s |}.

Definition count_time (s : state) : state :=
  {| out := out s; now := now s; n_run := n_run s; n_popen := n_popen s;
     n_time := S (n_time s); n_poll := n_poll s; n_read := n_read s;
     n_wait := n_wait s; ticks := ticks s; objects := objects s;
     processes := processes s; server2_process := server2_process s;
     server1_process := server1_process s; killed_any := killed_any s;
     handlers := handlers s; signalled := signalled s |}.

Definition count_poll (s : state) : state :=
  {| out := out s; now := now s; n_run := n_run s; n_popen := n_popen s;
     n_time := n_time s; n_poll := S (n_poll s); n_read := n_read s;
     n_wait := n_wait s; ticks := ticks s; objects := objects s;
     processes := processes s; server2_process := server2_process s;
     server1_process := server1_process s; killed_any := killed_any s;
     handlers := handlers s; signalled := signalled s |}.

Definition count_read (s : state) : state :=
  {| out := out s; now := now s; n_run := n_run s; n_popen := n_popen s;
     n_time := n_time s; n_poll := n_poll s; n_read := S (n_read s);
     n_wait := n_wait s; ticks := ticks s; objects := objects s;
     processes := processes s; server2_process := server2_process s;
     server1_process := server1_process s; killed_any := killed_any s;
     handlers := handlers s; signalled := signalled s |}.

Definition count_wait (s : state) : state :=
  {| out := out s; now := now s; n_run := n_run s; n_popen := n_popen s;
     n_time := n_time s; n_poll := n_poll s; n_read := n_read s;
     n_wait := S (n_wait s); ticks := ticks s; objects := objects s;
     processes := processes s; server2_process := server2_process s;
     server1_process := server1_process s; killed_any := killed_any s;
     handlers := handlers s; signalled := signalled s |}.

Definition count_tick (s : state) : state :=
  {| out := out s; now := now s; n_run := n_run s; n_popen := n_popen s;
     n_time := n_time s; n_poll := n_poll s; n_read := n_read s;
     n_wait := n_wait s; ticks := S (ticks s); objects := objects s;
     processes := processes s; server2_process := server2_process s;
     server1_process := server1_process s; killed_any := killed_any s;
     handlers := handlers s; signalled := signalled s |}.

Definition set_objects (o : list popen) (s : state) : state :=
  {| out := out s; now := now s; n_run := n_run s; n_popen := n_popen s;
     n_time := n_time s; n_poll := n_poll s; n_read := n_read s;
     n_wait := n_wait s; ticks := ticks s; objects := o;
     processes := processes s; server2_process := server2_process s;
     server1_process := server1_process s; killed_any := killed_any s;
     handlers := handlers s; signalled := signalled s |}.

Definition set_processes (p : list nat) (s : state) : state :=
  {| out := out s; now := now s; n_run := n_run s; n_popen := n_popen s;
     n_time := n_time s; n_poll := n_poll s; n_read := n_read s;
     n_wait := n_wait s; ticks := ticks s; objects := objects s;
     processes := p; server2_process := server2_process s;
     server1_process := server1_process s; killed_any := killed_any s;
     handlers := handlers s; signalled := signalled s |}.

Definition set_server2_process (h : option nat) (s : state) : state :=
  {| out := out s; now := now s; n_run := n_run s; n_popen := n_popen s;
     n_time := n_time s; n_poll := n_poll s; n_read := n_read s;
     n_wait := n_wait s; ticks := ticks s; objects := objects s;
     processes := processes s; server2_process := h;
     server1_process := server1_process s; killed_any := killed_any s;
     handlers := handlers s; signalled := signalled s |}.

Definition set_server1_process (h : option nat) (s : state) : state :=
  {| out := out s; now := now s; n_run := n_run s; n_popen := n_popen s;
     n_time := n_time s; n_poll := n_poll s; n_read := n_read s;
     n_wait := n_wait s; ticks := ticks s; objects := objects s;
     processes := processes s; server2_process := server2_process s;
     server1_process := h; killed_any := killed_any s;
     handlers := handlers s; signalled := signalled s |}.

Definition set_killed_any (b : bool) (s : state) : state :=
  {| out := out s; now := now s; n_run := n_run s; n_popen := n_popen s;
     n_time := n_time s; n_poll := n_poll s; n_read := n_read s;
     n_wait := n_wait s; ticks := ticks s; objects := objects s;
     processes := processes s; server2_process := server2_process s;
     server1_process := server1_process s; killed_any := b;
     handlers := handlers s; signalled := signalled s |}.

Definition set_handlers (l : list signum) (s : state) : state :=
  {| out := out s; now := now s; n_run := n_run s; n_popen := n_popen s;
     n_time := n_time s; n_poll := n_poll s; n_read := n_read s;
     n_wait := n_wait s; ticks := ticks s; objects := objects s;
     processes := processes s; server2_process := server2_process s;
     server1_process := server1_process s; killed_any := killed_any s;
     handlers := l; signalled := signalled s |}.

Definition set_signalled (s : state) : state :=
  {| out := out s; now := now s; n_run := n_run s; n_popen := n_popen s;
     n_time := n_time s; n_poll := n_poll s; n_read := n_read s;
     n_wait := n_wait s; ticks := ticks s; objects := objects s;
     processes := processes s; server2_process := server2_process s;
     server1_process := server1_process s; killed_any := killed_any s;
     handlers := handlers s; signalled := true |}.

(** [objects[h].returncode = rc] *)
Fixpoint store_returncode (h : nat) (rc : Z) (o : list popen) : list popen :=
  match o, h with
  | [], _ => []
  | p :: r, O => {| pid := pid p; returncode := Some rc |} :: r
  | p :: r, S h' => p :: store_returncode h' rc r
  end.

(** ** The monad: state, exceptions, and calls that never come back *)

Inductive result (A : Type) : Type :=
| Ret (a : A)
| Raise (e : exn)
| Blocked
| Killed (sg : signum)
| OutOfFuel.

Arguments Ret {A} a.
Arguments Raise {A} e.
Arguments Blocked {A}.
Arguments Killed {A} sg.
Arguments OutOfFuel {A}.

Definition M (A : Type) : Type := state -> result A * state.

Definition ret {A} (a : A) : M A := fun s => (Ret a, s).

Definition bind {A B} (m : M A) (k : A -> M B) : M B :=
  fun s =>
    match m s with
    | (Ret a, s') => k a s'
    | (Raise e, s') => (Raise e, s')
    | (Blocked, s') => (Blocked, s')
    | (Killed sg, s') => (Killed sg, s')
    | (OutOfFuel, s') => (OutOfFuel, s')
    end.

Declare Scope py_scope.
Delimit Scope py_scope with py.
Notation "x <- c1 ;; c2" := (bind c1 (fun x => c2))
  (at level 61, c1 at next level, right associativity) : py_scope.
Notation "c1 ;; c2" := (bind c1 (fun _ => c2))
  (at level 61, right associativity) : py_scope.
Local Open Scope py_scope.

Definition raise {A} (e : exn) : M A := fun s => (Raise e, s).
Definition get : M state := fun s => (Ret s, s).
Definition modify (f : state -> state) : M unit := fun s => (Ret tt, f s).

(** [try: body  except classes1: h1  except classes2: h2 ...]: the first
    clause whose classes match handles the exception; what a handler
    raises is not offered to the later clauses. *)
Fixpoint dispatch {A} (clauses : list (list exn_class * (exn -> M A)))
    (e : exn) : M A :=
  match clauses with
  | [] => raise e
  | (classes, h) :: rest =>
    if caught_by classes e then h e else dispatch rest e
  end.

Definition try_except {A} (body : M A)
    (clauses : list (list exn_class * (exn -> M A))) : M A :=
  fun s =>
    match body s with
    | (Raise e, s') => dispatch clauses e s'
    | other => other
    end.

(** [try: body  finally: fin]: [fin] runs when [body] returns or raises;
    the outcome of [body] stands unless [fin] itself does not return. *)
Definition try_finally {A} (body : M A) (fin : M unit) : M A :=
  fun s =>
    match body s with
    | (Ret a, s') => (fin ;; ret a) s'
    | (Raise e, s') => (fin ;; raise e) s'
    | other => other
    end.

Fixpoint for_each {A} (xs : list A) (body : A -> M unit) : M unit :=
  match xs with
  | [] => ret tt
  | x :: rest => body x ;; for_each rest body
  end.

(** A Python function without a [return] statement returns [None]. *)
Inductive pyval : Type :=
| PyNone
| PyBool (b : bool).

(** The object a reference denotes.  References are indices handed out by
    [Popen], so the default is never consulted. *)
Definition object_at (h : nat) (s : state) : popen :=
  nth h (objects s) {| pid := 0; returncode := Some 0 |}.

(** ** The program *)

Section Program.

Variable E : env.

(** [tick] runs at the start of every operation: it is where a pending
    signal is noticed and the handler entered. *)
Variable tick : M unit.

(** *** Operations on the outside world *)

Definition print (m : msg) : M unit :=
  tick ;; modify (emit (EPrint m)).

(** [time.sleep(ms / 1000)] *)
Definition time_sleep (ms : Z) : M unit :=
  tick ;; modify (fun s => emit (ESleep ms) (set_now (now s + ms) s)).

(** [time.time()], in milliseconds; the clock never runs backwards. *)
Definition time_time : M Z :=
  tick ;;
  fun s =>
    let t := now s + Z.of_N (env_lag E (n_time s)) in
    (Ret t, count_time (set_now t s)).

(** [subprocess.run(argv, capture_output=True, text=True, check=check)] *)
Definition subprocess_run (argv : list str) (check : bool) : M (Z * str) :=
  tick ;;
  fun s =>
    match env_run E (n_run s) argv with
    | Completed rc text =>
      if check && negb (rc =? 0)
      then (Raise CalledProcessError, count_run (emit (ERun argv true) s))
      else (Ret (rc, text), count_run (emit (ERun argv true) s))
    | RunFails f =>
      (Raise (exn_of_failure f), count_run (emit (ERun argv false) s))
    end.

(** [subprocess.Popen(argv, stdout=PIPE, stderr=STDOUT, ...)]; the
    result is a reference to the new object. *)
Definition Popen (argv : list str) : M nat :=
  tick ;;
  fun s =>
    match env_popen E (n_popen s) argv with
    | Spawned p =>
      (Ret (List.length (objects s)),
       count_popen (emit (EPopen argv true)
         (set_objects (objects s ++ [{| pid := p; returncode := None |}]) s)))
    | PopenFails f =>
      (Raise (exn_of_failure f), count_popen (emit (EPopen argv false) s))
    end.

(** [process.poll()]: the cached return code if the child was already
    seen to have exited, else a look at the child. *)
Definition poll (h : nat) : M (option Z) :=
  tick ;;
  fun s =>
    match returncode (object_at h s) with
    | Some rc => (Ret (Some rc), s)
    | None =>
      match env_poll E h (n_poll s) with
      | Some rc =>
        (Ret (Some rc),
         count_poll (set_objects (store_returncode h rc (objects s)) s))
      | None => (Ret None, count_poll s)
      end
    end.

(** [process.wait(timeout=...)] *)
Definition wait (h : nat) (timeout : Z) : M Z :=
  tick ;;
  fun s =>
    match returncode (object_at h s) with
    | Some rc => (Ret rc, s)
    | None =>
      match env_wait E h (n_wait s) with
      | Some rc =>
        (Ret rc, count_wait (set_objects (store_returncode h rc (objects s)) s))
      | None => (Raise TimeoutExpired, count_wait s)
      end
    end.

Definition terminate (h : nat) : M unit := tick ;; modify (emit (ETerminate h)).
Definition kill (h : nat) : M unit := tick ;; modify (emit (EKill h)).

(** [process.stdout.readline()] *)
Definition readline (h : nat) : M bytes :=
  tick ;;
  fun s =>
    match env_readline E h (n_read s) with
    | ReadBytes line => (Ret line, count_read s)
    | ReadFails => (Raise OSError, count_read s)
    | ReadBlocks => (Blocked, count_read s)
    end.

(** [client_process.wait()], without a timeout *)
Definition wait_forever (h : nat) : M Z :=
  tick ;;
  fun s =>
    match env_client_exit E with
    | Some rc => (Ret rc, set_objects (store_returncode h rc (objects s)) s)
    | None => (Blocked, s)
    end.

Definition os_path_exists : M bool := tick ;; ret (env_exists E).

(** [signal.signal(sg, self.signal_handler)] *)
Definition signal_signal (sg : signum) : M unit :=
  tick ;; modify (fun s => set_handlers (sg :: handlers s) s).

(** [sys.exit(code)] raises [SystemExit]. *)
Definition sys_exit {A} (code : Z) : M A := tick ;; raise (SystemExit code).

(** *** MycoRunner.cleanup_ports *)

Definition ports : list Z := [3002; 3004].

Definition lsof_argv (port : Z) : list str :=
  [u "lsof"; u "-ti"; u ":" ++ str_of_int port].

Definition kill_argv (pid : str) : list str := [u "kill"; u "-9"; pid].

Definition swallow : list (list exn_class * (exn -> M unit)) :=
  [([C_OSError; C_SubprocessError], fun _ => ret tt)].

(** The loop the script repeats after [lsof] and after each [pgrep]:
    [kill -9] every non-blank entry and record that a kill was made. *)
Definition kill_each (label : str -> msg) (pause : bool) (pids : list str)
  : M unit :=
  for_each pids (fun pid =>
    if nonempty (strip pid) then
      print (label pid) ;;
      subprocess_run (kill_argv (strip pid)) false ;;
      modify (set_killed_any true) ;;
      if pause then time_sleep 100 else ret tt
    else ret tt).

(** Method 1: [lsof -ti :port] *)
Definition lsof_kill (port : Z) : M unit :=
  result <- subprocess_run (lsof_argv port) false ;;
  if (fst result =? 0) && nonempty (strip (snd result))
  then kill_each (fun pid => MKillingOnPort pid port) true
         (split_on nl (strip (snd result)))
  else ret tt.

(** Method 2: the listening lines of [netstat -tulpn] *)
Definition netstat_kill (port : Z) : M unit :=
  try_except
    (result <- subprocess_run [u "netstat"; u "-tulpn"] false ;;
     if fst result =? 0 then
       for_each (split_on nl (snd result)) (fun line =>
         if contains (u ":" ++ str_of_int port) line
            && contains (u "LISTEN") line
         then
           for_each (split_ws line) (fun part =>
             if contains (u "/") part then
               let pid := hd [] (split_on 47%N part) in
               if isdigit pid then
                 print (MKillingListening pid port) ;;
                 subprocess_run (kill_argv pid) false ;;
                 modify (set_killed_any true)
               else ret tt
             else ret tt)
         else ret tt)
     else ret tt)
    swallow.

(** Methods 3 and 4: [pgrep -f pattern] *)
Definition pgrep_kill (pattern : str) (label : str -> msg) : M unit :=
  try_except
    (result <- subprocess_run [u "pgrep"; u "-f"; pattern] false ;;
     if (fst result =? 0) && nonempty (strip (snd result))
     then kill_each label false (split_on nl (strip (snd result)))
     else ret tt)
    swallow.

Definition cleanup_ports : M pyval :=
  modify (set_killed_any false) ;;
  for_each ports (fun port =>
    try_except (lsof_kill port ;; netstat_kill port) swallow) ;;
  pgrep_kill (u "rpc_server") MKillingRpcServer ;;
  pgrep_kill (u "cargo run.*rpc_server") MKillingCargo ;;
  s <- get ;;
  (if killed_any s
   then print MWaitingToTerminate ;; time_sleep 2000
   else ret tt) ;;
  ret PyNone.

(** *** MycoRunner.check_ports_free *)

Fixpoint check_ports_loop (ps : list Z) : M bool :=
  match ps with
  | [] => ret true
  | port :: rest =>
    in_use <- try_except
      (result <- subprocess_run (lsof_argv port) false ;;
       if (fst result =? 0) && nonempty (strip (snd result))
       then print (MPortInUse port) ;; ret true
       else ret false)
      [([C_OSError; C_SubprocessError], fun _ => ret false)] ;;
    if in_use then ret false else check_ports_loop rest
  end.

Definition check_ports_free : M bool := check_ports_loop ports.

(** *** MycoRunner.cleanup *)

(** The body of the loop over [self.processes]: a child still running
    gets [terminate()], three seconds, then [kill()] and two more. *)
Definition stop_tracked (process : nat) : M unit :=
  rc <- poll process ;;
  match rc with
  | None =>
    s1 <- get ;;
    print (MTerminating (pid (object_at process s1))) ;;
    terminate process ;;
    try_except (wait process 3 ;; ret tt)
      [([C_TimeoutExpired], fun _ =>
          s2 <- get ;;
          print (MForceKilling (pid (object_at process s2))) ;;
          kill process ;;
          try_except (wait process 2 ;; ret tt)
            [([C_TimeoutExpired], fun _ => ret tt)])]
  | Some _ => ret tt
  end.

Definition cleanup : M unit :=
  print MCleaningUp ;;
  s <- get ;;
  for_each (processes s) stop_tracked ;;
  cleanup_ports ;;
  try_except
    (subprocess_run [u "pkill"; u "-f"; u "rpc_server"] false ;; ret tt)
    swallow ;;
  print MCleanupCompleted.

(** *** MycoRunner.signal_handler *)

Definition signal_handler (sg : signum) : M unit :=
  print (MReceivedSignal (signal_number sg)) ;;
  cleanup ;;
  sys_exit 0.

(** *** MycoRunner.wait_for_server_ready

    One turn of the [while] loop per unit of fuel.  Every turn that does
    not return ends in [time.sleep(0.1)], so [10 * timeout] turns and the
    last test of the clock are all the loop can make. *)

Fixpoint wait_loop (fuel : nat) (server_name expected_output : str)
    (process : nat) (start_time timeout : Z) : M bool :=
  match fuel with
  | O => fun s => (OutOfFuel, s)
  | S fuel' =>
    t <- time_time ;;
    if t - start_time <? 1000 * timeout then
      rc <- poll process ;;
      match rc with
      | Some _ => print (MTerminatedUnexpectedly server_name) ;; ret false
      | None =>
        ready <- try_except
          (line <- readline process ;;
           if nonempty line then
             match decode_utf8 line with
             | Some text =>
               let line_str := strip text in
               print (MServerLine server_name line_str) ;;
               if contains expected_output line_str
               then print (MReady server_name) ;; ret true
               else ret false
             | None => raise UnicodeDecodeError
             end
           else ret false)
          [([C_OSError; C_UnicodeDecodeError], fun e =>
              print (MReadError server_name e) ;; ret false)] ;;
        if ready then ret true
        else
          time_sleep 100 ;;
          wait_loop fuel' server_name expected_output process start_time timeout
      end
    else print (MNotReady server_name timeout) ;; ret false
  end.

Definition wait_for_server_ready (server_name expected_output : str)
    (process : nat) (timeout : Z) : M bool :=
  print (MWaitingFor server_name) ;;
  start_time <- time_time ;;
  wait_loop (S (Z.to_nat (10 * timeout))) server_name expected_output
    process start_time timeout.

(** *** MycoRunner.start_server2, MycoRunner.start_server1 *)

Definition start_server2 : M bool :=
  print (MStarting (u "Server2")) ;;
  try_except
    (h <- Popen [u "just"; u "server2"] ;;
     modify (set_server2_process (Some h)) ;;
     modify (fun s => set_processes (processes s ++ [h]) s) ;;
     wait_for_server_ready (u "Server2") (u "Server2 listening on") h 30)
    [([C_OSError; C_SubprocessError], fun e =>
        print (MFailedToStart (u "Server2") e) ;; ret false)].

Definition start_server1 : M bool :=
  print (MStarting (u "Server1")) ;;
  try_except
    (h <- Popen [u "just"; u "server1"] ;;
     modify (set_server1_process (Some h)) ;;
     modify (fun s => set_processes (processes s ++ [h]) s) ;;
     wait_for_server_ready (u "Server1") (u "Server1 listening on") h 60)
    [([C_OSError; C_SubprocessError], fun e =>
        print (MFailedToStart (u "Server1") e) ;; ret false)].

(** *** MycoRunner.run_client *)

Definition run_client : M bool :=
  print MRunningClient ;;
  try_except
    (client_process <- Popen [u "just"; u "client";
                              u "https://localhost:3002";
                              u "https://localhost:3004"] ;;
     print MClientOutput ;;
     print MRule ;;
     for_each (env_client_lines E) (fun line =>
       print (MClientLine (rstrip line))) ;;
     rc <- wait_forever client_process ;;
     if rc =? 0 then
       print MRule ;; print MClientCompleted ;; ret true
     else
       print (MClientFailed rc) ;; ret false)
    [([C_OSError; C_SubprocessError], fun e =>
        print (MFailedToRunClient e) ;; ret false)].

(** *** MycoRunner.run *)

Definition run : M bool :=
  print MBanner ;;
  print MDoubleRule ;;
  signal_signal SIGINT ;;
  signal_signal SIGTERM ;;
  print MCleaningExisting ;;
  cleanup_ports ;;
  free <- check_ports_free ;;
  give_in <-
    (if negb free then
       print MStillInUse ;;
       subprocess_run [u "pkill"; u "-9"; u "-f"; u "rpc_server"] false ;;
       subprocess_run [u "pkill"; u "-9"; u "-f"; u "cargo.*rpc_server"] false ;;
       time_sleep 1000 ;;
       cleanup_ports ;;
       free_now <- check_ports_free ;;
       if negb free_now then print MUnableToFree ;; ret true else ret false
     else ret false) ;;
  if give_in then ret false
  else
    try_finally
      (try_except
         (ok2 <- start_server2 ;;
          if negb ok2 then print (MFailedExiting (u "Server2")) ;; ret false
          else
            ok1 <- start_server1 ;;
            if negb ok1 then print (MFailedExiting (u "Server1")) ;; ret false
            else run_client)
         [([C_KeyboardInterrupt], fun _ => print MInterrupted ;; ret false);
          ([C_OSError; C_SubprocessError; C_RuntimeError], fun e =>
             print (MUnexpected e) ;; ret false)])
      cleanup.

(** *** main *)

Definition main : M unit :=
  present <- os_path_exists ;;
  if negb present then print MNoJustfile ;; sys_exit 1
  else
    try_except
      (subprocess_run [u "just"; u "--version"] true ;; ret tt)
      [([C_CalledProcessError; C_FileNotFoundError], fun _ =>
          print MNoJust ;; print MInstallHint ;; sys_exit 1)] ;;
    success <- run ;;
    if success then print MSucceeded ;; sys_exit 0
    else print MFailed ;; sys_exit 1.

End Program.

(** ** Signals and the whole process *)

(** No signal arrives: the operation is counted and goes ahead. *)
Definition quiet : M unit := fun s => (Ret tt, count_tick s).

Definition signum_eqb (a b : signum) : bool :=
  match a, b with
  | SIGINT, SIGINT | SIGTERM, SIGTERM => true
  | _, _ => false
  end.

(** What Python does with a signal for which the script installed no
    handler: [SIGINT] raises [KeyboardInterrupt], [SIGTERM] ends the
    process at once. *)
Definition default_action (sg : signum) : M unit :=
  match sg with
  | SIGINT => raise KeyboardInterrupt
  | SIGTERM => fun s => (Killed SIGTERM, s)
  end.

(** A signal arrives at the operation it names and pre-empts it: the
    installed handler runs on top of the interrupted code, and whatever it
    raises propagates from that point.  The environment sends at most one
    signal, so the handler itself runs undisturbed. *)
Definition deliver (E : env) (pending : option (nat * signum)) : M unit :=
  match pending with
  | None => quiet
  | Some (k, sg) =>
    fun s =>
      if Nat.eqb (ticks s) k then
        if existsb (signum_eqb sg) (handlers s)
        then signal_handler E quiet sg
               (set_signalled (emit (EHandler sg) (count_tick s)))
        else default_action sg (count_tick s)
      else (Ret tt, count_tick s)
  end.

(** How the operating system sees the process end. *)
Inductive termination : Type :=
| Exited (status : Z)
| KilledBy (sg : signum)
| Hangs
| Unfinished.

(** An uncaught [SystemExit] gives its code as exit status, any other
    uncaught exception status 1 after the traceback; an uncaught
    [KeyboardInterrupt] ends the interpreter by [SIGINT]. *)
Definition process_end (r : result unit) : termination :=
  match r with
  | Ret _ => Exited 0
  | Raise (SystemExit code) => Exited code
  | Raise KeyboardInterrupt => KilledBy SIGINT
  | Raise _ => Exited 1
  | Blocked => Hangs
  | Killed sg => KilledBy sg
  | OutOfFuel => Unfinished
  end.

(** [python3 run_myco.py] in the environment [E] *)
Definition run_myco (E : env) : termination * state :=
  let (r, s) := main E (deliver E (env_signal E)) initial in (process_end r, s).

(** How many times [cleanup] was entered and how many times it ran to
    its end, read off the console output. *)
Definition is_print (m0 : msg -> bool) (e : event) : bool :=
  match e with EPrint m => m0 m | _ => false end.

Definition cleanups_started (t : list event) : nat :=
  List.length (filter (is_print (fun m => match m with MCleaningUp => true | _ => false end)) t).

Definition cleanups_completed (t : list event) : nat :=
  List.length (filter (is_print (fun m => match m with MCleanupCompleted => true | _ => false end)) t).

(** ** Sample environments *)

Module Sample.

(** Both servers announce themselves on their second line and the client
    succeeds; no tool finds anything to kill. *)
Definition server_line (name : string) : bytes :=
  u "INFO " ++ u name ++ u " listening on 0.0.0.0" ++ [nl].

Definition calm : env :=
  {| env_exists := true;
     env_run := fun _ argv =>
       match argv with
       | cmd :: _ => if starts_with (u "just") cmd then Completed 0 (u "just 1.0")
                     else Completed 1 []
       | [] => Completed 1 []
       end;
     env_popen := fun n _ => Spawned (Z.of_nat (100 + n));
     env_lag := fun _ => 1%N;
     env_poll := fun _ _ => None;
     env_readline := fun h n =>
       ReadBytes
         (if Nat.eqb h 0 && Nat.eqb n 1 then server_line "Server2"
          else if Nat.eqb h 1 && Nat.eqb n 3 then server_line "Server1"
          else u "compiling" ++ [nl]);
     env_wait := fun _ _ => Some 0;
     env_client_lines := [u "latency 12ms" ++ [nl]];
     env_client_exit := Some 0;
     env_signal := None |}.

Definition with_signal (E : env) (k : nat) (sg : signum) : env :=
  {| env_exists := env_exists E; env_run := env_run E;
     env_popen := env_popen E; env_lag := env_lag E;
     env_poll := env_poll E; env_readline := env_readline E;
     env_wait := env_wait E; env_client_lines := env_client_lines E;
     env_client_exit := env_client_exit E; env_signal := Some (k, sg) |}.

End Sample.

(** ** Reasoning about runs *)

(** *** How an operation can end *)

(** [raises_only ok m]: from every state, [m] returns or raises an
    exception accepted by [ok]; it neither blocks nor is cut short. *)
Definition raises_only (ok : exn -> bool) {A} (m : M A) : Prop :=
  forall s, match fst (m s) with
            | Ret _ => True
            | Raise e => ok e = true
            | _ => False
            end.

Definition never : exn -> bool := fun _ => false.
Definition os_error : exn -> bool := caught_by [C_OSError; C_SubprocessError].
Definition timeout_error : exn -> bool := caught_by [C_TimeoutExpired].

Lemma raises_only_ret ok {A} (a : A) : raises_only ok (ret a).
Proof. intros s; exact I. Qed.

Lemma raises_only_get ok : raises_only ok get.
Proof. intros s; exact I. Qed.

Lemma raises_only_modify ok f : raises_only ok (modify f).
Proof. intros s; exact I. Qed.

Lemma raises_only_raise (ok : exn -> bool) {A} e :
  ok e = true -> raises_only ok (@raise A e).
Proof. intros H s; exact H. Qed.

Lemma raises_only_bind ok {A B} (m : M A) (k : A -> M B) :
  raises_only ok m -> (forall a, raises_only ok (k a)) ->
  raises_only ok (bind m k).
Proof.
  intros Hm Hk s. specialize (Hm s). unfold bind.
  destruct (m s) as [[a | e | | g | ] s']; simpl in *;
    try contradiction; try exact Hm.
  apply Hk.
Qed.

Lemma raises_only_mono (ok ok' : exn -> bool) {A} (m : M A) :
  (forall e, ok e = true -> ok' e = true) ->
  raises_only ok m -> raises_only ok' m.
Proof.
  intros Hi Hm s. specialize (Hm s).
  destruct (fst (m s)); auto.
Qed.

Lemma raises_only_try ok ok' {A} (body : M A) clauses :
  raises_only ok body ->
  (forall e, ok e = true -> raises_only ok' (dispatch clauses e)) ->
  raises_only ok' (try_except body clauses).
Proof.
  intros Hb Hc s. specialize (Hb s). unfold try_except.
  destruct (body s) as [[a | e | | g | ] s']; simpl in *;
    try contradiction; try exact I.
  apply Hc, Hb.
Qed.

Lemma raises_only_finally ok {A} (body : M A) fin :
  raises_only ok body -> raises_only ok fin ->
  raises_only ok (try_finally body fin).
Proof.
  intros Hb Hf s. specialize (Hb s). unfold try_finally.
  destruct (body s) as [[a | e | | g | ] s']; simpl in *; try contradiction.
  - apply (raises_only_bind ok fin (fun _ => ret a));
      [exact Hf | intros; apply raises_only_ret].
  - apply (raises_only_bind ok fin (fun _ => raise e));
      [exact Hf | intros; apply raises_only_raise; exact Hb].
Qed.

Lemma raises_only_for_each ok {A} (xs : list A) body :
  (forall x, raises_only ok (body x)) -> raises_only ok (for_each xs body).
Proof.
  intros Hb. induction xs as [| x xs IH]; simpl.
  - apply raises_only_ret.
  - apply raises_only_bind; auto.
Qed.

(** *** What an operation does to the state *)

Section Preserves.

Variable R : state -> state -> Prop.
Hypothesis R_refl : forall s, R s s.
Hypothesis R_trans : forall a b c, R a b -> R b c -> R a c.

(** [preserves m]: however [m] ends, the state it leaves is related to
    the state it started from. *)
Definition preserves {A} (m : M A) : Prop := forall s, R s (snd (m s)).

Lemma preserves_ret {A} (a : A) : preserves (ret a).
Proof. intros s; apply R_refl. Qed.

Lemma preserves_raise {A} e : preserves (@raise A e).
Proof. intros s; apply R_refl. Qed.

Lemma preserves_get : preserves get.
Proof. intros s; apply R_refl. Qed.

Lemma preserves_bind {A B} (m : M A) (k : A -> M B) :
  preserves m -> (forall a, preserves (k a)) -> preserves (bind m k).
Proof.
  intros Hm Hk s. specialize (Hm s). unfold bind.
  destruct (m s) as [[a | e | | g | ] s']; simpl in *; try exact Hm.
  eapply R_trans; [exact Hm | apply Hk].
Qed.

Lemma preserves_dispatch {A} (clauses : list (list exn_class * (exn -> M A))) e :
  Forall (fun c => forall e, preserves (snd c e)) clauses ->
  preserves (dispatch clauses e).
Proof.
  induction 1 as [| [cl h] rest Hh _ IH]; simpl.
  - apply preserves_raise.
  - destruct (caught_by cl e); [apply Hh | exact IH].
Qed.

Lemma preserves_try {A} (body : M A) clauses :
  preserves body ->
  Forall (fun c => forall e, preserves (snd c e)) clauses ->
  preserves (try_except body clauses).
Proof.
  intros Hb Hc s. specialize (Hb s). unfold try_except.
  destruct (body s) as [[a | e | | g | ] s']; simpl in *; try exact Hb.
  eapply R_trans; [exact Hb | apply preserves_dispatch; exact Hc].
Qed.

Lemma preserves_finally {A} (body : M A) fin :
  preserves body -> preserves fin -> preserves (try_finally body fin).
Proof.
  intros Hb Hf s. specialize (Hb s). unfold try_finally.
  destruct (body s) as [[a | e | | g | ] s']; simpl in *; try exact Hb.
  - eapply R_trans; [exact Hb |].
    apply (preserves_bind fin (fun _ => ret a));
      [exact Hf | intros; apply preserves_ret].
  - eapply R_trans; [exact Hb |].
    apply (preserves_bind fin (fun _ => raise e));
      [exact Hf | intros; apply preserves_raise].
Qed.

Lemma preserves_for_each {A} (xs : list A) body :
  (forall x, preserves (body x)) -> preserves (for_each xs body).
Proof.
  intros Hb. induction xs as [| x xs IH]; simpl.
  - apply preserves_ret.
  - apply preserves_bind; auto.
Qed.

End Preserves.

(** *** The operations, when no signal arrives *)

Section Quiet.

Variable E : env.

Lemma print_returns ok m : raises_only ok (print quiet m).
Proof. intros s; exact I. Qed.

Lemma time_sleep_returns ok ms : raises_only ok (time_sleep quiet ms).
Proof. intros s; exact I. Qed.

Lemma time_time_returns ok : raises_only ok (time_time E quiet).
Proof. intros s; exact I. Qed.

Lemma exn_of_failure_os f : os_error (exn_of_failure f) = true.
Proof. destruct f; reflexivity. Qed.

Lemma subprocess_run_raises argv check :
  raises_only os_error (subprocess_run E quiet argv check).
Proof.
  intros s. unfold subprocess_run, bind, quiet. simpl.
  destruct (env_run E (n_run s) argv) as [rc text | f]; simpl.
  - destruct (check && negb (rc =? 0)); simpl; auto.
  - apply exn_of_failure_os.
Qed.

Lemma Popen_raises argv : raises_only os_error (Popen E quiet argv).
Proof.
  intros s. unfold Popen, bind, quiet. simpl.
  destruct (env_popen E (n_popen s) argv) as [p | f]; simpl; auto.
  apply exn_of_failure_os.
Qed.

Lemma poll_returns ok h : raises_only ok (poll E quiet h).
Proof.
  intros s. unfold poll, bind, quiet. simpl.
  destruct (returncode (object_at h (count_tick s))); simpl; auto.
  destruct (env_poll E h (n_poll s)); simpl; auto.
Qed.

Lemma wait_raises h timeout : raises_only timeout_error (wait E quiet h timeout).
Proof.
  intros s. unfold wait, bind, quiet. simpl.
  destruct (returncode (object_at h (count_tick s))); simpl; auto.
  destruct (env_wait E h (n_wait s)); simpl; auto.
Qed.

Lemma terminate_returns ok h : raises_only ok (terminate quiet h).
Proof. intros s; exact I. Qed.

Lemma kill_returns ok h : raises_only ok (kill quiet h).
Proof. intros s; exact I. Qed.

Lemma dispatch_os ok {A} (h : exn -> M A) e :
  (forall e, raises_only ok (h e)) -> os_error e = true ->
  raises_only ok (dispatch [([C_OSError; C_SubprocessError], h)] e).
Proof.
  intros Hh He. unfold dispatch.
  change (caught_by [C_OSError; C_SubprocessError] e) with (os_error e).
  rewrite He. apply Hh.
Qed.

Lemma dispatch_timeout ok {A} (h : exn -> M A) e :
  (forall e, raises_only ok (h e)) -> timeout_error e = true ->
  raises_only ok (dispatch [([C_TimeoutExpired], h)] e).
Proof.
  intros Hh He. unfold dispatch.
  change (caught_by [C_TimeoutExpired] e) with (timeout_error e).
  rewrite He. apply Hh.
Qed.

Lemma swallow_os ok e :
  os_error e = true -> raises_only ok (dispatch swallow e).
Proof.
  intros He. unfold swallow, dispatch.
  change (caught_by [C_OSError; C_SubprocessError] e) with (os_error e).
  rewrite He. apply raises_only_ret.
Qed.

End Quiet.

Create HintDb returns.

#[local] Hint Resolve raises_only_ret raises_only_get raises_only_modify
  print_returns time_sleep_returns time_time_returns subprocess_run_raises
  Popen_raises poll_returns terminate_returns kill_returns swallow_os : returns.

(** A proof step for [raises_only] goals: take the program apart along
    its sequencing, loops and branches. *)
Ltac returns_step :=
  first
    [ solve [auto with returns]
    | apply raises_only_bind; [ | intros ]
    | apply raises_only_for_each; intros
    | match goal with
      | |- raises_only _ (if ?b then _ else _) => destruct b
      | |- raises_only _ (match ?x with Some _ => _ | None => _ end) => destruct x
      end ].

Section QuietReturns.

Variable E : env.

Lemma kill_each_raises label pause pids :
  raises_only os_error (kill_each E quiet label pause pids).
Proof. unfold kill_each. repeat returns_step. Qed.

Hint Resolve kill_each_raises : returns.

Lemma lsof_kill_raises port : raises_only os_error (lsof_kill E quiet port).
Proof. unfold lsof_kill. repeat returns_step. Qed.

Lemma netstat_kill_returns ok port : raises_only ok (netstat_kill E quiet port).
Proof.
  unfold netstat_kill.
  apply raises_only_try with (ok := os_error);
    [ | intros; apply swallow_os; assumption ].
  repeat returns_step.
Qed.

Lemma pgrep_kill_returns ok pattern label :
  raises_only ok (pgrep_kill E quiet pattern label).
Proof.
  unfold pgrep_kill.
  apply raises_only_try with (ok := os_error);
    [ | intros; apply swallow_os; assumption ].
  repeat returns_step.
Qed.

Hint Resolve lsof_kill_raises netstat_kill_returns pgrep_kill_returns : returns.

Lemma cleanup_ports_returns ok : raises_only ok (cleanup_ports E quiet).
Proof.
  unfold cleanup_ports.
  repeat returns_step.
  all: apply raises_only_try with (ok := os_error);
    [ | intros; apply swallow_os; assumption ].
  all: repeat returns_step.
Qed.

Hint Resolve cleanup_ports_returns : returns.

Lemma check_ports_loop_returns ok ps :
  raises_only ok (check_ports_loop E quiet ps).
Proof.
  induction ps as [| port rest IH]; simpl.
  - apply raises_only_ret.
  - apply raises_only_bind; [ | intros [|]; [apply raises_only_ret | exact IH] ].
    apply raises_only_try with (ok := os_error).
    + repeat returns_step.
    + intros e He. apply dispatch_os; [intros; apply raises_only_ret | exact He].
Qed.

Lemma check_ports_free_returns ok : raises_only ok (check_ports_free E quiet).
Proof. apply check_ports_loop_returns. Qed.

Lemma wait_then_returns ok h timeout (k : exn -> M unit) :
  (forall e, raises_only ok (k e)) ->
  raises_only ok
    (try_except (wait E quiet h timeout ;; ret tt) [([C_TimeoutExpired], k)]).
Proof.
  intros Hk. apply raises_only_try with (ok := timeout_error).
  - apply raises_only_bind; [apply wait_raises | intros; apply raises_only_ret].
  - intros e He. apply dispatch_timeout; assumption.
Qed.

Lemma cleanup_returns ok : raises_only ok (cleanup E quiet).
Proof.
  unfold cleanup.
  repeat returns_step.
  - apply wait_then_returns. intros _.
    repeat returns_step.
    apply wait_then_returns. intros; apply raises_only_ret.
  - apply raises_only_try with (ok := os_error);
      [ | intros; apply swallow_os; assumption ].
    repeat returns_step.
Qed.

End QuietReturns.

(** ** check_ports_free *)

(** [lsof] gives no usable answer: it cannot be run, or it ends with a
    return code other than 0. *)
Definition undiscoverable (r : run_result) : Prop :=
  match r with
  | Completed rc _ => rc <> 0
  | RunFails _ => True
  end.

Lemma check_ports_loop_undiscoverable (E : env) (ps : list Z) :
  (forall n port, In port ps -> undiscoverable (env_run E n (lsof_argv port))) ->
  forall s, fst (check_ports_loop E quiet ps s) = Ret true.
Proof.
  induction ps as [| port rest IH]; intros H s.
  - reflexivity.
  - pose proof (H (n_run s) port (or_introl eq_refl)) as Hp.
    assert (Hrest : forall s', fst (check_ports_loop E quiet rest s') = Ret true).
    { apply IH. intros n q Hq. apply H. right; exact Hq. }
    cbn [check_ports_loop].
    unfold bind, try_except, subprocess_run, quiet. cbn.
    destruct (env_run E (n_run s) (lsof_argv port)) as [rc text | f].
    + cbn in Hp. apply Z.eqb_neq in Hp. cbn. rewrite Hp.
      cbn. apply Hrest.
    + destruct f; cbn; apply Hrest.
Qed.

(** C10: when [lsof] cannot be run or ends in error for every managed
    port, [check_ports_free] answers [True]: a port whose owner cannot be
    discovered counts as free. *)
Theorem check_ports_free_undiscoverable (E : env) (s : state) :
  (forall n port, In port ports ->
     undiscoverable (env_run E n (lsof_argv port))) ->
  fst (check_ports_free E quiet s) = Ret true.
Proof. intros H. apply check_ports_loop_undiscoverable. exact H. Qed.

(** [lsof] is not installed. *)
Definition no_lsof : env :=
  {| env_exists := true;
     env_run := fun _ argv =>
       match argv with
       | cmd :: _ => if starts_with (u "lsof") cmd then RunFails NotFound
                     else Completed 1 []
       | [] => Completed 1 []
       end;
     env_popen := fun n _ => Spawned (Z.of_nat (100 + n));
     env_lag := fun _ => 1%N;
     env_poll := fun _ _ => None;
     env_readline := fun _ _ => ReadBytes [];
     env_wait := fun _ _ => Some 0;
     env_client_lines := [];
     env_client_exit := Some 0;
     env_signal := None |}.

Lemma check_ports_free_undiscoverable_witness :
  fst (check_ports_free no_lsof quiet initial) = Ret true.
Proof.
  apply (check_ports_free_undiscoverable no_lsof initial).
  intros n port [<- | [<- | []]]; exact I.
Defined.

(** ** cleanup *)

(** The events a piece of the run added: what [s'] recorded beyond [s]. *)
Definition since (s s' : state) : list event :=
  firstn (List.length (out s') - List.length (out s)) (out s').

Lemma since_app s s' d : out s' = d ++ out s -> since s s' = d.
Proof.
  intros H. unfold since. rewrite H, length_app, Nat.add_sub.
  rewrite firstn_app, Nat.sub_diag, firstn_all. simpl. apply app_nil_r.
Qed.

(** A child whose exit is on record stays on record and is sent neither
    [terminate()] nor [kill()]. *)
Definition spares (h : nat) (s s' : state) : Prop :=
  returncode (object_at h s) <> None ->
  returncode (object_at h s') <> None
  /\ exists d, out s' = d ++ out s
               /\ ~ In (ETerminate h) d /\ ~ In (EKill h) d.

Lemma spares_refl h s : spares h s s.
Proof.
  intros H. split; [exact H |]. exists []. simpl. auto.
Qed.

Lemma spares_trans h a b c : spares h a b -> spares h b c -> spares h a c.
Proof.
  intros Hab Hbc Ha.
  destruct (Hab Ha) as [Hb [d1 [E1 [T1 K1]]]].
  destruct (Hbc Hb) as [Hc [d2 [E2 [T2 K2]]]].
  split; [exact Hc |]. exists (d2 ++ d1). rewrite E2, E1, app_assoc.
  split; [reflexivity |].
  split; intros Hin; apply in_app_or in Hin; tauto.
Qed.

Lemma store_returncode_keeps h x rc o d :
  returncode (nth h o d) <> None ->
  returncode (nth h (store_returncode x rc o) d) <> None.
Proof.
  revert h x. induction o as [| p o IH]; intros h x H.
  - destruct x; exact H.
  - destruct x as [| x]; destruct h as [| h]; simpl in *; try exact H.
    + discriminate.
    + apply IH, H.
Qed.

(** Case analysis on the scrutinee of the first [match] in the goal. *)
Ltac case_scrutinee :=
  match goal with
  | |- context [match ?t with _ => _ end] =>
    lazymatch t with
    | context [match _ with _ => _ end] => fail
    | _ => destruct t eqn:?
    end
  end.

Create HintDb keeps.

Section Spares.

Variable E : env.
Variable h : nat.

(** A step that adds one event other than a signal to [h] and leaves
    the objects alone. *)
Lemma spares_emit s s' e :
  objects s' = objects s -> out s' = e :: out s ->
  e <> ETerminate h -> e <> EKill h -> spares h s s'.
Proof.
  intros Ho He Ht Hk H. unfold object_at in *. rewrite Ho.
  split; [exact H |]. exists [e]. split; [exact He |].
  split; intros [Hin | []]; congruence.
Qed.

Lemma spares_silent s s' :
  objects s' = objects s -> out s' = out s -> spares h s s'.
Proof.
  intros Ho He H. unfold object_at in *. rewrite Ho.
  split; [exact H |]. exists []. simpl. auto.
Qed.

Lemma spares_store s s' x rc :
  objects s' = store_returncode x rc (objects s) -> out s' = out s ->
  spares h s s'.
Proof.
  intros Ho He H. unfold object_at in *. rewrite Ho.
  split; [apply store_returncode_keeps; exact H |]. exists []. simpl. auto.
Qed.

Lemma print_keeps m : preserves (spares h) (print quiet m).
Proof. intros s. apply spares_emit with (e := EPrint m); try reflexivity; discriminate. Qed.

Lemma time_sleep_keeps ms : preserves (spares h) (time_sleep quiet ms).
Proof. intros s. apply spares_emit with (e := ESleep ms); try reflexivity; discriminate. Qed.

Lemma modify_killed_any_keeps b : preserves (spares h) (modify (set_killed_any b)).
Proof. intros s. apply spares_silent; reflexivity. Qed.

Lemma subprocess_run_keeps argv check : preserves (spares h) (subprocess_run E quiet argv check).
Proof.
  intros s. unfold subprocess_run, bind, quiet. cbn.
  destruct (env_run E (n_run s) argv) as [rc text | f].
  - destruct (check && negb (rc =? 0));
      apply spares_emit with (e := ERun argv true); try reflexivity; discriminate.
  - apply spares_emit with (e := ERun argv false); try reflexivity; discriminate.
Qed.

Lemma poll_keeps x : preserves (spares h) (poll E quiet x).
Proof.
  intros s. unfold poll, bind, quiet. cbn.
  case_scrutinee; [apply spares_silent; reflexivity |].
  case_scrutinee; [eapply spares_store | apply spares_silent]; reflexivity.
Qed.

Lemma wait_keeps x timeout : preserves (spares h) (wait E quiet x timeout).
Proof.
  intros s. unfold wait, bind, quiet. cbn.
  case_scrutinee; [apply spares_silent; reflexivity |].
  case_scrutinee; [eapply spares_store | apply spares_silent]; reflexivity.
Qed.

Lemma terminate_keeps x : x <> h -> preserves (spares h) (terminate quiet x).
Proof.
  intros Hx s. apply spares_emit with (e := ETerminate x);
    try reflexivity; congruence.
Qed.

Lemma kill_keeps x : x <> h -> preserves (spares h) (kill quiet x).
Proof.
  intros Hx s. apply spares_emit with (e := EKill x);
    try reflexivity; congruence.
Qed.

Hint Resolve print_keeps time_sleep_keeps modify_killed_any_keeps
  subprocess_run_keeps poll_keeps wait_keeps terminate_keeps kill_keeps : keeps.

Ltac keeps_step :=
  first
    [ solve [auto with keeps]
    | apply (preserves_ret _ (spares_refl h))
    | apply (preserves_get _ (spares_refl h))
    | apply (preserves_bind _ (spares_trans h)); [ | intros ]
    | apply (preserves_for_each _ (spares_refl h) (spares_trans h)); intros
    | apply (preserves_try _ (spares_refl h) (spares_trans h))
    | apply Forall_nil
    | apply Forall_cons; [cbn [snd]; intros | ]
    | match goal with
      | |- preserves _ (if ?b then _ else _) => destruct b
      | |- preserves _ (match ?x with Some _ => _ | None => _ end) => destruct x
      end ].

Lemma stop_tracked_spares x : preserves (spares h) (stop_tracked E quiet x).
Proof.
  destruct (Nat.eq_dec x h) as [-> | Hx].
  - intros s Hs. unfold stop_tracked, bind, poll, quiet. cbn.
    unfold object_at in Hs.
    destruct (returncode (nth h (objects s) _)) eqn:Hrc; [ | contradiction ].
    cbn. unfold object_at. cbn. rewrite Hrc.
    split; [exact Hs |]. exists []. simpl. auto.
  - unfold stop_tracked. repeat keeps_step.
Qed.

Lemma cleanup_ports_spares : preserves (spares h) (cleanup_ports E quiet).
Proof.
  unfold cleanup_ports, pgrep_kill, lsof_kill, netstat_kill, kill_each, swallow.
  repeat keeps_step.
Qed.

Lemma cleanup_spares : preserves (spares h) (cleanup E quiet).
Proof.
  unfold cleanup, swallow.
  apply (preserves_bind _ (spares_trans h)); [auto with keeps | intros _].
  apply (preserves_bind _ (spares_trans h));
    [apply (preserves_get _ (spares_refl h)) | intros s0].
  apply (preserves_bind _ (spares_trans h)).
  { apply (preserves_for_each _ (spares_refl h) (spares_trans h)).
    apply stop_tracked_spares. }
  intros _.
  apply (preserves_bind _ (spares_trans h)); [apply cleanup_ports_spares | intros _].
  repeat keeps_step.
Qed.

End Spares.

Lemma cleanup_ends (E : env) (s : state) : fst (cleanup E quiet s) = Ret tt.
Proof.
  pose proof (cleanup_returns E never s) as H.
  destruct (fst (cleanup E quiet s)) as [[] | e | | g | ];
    try contradiction; [reflexivity | discriminate].
Qed.

Lemma cleanup_leaves_alone (E : env) (h : nat) (s : state) :
  returncode (object_at h s) <> None ->
  ~ In (ETerminate h) (since s (snd (cleanup E quiet s)))
  /\ ~ In (EKill h) (since s (snd (cleanup E quiet s))).
Proof.
  intros Hh.
  destruct (cleanup_spares E h s Hh) as [_ [d [Hd [Ht Hk]]]].
  rewrite (since_app _ _ _ Hd). auto.
Qed.


(** ** cleanup_ports *)

Fixpoint str_eqb (a b : str) : bool :=
  match a, b with
  | [], [] => true
  | x :: a', y :: b' => (x =? y)%N && str_eqb a' b'
  | _, _ => false
  end.

(** The command line is a [kill -9 <pid>]. *)
Definition is_kill (argv : list str) : bool :=
  match argv with
  | [a; b; _] => str_eqb a (u "kill") && str_eqb b (u "-9")
  | _ => false
  end.

(** A [kill -9] command was run to its end. *)
Definition kill_done (e : event) : bool :=
  match e with
  | ERun argv true => is_kill argv
  | _ => false
  end.

(** The two-second wait at the end of [cleanup_ports]. *)
Definition long_sleep (e : event) : bool :=
  match e with
  | ESleep ms => ms =? 2000
  | _ => false
  end.

Definition is_netstat (e : event) : bool :=
  match e with
  | ERun (cmd :: _) _ => str_eqb cmd (u "netstat")
  | _ => false
  end.

(** [killed_any] follows the kills: it is set exactly when a [kill -9]
    was run, and the long wait has not happened. *)
Definition tracks (s s' : state) : Prop :=
  exists d, out s' = d ++ out s
            /\ killed_any s' = killed_any s || existsb kill_done d
            /\ existsb long_sleep d = false.

Lemma tracks_refl s : tracks s s.
Proof. exists []. simpl. rewrite orb_false_r. auto. Qed.

Lemma tracks_trans a b c : tracks a b -> tracks b c -> tracks a c.
Proof.
  intros [d1 [E1 [K1 L1]]] [d2 [E2 [K2 L2]]].
  exists (d2 ++ d1). rewrite E2, E1, app_assoc. split; [reflexivity |].
  rewrite !existsb_app, K2, K1, L1, L2.
  split; [ | reflexivity ].
  destruct (killed_any a), (existsb kill_done d1), (existsb kill_done d2);
    reflexivity.
Qed.

Lemma tracks_emit s s' e :
  out s' = e :: out s -> killed_any s' = killed_any s ->
  kill_done e = false -> long_sleep e = false -> tracks s s'.
Proof.
  intros Ho Hk He Hl. exists [e]. simpl. rewrite He, Hl, Hk, orb_false_r.
  auto.
Qed.

Lemma tracks_silent s s' :
  out s' = out s -> killed_any s' = killed_any s -> tracks s s'.
Proof.
  intros Ho Hk. exists []. simpl. rewrite Hk, orb_false_r. auto.
Qed.

Lemma bind_assoc {A B C} (m : M A) (f : A -> M B) (g : B -> M C) s :
  bind (bind m f) g s = bind m (fun a => bind (f a) g) s.
Proof.
  unfold bind. destruct (m s) as [[a | e | | sg | ] s']; reflexivity.
Qed.

Create HintDb tracks.

Section Tracks.

Variable E : env.

Lemma print_tracks m : preserves tracks (print quiet m).
Proof. intros s. apply tracks_emit with (e := EPrint m); reflexivity. Qed.

Lemma short_sleep_tracks : preserves tracks (time_sleep quiet 100).
Proof. intros s. apply tracks_emit with (e := ESleep 100); reflexivity. Qed.

Lemma subprocess_run_tracks argv check :
  is_kill argv = false -> preserves tracks (subprocess_run E quiet argv check).
Proof.
  intros Hk s. unfold subprocess_run, bind, quiet. cbn.
  destruct (env_run E (n_run s) argv) as [rc text | f].
  - destruct (check && negb (rc =? 0));
      apply tracks_emit with (e := ERun argv true); try reflexivity; exact Hk.
  - apply tracks_emit with (e := ERun argv false); reflexivity.
Qed.

(** A [kill -9] and the assignment [killed_any = True] that follows it. *)
Lemma kill_and_record_tracks pid :
  preserves tracks
    (subprocess_run E quiet (kill_argv pid) false ;;
     modify (set_killed_any true)).
Proof.
  intros s. unfold subprocess_run, bind, quiet, modify. cbn.
  destruct (env_run E (n_run s) (kill_argv pid)) as [rc text | f]; cbn.
  - exists [ERun (kill_argv pid) true]. cbn. rewrite orb_true_r. auto.
  - apply tracks_emit with (e := ERun (kill_argv pid) false); reflexivity.
Qed.

Lemma kill_record_then_tracks pid (k : M unit) :
  preserves tracks k ->
  preserves tracks
    (subprocess_run E quiet (kill_argv pid) false ;;
     modify (set_killed_any true) ;; k).
Proof.
  intros Hk s.
  rewrite <- (bind_assoc (subprocess_run E quiet (kill_argv pid) false)
                (fun _ => modify (set_killed_any true)) (fun _ => k) s).
  apply (preserves_bind _ tracks_trans);
    [apply kill_and_record_tracks | intros _; exact Hk].
Qed.

Hint Resolve print_tracks short_sleep_tracks kill_and_record_tracks : tracks.

Ltac tracks_step :=
  first
    [ solve [auto with tracks]
    | apply (preserves_ret _ tracks_refl)
    | apply kill_record_then_tracks
    | apply subprocess_run_tracks; reflexivity
    | apply (preserves_bind _ tracks_trans); [ | intros ]
    | apply (preserves_for_each _ tracks_refl tracks_trans); intros
    | apply (preserves_try _ tracks_refl tracks_trans)
    | apply Forall_nil
    | apply Forall_cons; [cbn [snd]; intros | ]
    | match goal with
      | |- preserves _ (if ?b then _ else _) => destruct b
      end ].

Lemma kill_each_tracks label pause pids :
  preserves tracks (kill_each E quiet label pause pids).
Proof. unfold kill_each. repeat tracks_step. Qed.

Lemma lsof_kill_tracks port : preserves tracks (lsof_kill E quiet port).
Proof. unfold lsof_kill, kill_each. repeat tracks_step. Qed.

Lemma netstat_kill_tracks port : preserves tracks (netstat_kill E quiet port).
Proof. unfold netstat_kill, swallow. repeat tracks_step. Qed.

Lemma pgrep_kill_tracks pattern label :
  preserves tracks (pgrep_kill E quiet pattern label).
Proof. unfold pgrep_kill, kill_each, swallow. repeat tracks_step. Qed.

(** The three sweeps of [cleanup_ports], between the reset of
    [killed_any] and the final test. *)
Definition sweeps : M unit :=
  for_each ports (fun port =>
    try_except (lsof_kill E quiet port ;; netstat_kill E quiet port) swallow) ;;
  pgrep_kill E quiet (u "rpc_server") MKillingRpcServer ;;
  pgrep_kill E quiet (u "cargo run.*rpc_server") MKillingCargo.

Definition settle : M pyval :=
  s <- get ;;
  (if killed_any s
   then print quiet MWaitingToTerminate ;; time_sleep quiet 2000
   else ret tt) ;;
  ret PyNone.

Lemma cleanup_ports_unfold s :
  cleanup_ports E quiet s = (sweeps ;; settle) (set_killed_any false s).
Proof.
  unfold cleanup_ports, sweeps, settle, bind, modify. cbv iota beta.
  destruct (for_each ports _ _) as [[[] | e | | g | ] s1]; try reflexivity.
  destruct (pgrep_kill E quiet (u "rpc_server") _ s1)
    as [[[] | e | | g | ] s2]; try reflexivity.
Qed.

Hint Resolve kill_each_tracks lsof_kill_tracks netstat_kill_tracks
  pgrep_kill_tracks : tracks.

Lemma sweeps_tracks : preserves tracks sweeps.
Proof. unfold sweeps, swallow. repeat tracks_step. Qed.

Lemma sweeps_returns s : fst (sweeps s) = Ret tt.
Proof.
  assert (H : raises_only never sweeps).
  { unfold sweeps. repeat returns_step; try apply pgrep_kill_returns.
    all: apply raises_only_try with (ok := os_error);
      [ | intros; apply swallow_os; assumption ].
    all: apply raises_only_bind;
      [apply lsof_kill_raises | intros; apply netstat_kill_returns]. }
  specialize (H s).
  destruct (fst (sweeps s)) as [[] | e | | g | ];
    try contradiction; [reflexivity | discriminate].
Qed.

(** The state [cleanup_ports] leaves, given the state [s1] the sweeps
    left. *)
Definition settled (s1 : state) : state :=
  if killed_any s1
  then emit (ESleep 2000)
         (set_now (now s1 + 2000)
            (count_tick (emit (EPrint MWaitingToTerminate) (count_tick s1))))
  else s1.

Lemma cleanup_ports_run s :
  exists s1, sweeps (set_killed_any false s) = (Ret tt, s1)
             /\ cleanup_ports E quiet s = (Ret PyNone, settled s1).
Proof.
  rewrite cleanup_ports_unfold.
  pose proof (sweeps_returns (set_killed_any false s)) as Hr.
  unfold bind at 1.
  destruct (sweeps (set_killed_any false s)) as [r s1]. simpl in Hr. subst r.
  exists s1. split; [reflexivity |].
  unfold settle, settled, bind, get. cbv beta iota.
  destruct (killed_any s1); reflexivity.
Qed.

End Tracks.


Module Tools.

(** An environment that differs from [Sample.calm] in what the external
    tools answer. *)
Definition with_tools (run : nat -> list str -> run_result) : env :=
  {| env_exists := true;
     env_run := run;
     env_popen := env_popen Sample.calm;
     env_lag := env_lag Sample.calm;
     env_poll := env_poll Sample.calm;
     env_readline := env_readline Sample.calm;
     env_wait := env_wait Sample.calm;
     env_client_lines := env_client_lines Sample.calm;
     env_client_exit := env_client_exit Sample.calm;
     env_signal := None |}.

Definition command (argv : list str) : str := hd [] argv.

(** Process 4242 holds port 3002 and [lsof] reports it. *)
Definition busy : env :=
  with_tools (fun n argv =>
    if str_eqb (command argv) (u "lsof") then
      if Nat.eqb n 0 then Completed 0 (u "4242" ++ [nl]) else Completed 1 []
    else if str_eqb (command argv) (u "kill") then Completed 0 []
    else Completed 1 []).

Definition netstat_table : str :=
  u "Proto Recv-Q Send-Q Local Address Foreign Address State PID/Program name"
  ++ [nl]
  ++ u "tcp 0 0 0.0.0.0:3002 0.0.0.0:* LISTEN 4242/rpc_server" ++ [nl].

(** Process 4242 listens on port 3002 and [netstat] shows it, but [lsof]
    is not installed. *)
Definition listener_without_lsof : env :=
  with_tools (fun n argv =>
    if str_eqb (command argv) (u "lsof") then RunFails NotFound
    else if str_eqb (command argv) (u "netstat") then Completed 0 netstat_table
    else if str_eqb (command argv) (u "kill") then Completed 0 []
    else Completed 1 []).

(** The same listener where [lsof] is installed and finds nothing. *)
Definition listener_missed_by_lsof : env :=
  with_tools (fun n argv =>
    if str_eqb (command argv) (u "lsof") then Completed 1 []
    else if str_eqb (command argv) (u "netstat") then Completed 0 netstat_table
    else if str_eqb (command argv) (u "kill") then Completed 0 []
    else Completed 1 []).

End Tools.

(** The kills made by a call of [cleanup_ports] from [s]. *)
Definition kills_made (E : env) (s : state) : bool :=
  existsb kill_done (since s (snd (cleanup_ports E quiet s))).


(** C8 at the failing input: [lsof] is not installed and [netstat] shows
    process 4242 listening on port 3002.  [cleanup_ports] returns without
    raising, but [netstat] is never run and nothing is killed, because
    the [netstat] step sits inside the [try] block that the failure of
    [lsof] leaves.  Where [lsof] runs and finds nothing, the same table
    gets the listener killed. *)
Theorem netstat_skipped_without_lsof :
  let r := cleanup_ports Tools.listener_without_lsof quiet initial in
  let r' := cleanup_ports Tools.listener_missed_by_lsof quiet initial in
  fst r = Ret PyNone
  /\ existsb is_netstat (out (snd r)) = false
  /\ existsb kill_done (out (snd r)) = false
  /\ In (ERun (kill_argv (u "4242")) true) (out (snd r')).
Proof.
  cbv zeta. repeat split; try (vm_compute; reflexivity).
  vm_compute.
  repeat match goal with |- _ \/ _ => first [left; reflexivity | right] end.
Qed.

(** ** What is printed *)

(** The run added events whose console messages all pass [allowed]. *)
Definition passes (allowed : msg -> bool) (e : event) : bool :=
  match e with
  | EPrint m => allowed m
  | _ => true
  end.

Definition prints_only (allowed : msg -> bool) (s s' : state) : Prop :=
  exists d, out s' = d ++ out s /\ forallb (passes allowed) d = true.

Lemma prints_only_refl allowed s : prints_only allowed s s.
Proof. exists []. auto. Qed.

Lemma prints_only_trans allowed a b c :
  prints_only allowed a b -> prints_only allowed b c -> prints_only allowed a c.
Proof.
  intros [d1 [E1 F1]] [d2 [E2 F2]].
  exists (d2 ++ d1). rewrite E2, E1, app_assoc, forallb_app, F1, F2. auto.
Qed.

Lemma prints_only_emit allowed s s' e :
  out s' = e :: out s -> passes allowed e = true -> prints_only allowed s s'.
Proof. intros Ho He. exists [e]. simpl. rewrite He. auto. Qed.

Lemma prints_only_silent allowed s s' :
  out s' = out s -> prints_only allowed s s'.
Proof. intros Ho. exists []. auto. Qed.

Create HintDb prints.

Section Prints.

Variable E : env.
Variable allowed : msg -> bool.

(** Every message is allowed, except perhaps those that open or close a
    [cleanup], report the client's success or announce the start of a
    server. *)
Hypothesis allowed_most :
  forall m, m <> MCleaningUp -> m <> MCleanupCompleted ->
            m <> MClientCompleted -> (forall n, m <> MStarting n) ->
            allowed m = true.

Local Abbreviation keeps m := (preserves (prints_only allowed) m).

Lemma print_prints m : allowed m = true -> keeps (print quiet m).
Proof. intros H s. apply prints_only_emit with (e := EPrint m); [reflexivity | exact H]. Qed.

Lemma time_sleep_prints ms : keeps (time_sleep quiet ms).
Proof. intros s. apply prints_only_emit with (e := ESleep ms); reflexivity. Qed.

Lemma time_time_prints : keeps (time_time E quiet).
Proof. intros s. apply prints_only_silent; reflexivity. Qed.

Lemma modify_prints f : (forall s, out (f s) = out s) -> keeps (modify f).
Proof. intros H s. apply prints_only_silent. apply H. Qed.

Lemma subprocess_run_prints argv check : keeps (subprocess_run E quiet argv check).
Proof.
  intros s. unfold subprocess_run, bind, quiet. cbn.
  destruct (env_run E (n_run s) argv) as [rc text | f].
  - destruct (check && negb (rc =? 0));
      apply prints_only_emit with (e := ERun argv true); reflexivity.
  - apply prints_only_emit with (e := ERun argv false); reflexivity.
Qed.

Lemma Popen_prints argv : keeps (Popen E quiet argv).
Proof.
  intros s. unfold Popen, bind, quiet. cbn.
  destruct (env_popen E (n_popen s) argv) as [p | f].
  - apply prints_only_emit with (e := EPopen argv true); reflexivity.
  - apply prints_only_emit with (e := EPopen argv false); reflexivity.
Qed.

Lemma poll_prints x : keeps (poll E quiet x).
Proof.
  intros s. unfold poll, bind, quiet. cbn.
  repeat case_scrutinee; apply prints_only_silent; reflexivity.
Qed.

Lemma wait_prints x timeout : keeps (wait E quiet x timeout).
Proof.
  intros s. unfold wait, bind, quiet. cbn.
  repeat case_scrutinee; apply prints_only_silent; reflexivity.
Qed.

Lemma readline_prints x : keeps (readline E quiet x).
Proof.
  intros s. unfold readline, bind, quiet. cbn.
  repeat case_scrutinee; apply prints_only_silent; reflexivity.
Qed.

Lemma wait_forever_prints x : keeps (wait_forever E quiet x).
Proof.
  intros s. unfold wait_forever, bind, quiet. cbn.
  repeat case_scrutinee; apply prints_only_silent; reflexivity.
Qed.

Lemma terminate_prints x : keeps (terminate quiet x).
Proof. intros s. apply prints_only_emit with (e := ETerminate x); reflexivity. Qed.

Lemma kill_prints x : keeps (kill quiet x).
Proof. intros s. apply prints_only_emit with (e := EKill x); reflexivity. Qed.

Lemma signal_signal_prints sg : keeps (signal_signal quiet sg).
Proof. intros s. apply prints_only_silent; reflexivity. Qed.

Lemma os_path_exists_prints : keeps (os_path_exists E quiet).
Proof. intros s. apply prints_only_silent; reflexivity. Qed.

Lemma sys_exit_prints {A} code : keeps (@sys_exit quiet A code).
Proof. intros s. apply prints_only_silent; reflexivity. Qed.

Hint Resolve time_sleep_prints time_time_prints subprocess_run_prints
  Popen_prints poll_prints wait_prints readline_prints wait_forever_prints
  terminate_prints kill_prints signal_signal_prints os_path_exists_prints
  sys_exit_prints : prints.

Ltac prints_step :=
  first
    [ solve [auto with prints]
    | apply print_prints;
        first [ assumption
              | solve [auto]
              | apply allowed_most; [discriminate | discriminate
                                     | discriminate | intros; discriminate] ]
    | apply modify_prints; reflexivity
    | apply (preserves_ret _ (prints_only_refl allowed))
    | apply (preserves_get _ (prints_only_refl allowed))
    | apply (preserves_raise _ (prints_only_refl allowed))
    | apply (preserves_bind _ (prints_only_trans allowed)); [ | intros ]
    | apply (preserves_for_each _ (prints_only_refl allowed)
               (prints_only_trans allowed)); intros
    | apply (preserves_try _ (prints_only_refl allowed)
               (prints_only_trans allowed))
    | apply (preserves_finally _ (prints_only_trans allowed))
    | apply Forall_nil
    | apply Forall_cons; [cbn [snd]; intros | ]
    | match goal with
      | |- preserves _ (if ?b then _ else _) => destruct b
      | |- preserves _ (match ?x with Some _ => _ | None => _ end) => destruct x
      end ].

Lemma cleanup_ports_prints : keeps (cleanup_ports E quiet).
Proof.
  unfold cleanup_ports, pgrep_kill, lsof_kill, netstat_kill, kill_each, swallow.
  repeat prints_step.
Qed.

Lemma check_ports_loop_prints ps : keeps (check_ports_loop E quiet ps).
Proof.
  induction ps as [| port rest IH]; simpl.
  - repeat prints_step.
  - apply (preserves_bind _ (prints_only_trans allowed));
      [ | intros [|]; [repeat prints_step | exact IH] ].
    repeat prints_step.
Qed.

Lemma check_ports_free_prints : keeps (check_ports_free E quiet).
Proof. apply check_ports_loop_prints. Qed.

Lemma wait_loop_prints fuel name marker x start timeout :
  keeps (wait_loop E quiet fuel name marker x start timeout).
Proof.
  induction fuel as [| fuel IH]; cbn [wait_loop].
  - intros s. apply prints_only_silent; reflexivity.
  - apply (preserves_bind _ (prints_only_trans allowed)); [auto with prints |].
    intros t. destruct (t - start <? 1000 * timeout); [ | repeat prints_step ].
    apply (preserves_bind _ (prints_only_trans allowed)); [auto with prints |].
    intros [rc |]; [repeat prints_step |].
    apply (preserves_bind _ (prints_only_trans allowed)).
    + apply (preserves_try _ (prints_only_refl allowed)
               (prints_only_trans allowed)).
      * apply (preserves_bind _ (prints_only_trans allowed)); [auto with prints |].
        intros line. destruct (nonempty line); [ | repeat prints_step ].
        destruct (decode_utf8 line); repeat prints_step.
      * repeat prints_step.
    + intros [|]; [repeat prints_step |].
      apply (preserves_bind _ (prints_only_trans allowed));
        [auto with prints | intros _; exact IH].
Qed.

Lemma wait_for_server_ready_prints name marker x timeout :
  keeps (wait_for_server_ready E quiet name marker x timeout).
Proof.
  unfold wait_for_server_ready.
  apply (preserves_bind _ (prints_only_trans allowed));
    [repeat prints_step | intros _].
  apply (preserves_bind _ (prints_only_trans allowed));
    [auto with prints | intros start; apply wait_loop_prints].
Qed.

Hint Resolve cleanup_ports_prints check_ports_free_prints
  wait_for_server_ready_prints : prints.

Lemma start_server2_prints :
  (forall n, allowed (MStarting n) = true) -> keeps (start_server2 E quiet).
Proof. intros H. unfold start_server2. repeat prints_step. Qed.

Lemma start_server1_prints :
  (forall n, allowed (MStarting n) = true) -> keeps (start_server1 E quiet).
Proof. intros H. unfold start_server1. repeat prints_step. Qed.

Lemma run_client_prints :
  allowed MClientCompleted = true -> keeps (run_client E quiet).
Proof. intros H. unfold run_client. repeat prints_step. Qed.

Lemma stop_tracked_prints x : keeps (stop_tracked E quiet x).
Proof. unfold stop_tracked. repeat prints_step. Qed.

Hint Resolve start_server2_prints start_server1_prints run_client_prints
  stop_tracked_prints : prints.

(** [cleanup] between its opening and its closing message. *)
Definition cleanup_body : M unit :=
  s <- get ;;
  for_each (processes s) (stop_tracked E quiet) ;;
  cleanup_ports E quiet ;;
  try_except
    (subprocess_run E quiet [u "pkill"; u "-f"; u "rpc_server"] false ;; ret tt)
    swallow.

Lemma cleanup_body_prints : keeps cleanup_body.
Proof. unfold cleanup_body, swallow. repeat prints_step. Qed.

End Prints.

(** ** wait_for_server_ready *)

(** What the loop makes of one answer of [readline]: whether the line,
    decoded and stripped, contains the expected output. *)
Definition sees_marker (expected_output : str) (r : read_result) : bool :=
  match r with
  | ReadBytes line =>
    nonempty line
    && match decode_utf8 line with
       | Some text => contains expected_output (strip text)
       | None => false
       end
  | _ => false
  end.

(** Time elapsed, at the [j]-th test of the loop condition, since
    [start_time] was read; [n] is the index of the clock reading of the
    first test.  Each turn of the loop sleeps 100 ms. *)
Fixpoint waited (E : env) (n j : nat) : Z :=
  match j with
  | O => Z.of_N (env_lag E n)
  | S j' => Z.of_N (env_lag E n) + 100 + waited E (S n) j'
  end.

Lemma waited_lower E n j : Z.of_N (env_lag E n) + 100 * Z.of_nat j <= waited E n j.
Proof.
  revert n. induction j as [| j IH]; intros n.
  - simpl. lia.
  - cbn [waited]. specialize (IH (S n)). lia.
Qed.

Section WaitLoop.

Variable E : env.
Variables server_name expected_output : str.
Variable h : nat.
Variables start_time timeout : Z.

Local Abbreviation loop fuel :=
  (wait_loop E quiet fuel server_name expected_output h start_time timeout).

(** The clock reading at the test that opens a turn of the loop. *)
Definition reading (s : state) : Z := now s + Z.of_N (env_lag E (n_time s)).

Ltac tidy :=
  cbn -[Z.mul Z.add Z.sub Z.ltb Z.of_N decode_utf8 strip contains nonempty] in *.

Ltac open_loop :=
  cbn [wait_loop];
  unfold bind, time_time, poll, readline, try_except, print, time_sleep,
    modify, ret, raise, quiet, reading, object_at in *;
  tidy.

Ltac use H := rewrite H; tidy.

Lemma loop_timed_out fuel s :
  1000 * timeout <= reading s - start_time ->
  exists s', loop (S fuel) s = (Ret false, s')
             /\ out s' = EPrint (MNotReady server_name timeout) :: out s
             /\ objects s' = objects s /\ processes s' = processes s.
Proof.
  intros Ht. apply Z.ltb_ge in Ht. open_loop. use Ht.
  eexists; split; [reflexivity |]. cbn. auto.
Qed.

Lemma loop_exit_known fuel s rc :
  reading s - start_time < 1000 * timeout ->
  returncode (object_at h s) = Some rc ->
  exists s', loop (S fuel) s = (Ret false, s')
             /\ out s' = EPrint (MTerminatedUnexpectedly server_name) :: out s
             /\ objects s' = objects s /\ processes s' = processes s.
Proof.
  intros Ht Hrc. apply Z.ltb_lt in Ht. open_loop. use Ht. use Hrc.
  eexists; split; [reflexivity |]. cbn. auto.
Qed.

Lemma loop_exit_seen fuel s rc :
  reading s - start_time < 1000 * timeout ->
  returncode (object_at h s) = None ->
  env_poll E h (n_poll s) = Some rc ->
  exists s', loop (S fuel) s = (Ret false, s')
             /\ out s' = EPrint (MTerminatedUnexpectedly server_name) :: out s
             /\ objects s' = store_returncode h rc (objects s)
             /\ processes s' = processes s.
Proof.
  intros Ht Hrc Hp. apply Z.ltb_lt in Ht. open_loop. use Ht. use Hrc. use Hp.
  eexists; split; [reflexivity |]. cbn. auto.
Qed.

Lemma loop_blocked fuel s :
  reading s - start_time < 1000 * timeout ->
  returncode (object_at h s) = None ->
  env_poll E h (n_poll s) = None ->
  env_readline E h (n_read s) = ReadBlocks ->
  fst (loop (S fuel) s) = Blocked.
Proof.
  intros Ht Hrc Hp Hr. apply Z.ltb_lt in Ht. open_loop.
  use Ht. use Hrc. use Hp. use Hr. reflexivity.
Qed.

Lemma loop_ready fuel s :
  reading s - start_time < 1000 * timeout ->
  returncode (object_at h s) = None ->
  env_poll E h (n_poll s) = None ->
  sees_marker expected_output (env_readline E h (n_read s)) = true ->
  exists s', loop (S fuel) s = (Ret true, s')
             /\ (exists d, out s' = EPrint (MReady server_name) :: d ++ out s)
             /\ n_poll s' = S (n_poll s)
             /\ objects s' = objects s /\ processes s' = processes s.
Proof.
  intros Ht Hrc Hp Hm. apply Z.ltb_lt in Ht. open_loop.
  use Ht. use Hrc. use Hp.
  destruct (env_readline E h (n_read s)) as [line | | ]; try discriminate.
  cbn in Hm. apply andb_prop in Hm. destruct Hm as [Hn Hm].
  rewrite Hn. destruct (decode_utf8 line) as [text |]; [ | discriminate ].
  cbn. rewrite Hm. cbn.
  eexists; split; [reflexivity |]. cbn.
  split; [exists [EPrint (MServerLine server_name (strip text))]; reflexivity |].
  auto.
Qed.

Lemma loop_again fuel s :
  reading s - start_time < 1000 * timeout ->
  returncode (object_at h s) = None ->
  env_poll E h (n_poll s) = None ->
  env_readline E h (n_read s) <> ReadBlocks ->
  sees_marker expected_output (env_readline E h (n_read s)) = false ->
  exists s', loop (S fuel) s = loop fuel s'
             /\ now s' = reading s + 100
             /\ n_time s' = S (n_time s)
             /\ n_poll s' = S (n_poll s)
             /\ n_read s' = S (n_read s)
             /\ objects s' = objects s /\ processes s' = processes s
             /\ exists d, out s' = d ++ out s.
Proof.
  intros Ht Hrc Hp Hb Hm. apply Z.ltb_lt in Ht. open_loop.
  use Ht. use Hrc. use Hp.
  destruct (env_readline E h (n_read s)) as [line | | ]; [ | | contradiction ].
  - cbn in Hm. destruct (nonempty line); cbn in Hm |- *.
    + destruct (decode_utf8 line) as [text |]; cbn.
      * rewrite Hm. cbn.
        eexists; split; [reflexivity |]. cbn. repeat split; auto.
        eexists [_; _]. reflexivity.
      * eexists; split; [reflexivity |]. cbn. repeat split; auto.
        eexists [_; _]. reflexivity.
    + eexists; split; [reflexivity |]. cbn. repeat split; auto.
      eexists [_]. reflexivity.
  - cbn. eexists; split; [reflexivity |]. cbn. repeat split; auto.
    eexists [_; _]. reflexivity.
Qed.

End WaitLoop.

(** *** Substring containment survives [strip] *)

(** The text has no white space at either end. *)
Definition trimmed (m : str) : bool :=
  match m with [] => true | c :: _ => negb (isspace c) end
  && match rev m with [] => true | c :: _ => negb (isspace c) end.

Lemma starts_with_app p s :
  starts_with p s = true <-> exists b, s = p ++ b.
Proof.
  revert s. induction p as [| a p IH]; intros s; simpl.
  - split; [intros _; exists s; reflexivity | reflexivity].
  - destruct s as [| c s].
    + split; [discriminate | intros [b Hb]; discriminate].
    + rewrite andb_true_iff, N.eqb_eq, IH. split.
      * intros [-> [b ->]]. exists b. reflexivity.
      * intros [b Hb]. injection Hb as -> ->. split; [reflexivity |].
        exists b. reflexivity.
Qed.

Lemma contains_app needle hay :
  contains needle hay = true <-> exists a b, hay = a ++ needle ++ b.
Proof.
  induction hay as [| c hay IH].
  - simpl. rewrite orb_false_r, starts_with_app. split.
    + intros [b Hb]. exists [], b. exact Hb.
    + intros [a [b Hb]]. destruct a; [exists b; exact Hb | discriminate].
  - cbn [contains]. rewrite orb_true_iff, starts_with_app, IH. split.
    + intros [[b Hb] | [a [b Hb]]].
      * exists [], b. exact Hb.
      * exists (c :: a), b. rewrite Hb. reflexivity.
    + intros [[| x a] [b Hb]].
      * left. exists b. exact Hb.
      * right. injection Hb as _ Hb. exists a, b. exact Hb.
Qed.

Lemma lstrip_keeps a c m b :
  isspace c = false ->
  exists a', lstrip (a ++ (c :: m) ++ b) = a' ++ (c :: m) ++ b.
Proof.
  intros Hc. induction a as [| x a IH].
  - exists []. simpl. rewrite Hc. reflexivity.
  - simpl. destruct (isspace x).
    + exact IH.
    + exists (x :: a). reflexivity.
Qed.

Lemma contains_strip marker text :
  trimmed marker = true ->
  contains marker text = true -> contains marker (strip text) = true.
Proof.
  intros Ht Hc. destruct marker as [| c m].
  { destruct (strip text); reflexivity. }
  apply contains_app in Hc. destruct Hc as [a [b ->]].
  unfold trimmed in Ht. apply andb_prop in Ht. destruct Ht as [Hfirst Hlast].
  apply negb_true_iff in Hfirst.
  destruct (lstrip_keeps a c m b Hfirst) as [a' Ha'].
  unfold strip, rstrip. rewrite Ha'.
  rewrite !rev_app_distr, <- app_assoc.
  destruct (rev (c :: m)) as [| z w] eqn:Hrev.
  { apply (f_equal (@List.length N)) in Hrev. rewrite length_rev in Hrev.
    discriminate. }
  apply negb_true_iff in Hlast.
  destruct (lstrip_keeps (rev b) z w (rev a') Hlast) as [b' Hb'].
  rewrite Hb'. rewrite !rev_app_distr, <- Hrev, !rev_involutive, <- app_assoc.
  apply contains_app. exists a', (rev b'). reflexivity.
Qed.

Lemma markers_trimmed :
  trimmed (u "Server2 listening on") = true
  /\ trimmed (u "Server1 listening on") = true.
Proof. split; reflexivity. Qed.

(** *** The loop, turn after turn *)

Section WaitRuns.

Variable E : env.
Variables server_name expected_output : str.
Variable h : nat.
Variables start_time timeout : Z.

Local Abbreviation loop fuel :=
  (wait_loop E quiet fuel server_name expected_output h start_time timeout).

Lemma waited_nonneg n j : 0 <= waited E n j.
Proof. pose proof (waited_lower E n j). lia. Qed.

(** The child stays alive and its [k]-th line shows the marker. *)
Lemma loop_reaches_ready k :
  forall fuel s,
    (k < fuel)%nat ->
    returncode (object_at h s) = None ->
    (forall j, (j <= k)%nat -> env_poll E h (n_poll s + j) = None) ->
    (forall j, (j < k)%nat -> env_readline E h (n_read s + j) <> ReadBlocks) ->
    sees_marker expected_output (env_readline E h (n_read s + k)) = true ->
    now s - start_time + waited E (n_time s) k < 1000 * timeout ->
    exists s', loop fuel s = (Ret true, s')
               /\ (exists d, out s' = EPrint (MReady server_name) :: d ++ out s)
               /\ (n_poll s' <= n_poll s + S k)%nat
               /\ objects s' = objects s /\ processes s' = processes s.
Proof.
  induction k as [| k IH]; intros fuel s Hf Hrc Hp Hb Hm Ht;
    (destruct fuel as [| fuel]; [lia |]).
  - rewrite Nat.add_0_r in Hm. cbn [waited] in Ht.
    destruct (loop_ready E server_name expected_output h start_time timeout
                fuel s) as [s' [Hl [Hd [Hn Hs]]]]; auto.
    + unfold reading. lia.
    + rewrite <- (Nat.add_0_r (n_poll s)). apply Hp. lia.
    + exists s'. repeat split; try tauto. lia.
  - cbn [waited] in Ht. pose proof (waited_nonneg (S (n_time s)) k) as Hw.
    assert (Htest : reading E s - start_time < 1000 * timeout)
      by (unfold reading; lia).
    assert (Hp0 : env_poll E h (n_poll s) = None)
      by (rewrite <- (Nat.add_0_r (n_poll s)); apply Hp; lia).
    destruct (sees_marker expected_output (env_readline E h (n_read s))) eqn:Hm0.
    + destruct (loop_ready E server_name expected_output h start_time timeout
                  fuel s) as [s' [Hl [Hd [Hn Hs]]]]; auto.
      exists s'. repeat split; try tauto. lia.
    + destruct (loop_again E server_name expected_output h start_time timeout
                  fuel s) as [s1 [Hl [Hnow [Hnt [Hnp [Hnr [Ho [Hpr [d1 Hd1]]]]]]]]];
        auto.
      { rewrite <- (Nat.add_0_r (n_read s)). apply Hb. lia. }
      destruct (IH fuel s1) as [s' [Hl' [[d2 Hd2] [Hn' [Ho' Hpr']]]]].
      * lia.
      * unfold object_at in *. rewrite Ho. exact Hrc.
      * intros j Hj. rewrite Hnp. replace (S (n_poll s) + j)%nat
          with (n_poll s + S j)%nat by lia. apply Hp. lia.
      * intros j Hj. rewrite Hnr. replace (S (n_read s) + j)%nat
          with (n_read s + S j)%nat by lia. apply Hb. lia.
      * rewrite Hnr. replace (S (n_read s) + k)%nat
          with (n_read s + S k)%nat by lia. exact Hm.
      * rewrite Hnow, Hnt. unfold reading. lia.
      * exists s'. rewrite Hl. split; [exact Hl' |].
        split; [exists (d2 ++ d1); rewrite Hd2, Hd1, app_assoc; reflexivity |].
        split; [lia |]. split; congruence.
Qed.

End WaitRuns.

(** The state in which the loop starts, and the start time it uses. *)
Definition wait_entry (E : env) (server_name : str) (s : state) : state :=
  count_time
    (set_now (now s + Z.of_N (env_lag E (n_time s)))
       (count_tick (emit (EPrint (MWaitingFor server_name)) (count_tick s)))).

Lemma wait_for_server_ready_unfold E server_name expected_output process
    timeout s :
  wait_for_server_ready E quiet server_name expected_output process timeout s
  = wait_loop E quiet (S (Z.to_nat (10 * timeout))) server_name
      expected_output process (now s + Z.of_N (env_lag E (n_time s)))
      timeout (wait_entry E server_name s).
Proof. reflexivity. Qed.


(** ** start_server2, start_server1 *)

(** The two dependency roles and what the script fixes for each. *)
Inductive role : Type := Server2 | Server1.

Definition role_name (r : role) : str :=
  match r with Server2 => u "Server2" | Server1 => u "Server1" end.

Definition role_command (r : role) : list str :=
  match r with
  | Server2 => [u "just"; u "server2"]
  | Server1 => [u "just"; u "server1"]
  end.

Definition role_marker (r : role) : str :=
  match r with
  | Server2 => u "Server2 listening on"
  | Server1 => u "Server1 listening on"
  end.

Definition role_timeout (r : role) : Z :=
  match r with Server2 => 30 | Server1 => 60 end.

Definition start (r : role) (E : env) (tick : M unit) : M bool :=
  match r with
  | Server2 => start_server2 E tick
  | Server1 => start_server1 E tick
  end.

Lemma store_returncode_at x rc o d :
  (x < List.length o)%nat ->
  returncode (nth x (store_returncode x rc o) d) = Some rc.
Proof.
  revert x. induction o as [| p o IH]; intros x Hx; simpl in Hx.
  - lia.
  - destruct x as [| x]; simpl; [reflexivity |]. apply IH. lia.
Qed.

Section WaitExits.

Variable E : env.
Variables server_name expected_output : str.
Variable h : nat.
Variables start_time timeout : Z.

Local Abbreviation loop fuel :=
  (wait_loop E quiet fuel server_name expected_output h start_time timeout).

(** The child is seen to have exited at the [k]-th poll, before any line
    showed the marker. *)
Lemma loop_reaches_exit k rc :
  forall fuel s,
    (k < fuel)%nat ->
    returncode (object_at h s) = None ->
    (forall j, (j < k)%nat ->
       env_poll E h (n_poll s + j) = None
       /\ env_readline E h (n_read s + j) <> ReadBlocks
       /\ sees_marker expected_output (env_readline E h (n_read s + j)) = false) ->
    env_poll E h (n_poll s + k) = Some rc ->
    now s - start_time + waited E (n_time s) k < 1000 * timeout ->
    exists s', loop fuel s = (Ret false, s')
               /\ (exists d, out s'
                     = EPrint (MTerminatedUnexpectedly server_name) :: d ++ out s)
               /\ objects s' = store_returncode h rc (objects s)
               /\ processes s' = processes s.
Proof.
  induction k as [| k IH]; intros fuel s Hf Hrc Hj Hp Ht;
    (destruct fuel as [| fuel]; [lia |]).
  - rewrite Nat.add_0_r in Hp. cbn [waited] in Ht.
    destruct (loop_exit_seen E server_name expected_output h start_time
                timeout fuel s rc) as [s' [Hl [Hd [Ho Hpr]]]]; auto.
    + unfold reading. lia.
    + exists s'. repeat split; try tauto. exists []. tauto.
  - cbn [waited] in Ht. pose proof (waited_nonneg E (S (n_time s)) k) as Hw.
    destruct (Hj 0%nat ltac:(lia)) as [Hp0 [Hb0 Hm0]].
    rewrite Nat.add_0_r in Hp0, Hb0, Hm0.
    destruct (loop_again E server_name expected_output h start_time timeout
                fuel s) as [s1 [Hl [Hnow [Hnt [Hnp [Hnr [Ho [Hpr [d1 Hd1]]]]]]]]];
      auto.
    { unfold reading. lia. }
    destruct (IH fuel s1) as [s' [Hl' [[d2 Hd2] [Ho' Hpr']]]].
    + lia.
    + unfold object_at in *. rewrite Ho. exact Hrc.
    + intros j Hlt. rewrite Hnp, Hnr.
      replace (S (n_poll s) + j)%nat with (n_poll s + S j)%nat by lia.
      replace (S (n_read s) + j)%nat with (n_read s + S j)%nat by lia.
      apply Hj. lia.
    + rewrite Hnp. replace (S (n_poll s) + k)%nat
        with (n_poll s + S k)%nat by lia. exact Hp.
    + rewrite Hnow, Hnt. unfold reading. lia.
    + exists s'. rewrite Hl. split; [exact Hl' |].
      split; [exists (d2 ++ d1); rewrite Hd2, Hd1, app_assoc; reflexivity |].
      split; congruence.
Qed.

End WaitExits.

(** The state in which a freshly launched child is waited for: the
    object is new, still running as far as the script knows, and
    tracked. *)
Definition launched (r : role) (p : Z) (s : state) : state :=
  let h := List.length (objects s) in
  let s1 := count_popen
              (emit (EPopen (role_command r) true)
                 (set_objects
                    (objects s ++ [{| pid := p; returncode := None |}])
                    (count_tick (emit (EPrint (MStarting (role_name r)))
                                   (count_tick s))))) in
  set_processes (processes s ++ [h])
    (match r with
     | Server2 => set_server2_process (Some h) s1
     | Server1 => set_server1_process (Some h) s1
     end).

Definition start_clauses (r : role) : list (list exn_class * (exn -> M bool)) :=
  [([C_OSError; C_SubprocessError], fun e =>
      print quiet (MFailedToStart (role_name r) e) ;; ret false)].

Lemma start_unfold (E : env) (r : role) (p : Z) (s : state) :
  env_popen E (n_popen s) (role_command r) = Spawned p ->
  start r E quiet s
  = try_except
      (wait_for_server_ready E quiet (role_name r) (role_marker r)
         (List.length (objects s)) (role_timeout r))
      (start_clauses r) (launched r p s).
Proof.
  intros Hp.
  destruct r; unfold start, start_server2, start_server1, try_except, bind,
    print, Popen, modify, quiet, launched, start_clauses;
    cbn -[wait_for_server_ready] in *; rewrite Hp; reflexivity.
Qed.


(** *** The wait always ends, unless a read blocks *)

Section WaitEnds.

Variable E : env.
Variables server_name expected_output : str.
Variable h : nat.
Variables start_time timeout : Z.

Local Abbreviation loop fuel :=
  (wait_loop E quiet fuel server_name expected_output h start_time timeout).

(** How a wait can end: with an answer, having reported readiness when
    the answer is [True]; or never, in a read that does not come back. *)
Definition wait_ends (s : state) (r : result bool * state) : Prop :=
  (exists b, fst r = Ret b
             /\ (b = true ->
                 exists d, out (snd r)
                           = EPrint (MReady server_name) :: d ++ out s))
  \/ (fst r = Blocked /\ exists x n, env_readline E x n = ReadBlocks).

Lemma ends_with_false s (r : result bool * state) :
  fst r = Ret false -> wait_ends s r.
Proof. intros H. left. exists false. split; [exact H | discriminate]. Qed.

(** With [fuel] turns left beyond the present one and no more than
    [100 * fuel] milliseconds to the deadline, the loop does not run out
    of fuel. *)
Lemma loop_ends fuel :
  forall s,
    1000 * timeout - (now s - start_time) <= 100 * Z.of_nat fuel ->
    wait_ends s (loop (S fuel) s).
Proof.
  induction fuel as [| fuel IH]; intros s Hrem.
  all: pose proof (N2Z.is_nonneg (env_lag E (n_time s))) as Hlag.
  all: destruct (Z.lt_ge_cases (reading E s - start_time) (1000 * timeout))
         as [Htest | Htest].
  2, 4: apply ends_with_false;
    match goal with
    | |- fst (wait_loop _ _ (S ?f) _ _ _ _ _ _) = _ =>
      destruct (loop_timed_out E server_name expected_output h start_time
                  timeout f s Htest) as [s' [Hl _]]
    end; rewrite Hl; reflexivity.
  - unfold reading in Htest. lia.
  - destruct (returncode (object_at h s)) as [rc |] eqn:Hrc.
    { destruct (loop_exit_known E server_name expected_output h start_time
                  timeout (S fuel) s rc Htest Hrc) as [s' [Hl _]].
      apply ends_with_false. rewrite Hl. reflexivity. }
    destruct (env_poll E h (n_poll s)) as [rc |] eqn:Hp.
    { destruct (loop_exit_seen E server_name expected_output h start_time
                  timeout (S fuel) s rc Htest Hrc Hp) as [s' [Hl _]].
      apply ends_with_false. rewrite Hl. reflexivity. }
    destruct (env_readline E h (n_read s) ) as [line | | ] eqn:Hr.
    3: { right. split.
         - apply loop_blocked; assumption.
         - exists h, (n_read s). exact Hr. }
    all: destruct (sees_marker expected_output (env_readline E h (n_read s)))
           eqn:Hm.
    1, 3: destruct (loop_ready E server_name expected_output h start_time
                      timeout (S fuel) s Htest Hrc Hp Hm)
            as [s' [Hl [[d Hd] _]]];
          left; exists true; rewrite Hl; split; [reflexivity |];
          intros _; exists d; exact Hd.
    all: destruct (loop_again E server_name expected_output h start_time
                     timeout (S fuel) s Htest Hrc Hp)
           as [s1 [Hl [Hnow [_ [_ [_ [_ [_ [d1 Hd1]]]]]]]]];
           [rewrite Hr; discriminate | exact Hm |].
    all: rewrite Hl.
    all: destruct (IH s1) as [[b [Hb Hd]] | [Hb Hx]];
           [rewrite Hnow; unfold reading; lia | | right; split; assumption].
    all: left; exists b; split; [exact Hb |].
    all: intros Hbt; destruct (Hd Hbt) as [d2 Hd2];
           exists (d2 ++ d1); rewrite Hd2, Hd1, app_assoc; reflexivity.
Qed.

End WaitEnds.

(** How a start function can end: with an answer, having reported the
    server ready when the answer is [True]; or never. *)
Definition start_ends (E : env) (r : role) (s : state)
    (res : result bool * state) : Prop :=
  (exists b, fst res = Ret b
             /\ (b = true ->
                 In (EPrint (MReady (role_name r))) (since s (snd res))))
  \/ (fst res = Blocked /\ exists x n, env_readline E x n = ReadBlocks).

Lemma start_unlaunched (E : env) (r : role) (f : os_failure) (s : state) :
  env_popen E (n_popen s) (role_command r) = PopenFails f ->
  fst (start r E quiet s) = Ret false.
Proof.
  intros Hp.
  destruct r; unfold start, start_server2, start_server1, try_except, bind,
    print, Popen, modify, quiet;
    cbn -[wait_for_server_ready] in *; rewrite Hp; destruct f; reflexivity.
Qed.

Lemma start_always_ends (E : env) (r : role) (s : state) :
  start_ends E r s (start r E quiet s).
Proof.
  destruct (env_popen E (n_popen s) (role_command r)) as [p | f] eqn:Hp.
  2: { left. exists false. split; [ | discriminate ].
       apply (start_unlaunched E r f s Hp). }
  rewrite (start_unfold E r p s Hp). unfold try_except.
  rewrite wait_for_server_ready_unfold.
  destruct (loop_ends E (role_name r) (role_marker r)
              (List.length (objects s))
              (now (launched r p s)
               + Z.of_N (env_lag E (n_time (launched r p s))))
              (role_timeout r) (Z.to_nat (10 * role_timeout r))
              (wait_entry E (role_name r) (launched r p s)))
    as [[b [Hb Hd]] | [Hb Hx]].
  - destruct r; cbn -[Z.mul Z.add Z.sub Z.of_N Z.to_nat]; lia.
  - left. exists b.
    destruct (wait_loop _ _ _ _ _ _ _ _ _) as [res s'].
    cbn [fst snd] in *. subst res. cbv beta iota. cbn [fst snd].
    split; [reflexivity |].
    intros Hbt. destruct (Hd Hbt) as [d Hd'].
    rewrite (since_app s s'
               (EPrint (MReady (role_name r))
                  :: d ++ [EPrint (MWaitingFor (role_name r));
                           EPopen (role_command r) true;
                           EPrint (MStarting (role_name r))])).
    + left. reflexivity.
    + rewrite Hd'. destruct r; cbn; rewrite <- app_assoc; reflexivity.
  - right.
    destruct (wait_loop _ _ _ _ _ _ _ _ _) as [res s'].
    cbn [fst snd] in *. subst res. split; [reflexivity | exact Hx].
Qed.

(** ** run *)

Lemma bind_ext {A B} (m : M A) (f g : A -> M B) s :
  (forall a s', f a s' = g a s') -> bind m f s = bind m g s.
Proof.
  intros H. unfold bind. destruct (m s) as [[a | e | | sg | ] s']; auto.
Qed.

(** The part of [run] before the [try] statement; its value tells
    whether [run] gives up because the ports could not be freed. *)
Definition preflight (E : env) : M bool :=
  print quiet MBanner ;;
  print quiet MDoubleRule ;;
  signal_signal quiet SIGINT ;;
  signal_signal quiet SIGTERM ;;
  print quiet MCleaningExisting ;;
  cleanup_ports E quiet ;;
  free <- check_ports_free E quiet ;;
  if negb free then
    print quiet MStillInUse ;;
    subprocess_run E quiet [u "pkill"; u "-9"; u "-f"; u "rpc_server"] false ;;
    subprocess_run E quiet
      [u "pkill"; u "-9"; u "-f"; u "cargo.*rpc_server"] false ;;
    time_sleep quiet 1000 ;;
    cleanup_ports E quiet ;;
    free_now <- check_ports_free E quiet ;;
    if negb free_now then print quiet MUnableToFree ;; ret true else ret false
  else ret false.

(** The three steps inside the [try] block. *)
Definition steps (E : env) : M bool :=
  ok2 <- start_server2 E quiet ;;
  if negb ok2 then print quiet (MFailedExiting (u "Server2")) ;; ret false
  else
    ok1 <- start_server1 E quiet ;;
    if negb ok1 then print quiet (MFailedExiting (u "Server1")) ;; ret false
    else run_client E quiet.

Definition run_clauses : list (list exn_class * (exn -> M bool)) :=
  [([C_KeyboardInterrupt], fun _ => print quiet MInterrupted ;; ret false);
   ([C_OSError; C_SubprocessError; C_RuntimeError], fun e =>
      print quiet (MUnexpected e) ;; ret false)].

Lemma run_unfold (E : env) (s : state) :
  run E quiet s
  = (give_in <- preflight E ;;
     if give_in then ret false
     else try_finally (try_except (steps E) run_clauses) (cleanup E quiet)) s.
Proof.
  unfold run, preflight.
  repeat (rewrite bind_assoc; apply bind_ext; intros ? ?).
  reflexivity.
Qed.

(** *** Events of consecutive parts of a run *)

Definition extends (s s' : state) : Prop := exists d, out s' = d ++ out s.

Lemma prints_only_extends allowed s s' : prints_only allowed s s' -> extends s s'.
Proof. intros [d [Hd _]]. exists d. exact Hd. Qed.

Lemma extends_refl s : extends s s.
Proof. exists []. reflexivity. Qed.

Lemma extends_trans a b c : extends a b -> extends b c -> extends a c.
Proof.
  intros [d1 H1] [d2 H2]. exists (d2 ++ d1). rewrite H2, H1, app_assoc.
  reflexivity.
Qed.

Lemma since_split a b c :
  extends a b -> extends b c -> since a c = since b c ++ since a b.
Proof.
  intros [d1 H1] [d2 H2].
  rewrite (since_app a b d1 H1), (since_app b c d2 H2).
  apply since_app. rewrite H2, H1, app_assoc. reflexivity.
Qed.

Lemma since_self s : since s s = [].
Proof. apply since_app. reflexivity. Qed.

Lemma not_printed allowed m s s' :
  prints_only allowed s s' -> allowed m = false ->
  ~ In (EPrint m) (since s s').
Proof.
  intros [d [Hd Hf]] Hm Hin. rewrite (since_app s s' d Hd) in Hin.
  rewrite forallb_forall in Hf. specialize (Hf _ Hin). simpl in Hf.
  congruence.
Qed.

(** Messages other than the opening and closing lines of [cleanup], the
    client's success and the start of a server. *)
Definition ordinary (m : msg) : bool :=
  match m with
  | MCleaningUp | MCleanupCompleted | MClientCompleted | MStarting _ => false
  | _ => true
  end.

(** Messages other than the opening line of [cleanup] and the client's
    success. *)
Definition unmarked (m : msg) : bool :=
  match m with
  | MCleaningUp | MClientCompleted => false
  | _ => true
  end.

(** Messages other than the opening and closing lines of [cleanup]. *)
Definition not_opening (m : msg) : bool :=
  match m with
  | MCleaningUp | MCleanupCompleted => false
  | _ => true
  end.

Lemma ordinary_most m :
  m <> MCleaningUp -> m <> MCleanupCompleted -> m <> MClientCompleted ->
  (forall n, m <> MStarting n) -> ordinary m = true.
Proof. intros H1 H2 H3 H4. destruct m; try reflexivity; congruence. Qed.

Lemma unmarked_most m :
  m <> MCleaningUp -> m <> MCleanupCompleted -> m <> MClientCompleted ->
  (forall n, m <> MStarting n) -> unmarked m = true.
Proof. intros H1 H2 H3 H4. destruct m; try reflexivity; congruence. Qed.

Lemma not_opening_most m :
  m <> MCleaningUp -> m <> MCleanupCompleted -> m <> MClientCompleted ->
  (forall n, m <> MStarting n) -> not_opening m = true.
Proof. intros H1 H2 H3 H4. destruct m; try reflexivity; congruence. Qed.

Lemma preflight_prints (E : env) :
  preserves (prints_only ordinary) (preflight E).
Proof.
  unfold preflight.
  repeat first
    [ apply cleanup_ports_prints; exact ordinary_most
    | apply check_ports_free_prints; exact ordinary_most
    | apply subprocess_run_prints
    | apply time_sleep_prints
    | apply signal_signal_prints
    | apply print_prints; reflexivity
    | apply (preserves_ret _ (prints_only_refl ordinary))
    | apply (preserves_bind _ (prints_only_trans ordinary)); [ | intros ]
    | match goal with
      | |- preserves _ (if ?b then _ else _) => destruct b
      end ].
Qed.

Lemma signal_signal_returns ok sg : raises_only ok (signal_signal quiet sg).
Proof. intros s; exact I. Qed.

Lemma preflight_raises (E : env) : raises_only os_error (preflight E).
Proof.
  unfold preflight.
  repeat first
    [ apply cleanup_ports_returns
    | apply check_ports_free_returns
    | apply signal_signal_returns
    | returns_step ].
Qed.

Lemma steps_prints (E : env) :
  preserves (prints_only not_opening) (steps E).
Proof.
  unfold steps.
  repeat first
    [ apply start_server2_prints; [exact not_opening_most | reflexivity]
    | apply start_server1_prints; [exact not_opening_most | reflexivity]
    | apply run_client_prints; [exact not_opening_most | reflexivity]
    | apply print_prints; reflexivity
    | apply (preserves_ret _ (prints_only_refl not_opening))
    | apply (preserves_bind _ (prints_only_trans not_opening)); [ | intros ]
    | match goal with
      | |- preserves _ (if ?b then _ else _) => destruct b
      end ].
Qed.

(** *** run_client *)

Definition client_argv : list str :=
  [u "just"; u "client"; u "https://localhost:3002"; u "https://localhost:3004"].

(** How [run_client] can end: with an answer, which is [True] exactly
    when it reported the client's success; or never, when the client
    never exits. *)
Definition client_ends (E : env) (s : state) (res : result bool * state)
  : Prop :=
  (exists b, fst res = Ret b
             /\ (b = true <-> In (EPrint MClientCompleted) (since s (snd res))))
  \/ (fst res = Blocked /\ env_client_exit E = None).

Lemma stream_runs (lines : list str) :
  forall s, exists s1,
    for_each lines (fun line => print quiet (MClientLine (rstrip line))) s
    = (Ret tt, s1)
    /\ prints_only unmarked s s1.
Proof.
  induction lines as [| line lines IH]; intros s.
  - exists s. split; [reflexivity | apply prints_only_refl].
  - destruct (IH (emit (EPrint (MClientLine (rstrip line))) (count_tick s)))
      as [s1 [Hr Hp]].
    exists s1. split.
    + cbn [for_each]. unfold bind at 1. unfold print at 1. unfold bind at 1.
      unfold quiet at 1. unfold modify at 1. cbv beta iota. exact Hr.
    + eapply prints_only_trans; [ | exact Hp ].
      apply prints_only_emit with (e := EPrint (MClientLine (rstrip line)));
        reflexivity.
Qed.

Lemma run_client_always_ends (E : env) (s : state) :
  client_ends E s (run_client E quiet s).
Proof.
  unfold client_ends.
  destruct (run_client E quiet s) as [r s'] eqn:Hrun. cbn [fst snd].
  unfold run_client in Hrun. fold client_argv in Hrun.
  unfold bind at 1 in Hrun. unfold print at 1 in Hrun.
  unfold bind at 1 in Hrun. unfold quiet at 1 in Hrun.
  unfold modify at 1 in Hrun. cbv beta iota in Hrun.
  unfold try_except in Hrun. unfold bind at 1 in Hrun.
  unfold Popen at 1 in Hrun.
  unfold bind at 1 in Hrun. unfold quiet at 1 in Hrun. cbv beta iota in Hrun.
  cbn [n_popen count_tick emit] in Hrun.
  destruct (env_popen E (n_popen s) client_argv) as [p | f].
  - cbv beta iota in Hrun.
    unfold bind at 1 in Hrun. unfold print at 1 in Hrun.
    unfold bind at 1 in Hrun. unfold quiet at 1 in Hrun.
    unfold modify at 1 in Hrun. cbv beta iota in Hrun.
    unfold bind at 1 in Hrun. unfold print at 1 in Hrun.
    unfold bind at 1 in Hrun. unfold quiet at 1 in Hrun.
    unfold modify at 1 in Hrun. cbv beta iota in Hrun.
    match type of Hrun with
    | context [bind (for_each _ _) _ ?s0] =>
      destruct (stream_runs (env_client_lines E) s0) as [s1 [Hr [d [Hd Hf]]]];
      unfold bind at 1 in Hrun; rewrite Hr in Hrun; cbv beta iota in Hrun
    end.
    unfold bind at 1 in Hrun. unfold wait_forever at 1 in Hrun.
    unfold bind at 1 in Hrun. unfold quiet at 1 in Hrun.
    cbv beta iota in Hrun.
    destruct (env_client_exit E) as [rc |];
      [ | right; injection Hrun as <- <-; split; reflexivity ].
    cbv beta iota in Hrun. left.
    cbn in Hd.
    destruct (rc =? 0); cbn in Hrun; injection Hrun as <- <-.
    + exists true. split; [reflexivity |]. split; [intros _ | reflexivity].
      match goal with
      | |- In _ (since s ?s') =>
        rewrite (since_app s s'
          (EPrint MClientCompleted :: EPrint MRule
             :: d ++ [EPrint MRule; EPrint MClientOutput;
                      EPopen client_argv true; EPrint MRunningClient]))
      end.
      * left. reflexivity.
      * cbn. rewrite Hd. cbn. rewrite <- app_assoc. reflexivity.
    + exists false. split; [reflexivity |]. split; [discriminate | intros Hin].
      exfalso. revert Hin.
      match goal with
      | |- In _ (since s ?s') -> _ =>
        rewrite (since_app s s'
          (EPrint (MClientFailed rc)
             :: d ++ [EPrint MRule; EPrint MClientOutput;
                      EPopen client_argv true; EPrint MRunningClient]))
      end.
      * intros [Hin | Hin]; [discriminate |].
        apply in_app_or in Hin. destruct Hin as [Hin | Hin].
        -- rewrite forallb_forall in Hf. specialize (Hf _ Hin). discriminate.
        -- simpl in Hin. intuition discriminate.
      * cbn. rewrite Hd. cbn. rewrite <- app_assoc. reflexivity.
  - left. exists false.
    destruct f; cbn in Hrun; injection Hrun as <- <-;
      (split; [reflexivity |]);
      (split; [discriminate | intros Hin; exfalso; revert Hin]);
      match goal with
      | |- In _ (since s ?s') -> _ =>
        rewrite (since_app s s'
          [EPrint (MFailedToRunClient _); EPopen client_argv false;
           EPrint MRunningClient]) by reflexivity
      end; simpl; intuition discriminate.
Qed.

Lemma in_since_split a b c x :
  extends a b -> extends b c ->
  (In x (since a c) <-> In x (since b c) \/ In x (since a b)).
Proof.
  intros Hab Hbc. rewrite (since_split a b c Hab Hbc). apply in_app_iff.
Qed.

Lemma start_prints (E : env) (r : role) :
  preserves (prints_only unmarked) (start r E quiet).
Proof.
  destruct r; cbn [start].
  - apply start_server2_prints; [exact unmarked_most | reflexivity].
  - apply start_server1_prints; [exact unmarked_most | reflexivity].
Qed.

Lemma wait_for_server_ready_always_ends (E : env) name marker h timeout s :
  0 <= timeout ->
  wait_ends E name (wait_entry E name s)
    (wait_for_server_ready E quiet name marker h timeout s).
Proof.
  intros Ht. rewrite wait_for_server_ready_unfold.
  apply loop_ends.
  change (now (wait_entry E name s))
    with (now s + Z.of_N (env_lag E (n_time s))).
  lia.
Qed.

Lemma start_unlaunched_run (E : env) (r : role) (f : os_failure) (s : state) :
  env_popen E (n_popen s) (role_command r) = PopenFails f ->
  start r E quiet s
  = (Ret false,
     emit (EPrint (MFailedToStart (role_name r) (exn_of_failure f)))
       (count_tick
          (count_popen
             (emit (EPopen (role_command r) false)
                (count_tick
                   (emit (EPrint (MStarting (role_name r)))
                      (count_tick s))))))).
Proof.
  intros Hp.
  destruct r; cbn [role_command role_name] in *;
    cbv beta iota zeta delta [start start_server2 start_server1 try_except
      bind print Popen modify quiet];
    match goal with
    | |- context [env_popen E ?n _] => change n with (n_popen s)
    end;
    rewrite Hp; destruct f; reflexivity.
Qed.

Lemma out_launched (r : role) (p : Z) (s : state) :
  out (launched r p s)
  = [EPopen (role_command r) true; EPrint (MStarting (role_name r))] ++ out s.
Proof. destruct r; lazy; reflexivity. Qed.

(** A start function first announces which server it starts. *)
Lemma start_announces (E : env) (r : role) (s : state) :
  In (EPrint (MStarting (role_name r))) (since s (snd (start r E quiet s))).
Proof.
  destruct (env_popen E (n_popen s) (role_command r)) as [p | f] eqn:Hp.
  - rewrite (start_unfold E r p s Hp). unfold try_except.
    assert (Hpos : 0 <= role_timeout r) by (destruct r; cbn; lia).
    pose proof (wait_for_server_ready_always_ends E (role_name r)
                  (role_marker r) (List.length (objects s)) (role_timeout r)
                  (launched r p s) Hpos) as He.
    pose proof (wait_for_server_ready_prints E unmarked unmarked_most
                  (role_name r) (role_marker r) (List.length (objects s))
                  (role_timeout r) (launched r p s)) as Hpr.
    destruct (wait_for_server_ready E quiet (role_name r) (role_marker r)
                (List.length (objects s)) (role_timeout r) (launched r p s))
      as [rw sw].
    destruct Hpr as [d [Hd _]]. cbn [snd] in Hd.
    cbv beta iota.
    match goal with |- In _ (since s ?x) => replace x with sw end.
    + rewrite (since_app s sw
                 (d ++ [EPopen (role_command r) true;
                        EPrint (MStarting (role_name r))])).
      * apply in_or_app. right. right. left. reflexivity.
      * rewrite Hd, out_launched, app_assoc. reflexivity.
    + destruct He as [[b [Hb _]] | [Hb _]]; cbn [fst] in Hb; subst rw;
        reflexivity.
  - rewrite (start_unlaunched_run E r f s Hp). cbn [snd].
    match goal with
    | |- In _ (since s ?s') =>
      assert (Ho : out s'
                   = [EPrint (MFailedToStart (role_name r) (exn_of_failure f));
                      EPopen (role_command r) false;
                      EPrint (MStarting (role_name r))] ++ out s)
        by (lazy; reflexivity);
      rewrite (since_app s s' _ Ho)
    end.
    right; right; left; reflexivity.
Qed.

(** *** The three steps *)

(** The environment can make the run wait for ever: some read of a
    server's output never comes back, or the client never exits. *)
Definition stuck (E : env) : Prop :=
  (exists x n, env_readline E x n = ReadBlocks) \/ env_client_exit E = None.

(** How the steps can end: with an answer, which is [True] exactly when
    the client's success was reported, both servers having been reported
    ready before; or never. *)
Definition steps_end (E : env) (s : state) (r : result bool) (s' : state)
  : Prop :=
  (exists b, r = Ret b
             /\ (b = true <-> In (EPrint MClientCompleted) (since s s'))
             /\ (b = true ->
                 In (EPrint (MReady (u "Server2"))) (since s s')
                 /\ In (EPrint (MReady (u "Server1"))) (since s s')))
  \/ (r = Blocked /\ stuck E).

Lemma extends_emit e s : extends s (emit e (count_tick s)).
Proof. exists [e]. reflexivity. Qed.

Lemma since_emit e s : since s (emit e (count_tick s)) = [e].
Proof. apply since_app. reflexivity. Qed.

Lemma steps_run_core (E : env) (s : state) :
  exists r s', steps E s = (r, s') /\ steps_end E s r s'
               /\ In (EPrint (MStarting (u "Server2"))) (since s s').
Proof.
  pose proof (start_always_ends E Server2 s) as H2.
  pose proof (start_prints E Server2 s) as P2.
  pose proof (start_announces E Server2 s) as A2.
  change (start Server2 E quiet) with (start_server2 E quiet) in H2, P2, A2.
  cbn [role_name] in A2.
  unfold steps. unfold bind at 1.
  destruct (start_server2 E quiet s) as [r2 sa].
  unfold start_ends in H2. cbn [fst snd] in H2, P2, A2.
  destruct H2 as [[b2 [Hb2 Hm2]] | [Hb2 Hx]]; subst r2.
  2: { exists Blocked, sa. split; [reflexivity |].
       split; [ | exact A2 ]. right.
       split; [reflexivity | left; exact Hx]. }
  pose proof (prints_only_extends _ _ _ P2) as X2.
  pose proof (not_printed unmarked MClientCompleted s sa P2 eq_refl) as N2.
  destruct b2; cbn [negb]; cbv iota.
  2: { exists (Ret false), (emit (EPrint (MFailedExiting (u "Server2")))
                              (count_tick sa)).
       split; [reflexivity |].
       split.
       - left. exists false. split; [reflexivity |].
         split; [ | discriminate ]. split; [discriminate |].
         intros Hin.
         apply (in_since_split s sa _ _ X2 (extends_emit _ sa)) in Hin.
         rewrite since_emit in Hin. destruct Hin as [[Hin | []] | Hin];
           [discriminate | contradiction].
       - apply (in_since_split s sa _ _ X2 (extends_emit _ sa)).
         right. exact A2. }
  specialize (Hm2 eq_refl). cbn [role_name] in Hm2.
  pose proof (start_always_ends E Server1 sa) as H1.
  pose proof (start_prints E Server1 sa) as P1.
  change (start Server1 E quiet) with (start_server1 E quiet) in H1, P1.
  unfold bind at 1.
  destruct (start_server1 E quiet sa) as [r1 sb].
  unfold start_ends in H1. cbn [fst snd] in H1, P1.
  destruct H1 as [[b1 [Hb1 Hm1]] | [Hb1 Hx]]; subst r1.
  2: { exists Blocked, sb. split; [reflexivity |].
       pose proof (prints_only_extends _ _ _ P1) as X1.
       split.
       - right. split; [reflexivity | left; exact Hx].
       - apply (in_since_split s sa sb _ X2 X1). right. exact A2. }
  pose proof (prints_only_extends _ _ _ P1) as X1.
  pose proof (not_printed unmarked MClientCompleted sa sb P1 eq_refl) as N1.
  pose proof (extends_trans _ _ _ X2 X1) as X21.
  assert (A21 : In (EPrint (MStarting (u "Server2"))) (since s sb)).
  { apply (in_since_split s sa sb _ X2 X1). right. exact A2. }
  destruct b1; cbn [negb]; cbv iota.
  2: { exists (Ret false), (emit (EPrint (MFailedExiting (u "Server1")))
                              (count_tick sb)).
       split; [reflexivity |].
       split.
       - left. exists false. split; [reflexivity |].
         split; [ | discriminate ]. split; [discriminate |].
         intros Hin.
         apply (in_since_split s sb _ _ X21 (extends_emit _ sb)) in Hin.
         rewrite since_emit in Hin. destruct Hin as [[Hin | []] | Hin];
           [discriminate |].
         apply (in_since_split s sa sb _ X2 X1) in Hin. tauto.
       - apply (in_since_split s sb _ _ X21 (extends_emit _ sb)).
         right. exact A21. }
  specialize (Hm1 eq_refl). cbn [role_name] in Hm1.
  pose proof (run_client_always_ends E sb) as Hc.
  pose proof (run_client_prints E not_opening not_opening_most eq_refl sb) as Pc.
  destruct (run_client E quiet sb) as [rc sc].
  unfold client_ends in Hc. cbn [fst snd] in Hc, Pc.
  pose proof (prints_only_extends _ _ _ Pc) as Xc.
  exists rc, sc. split; [reflexivity |].
  assert (Hsplit : forall x, In x (since s sc)
                             <-> In x (since sb sc) \/ In x (since sa sb)
                                 \/ In x (since s sa)).
  { intros x. rewrite (in_since_split s sb sc x X21 Xc).
    rewrite (in_since_split s sa sb x X2 X1). tauto. }
  split; [ | rewrite Hsplit; tauto ].
  destruct Hc as [[b [Hb Hiff]] | [Hb Hx]]; cbn [fst snd] in *; subst rc.
  2: { right. split; [reflexivity | right; exact Hx]. }
  left. exists b. split; [reflexivity |].
  split.
  - rewrite Hsplit, Hiff. tauto.
  - intros _. rewrite !Hsplit. tauto.
Qed.

Lemma steps_run (E : env) (s : state) :
  exists r s', steps E s = (r, s') /\ steps_end E s r s'
               /\ In (EPrint (MStarting (u "Server2"))) (since s s')
               /\ prints_only not_opening s s'.
Proof.
  destruct (steps_run_core E s) as [r [s' [Heq [He Ha]]]].
  pose proof (steps_prints E s) as PS. rewrite Heq in PS.
  exists r, s'. auto.
Qed.

(** *** How often cleanup runs *)

(** The number of printed messages that satisfy [f]. *)
Definition printed (f : msg -> bool) (t : list event) : nat :=
  List.length (filter (is_print f) t).

Definition is_opening (m : msg) : bool :=
  match m with MCleaningUp => true | _ => false end.

Definition is_closing (m : msg) : bool :=
  match m with MCleanupCompleted => true | _ => false end.

Lemma cleanups_started_printed t : cleanups_started t = printed is_opening t.
Proof. reflexivity. Qed.

Lemma cleanups_completed_printed t : cleanups_completed t = printed is_closing t.
Proof. reflexivity. Qed.

Lemma printed_app f a b : printed f (a ++ b) = (printed f a + printed f b)%nat.
Proof. unfold printed. rewrite filter_app, length_app. reflexivity. Qed.

Lemma printed_none f allowed d :
  forallb (passes allowed) d = true ->
  (forall m, f m = true -> allowed m = false) ->
  printed f d = 0%nat.
Proof.
  intros Hd Hf. unfold printed. induction d as [| e d IH]; [reflexivity |].
  simpl in Hd. apply andb_prop in Hd. destruct Hd as [He Hd].
  destruct e as [m | | | | | | ]; simpl in *; auto.
  destruct (f m) eqn:Hm; auto.
  rewrite (Hf m Hm) in He. discriminate.
Qed.

Lemma cleanup_unfold (E : env) (s : state) :
  cleanup E quiet s
  = (cleanup_body E ;; print quiet MCleanupCompleted)
      (emit (EPrint MCleaningUp) (count_tick s)).
Proof.
  unfold cleanup, cleanup_body.
  unfold bind at 1. unfold print at 1. unfold bind at 1. unfold quiet at 1.
  unfold modify at 1. cbv beta iota.
  repeat (rewrite bind_assoc; apply bind_ext; intros ? ?).
  reflexivity.
Qed.

Lemma cleanup_body_returns (E : env) ok : raises_only ok (cleanup_body E).
Proof.
  unfold cleanup_body.
  repeat first
    [ apply cleanup_ports_returns
    | apply raises_only_for_each; intros; unfold stop_tracked
    | returns_step ].
  - apply wait_then_returns. intros _.
    repeat returns_step.
    apply wait_then_returns. intros; apply raises_only_ret.
  - apply raises_only_try with (ok := os_error);
      [ | intros; apply swallow_os; assumption ].
    repeat returns_step.
Qed.

(** [cleanup] runs to its end: it prints its opening line, then only
    ordinary output, then its closing line. *)
Lemma cleanup_run (E : env) (s : state) :
  exists s' d,
    cleanup E quiet s = (Ret tt, s')
    /\ out s' = EPrint MCleanupCompleted :: d ++ EPrint MCleaningUp :: out s
    /\ forallb (passes ordinary) d = true.
Proof.
  rewrite cleanup_unfold.
  set (s0 := emit (EPrint MCleaningUp) (count_tick s)).
  pose proof (cleanup_body_returns E never s0) as Hr.
  destruct (cleanup_body_prints E ordinary ordinary_most s0) as [d [Hd Hf]].
  unfold bind at 1.
  destruct (cleanup_body E s0) as [[[] | e | | g | ] s1];
    cbn [fst snd] in Hr, Hd; try contradiction; try discriminate.
  exists (emit (EPrint MCleanupCompleted) (count_tick s1)), d.
  split; [reflexivity |]. split; [ | exact Hf ].
  change (out (emit (EPrint MCleanupCompleted) (count_tick s1)))
    with (EPrint MCleanupCompleted :: out s1).
  rewrite Hd. reflexivity.
Qed.

Lemma cleanup_counts (E : env) (s : state) :
  extends s (snd (cleanup E quiet s))
  /\ printed is_opening (since s (snd (cleanup E quiet s))) = 1%nat
  /\ printed is_closing (since s (snd (cleanup E quiet s))) = 1%nat
  /\ ~ In (EPrint MClientCompleted) (since s (snd (cleanup E quiet s)))
  /\ (forall n, ~ In (EPrint (MStarting n)) (since s (snd (cleanup E quiet s)))).
Proof.
  destruct (cleanup_run E s) as [s' [d [Hc [Ho Hf]]]]. rewrite Hc. cbn [snd].
  assert (Hs : out s'
               = (EPrint MCleanupCompleted :: d ++ [EPrint MCleaningUp])
                 ++ out s).
  { rewrite Ho. cbn. rewrite <- app_assoc. reflexivity. }
  rewrite (since_app s s' _ Hs).
  split; [eexists; exact Hs |].
  assert (Hnot : forall m, ordinary m = false ->
                           m <> MCleanupCompleted -> m <> MCleaningUp ->
                           ~ In (EPrint m)
                               (EPrint MCleanupCompleted
                                  :: d ++ [EPrint MCleaningUp])).
  { intros m Hm H1 H2 [Hin | Hin]; [congruence |].
    apply in_app_or in Hin. destruct Hin as [Hin | [Hin | []]]; [ | congruence].
    rewrite forallb_forall in Hf. specialize (Hf _ Hin). simpl in Hf.
    congruence. }
  repeat split.
  - change (EPrint MCleanupCompleted :: d ++ [EPrint MCleaningUp])
      with ([EPrint MCleanupCompleted] ++ d ++ [EPrint MCleaningUp]).
    rewrite !printed_app.
    rewrite (printed_none is_opening ordinary d Hf); [reflexivity |].
    intros m Hm. destruct m; try discriminate; reflexivity.
  - change (EPrint MCleanupCompleted :: d ++ [EPrint MCleaningUp])
      with ([EPrint MCleanupCompleted] ++ d ++ [EPrint MCleaningUp]).
    rewrite !printed_app.
    rewrite (printed_none is_closing ordinary d Hf); [reflexivity |].
    intros m Hm. destruct m; try discriminate; reflexivity.
  - apply Hnot; [reflexivity | discriminate | discriminate].
  - intros n. apply Hnot; [reflexivity | discriminate | discriminate].
Qed.

(** *** run as a whole *)

(** How [run] can end when no signal arrives, and what it printed. *)
Definition run_end (E : env) (s : state) (r : result bool) (s' : state)
  : Prop :=
  extends s s'
  /\ ((exists b, r = Ret b
                 /\ (b = true <-> In (EPrint MClientCompleted) (since s s'))
                 /\ (b = true ->
                     In (EPrint (MReady (u "Server2"))) (since s s')
                     /\ In (EPrint (MReady (u "Server1"))) (since s s')))
      \/ (exists e, r = Raise e /\ os_error e = true
                    /\ ~ In (EPrint MClientCompleted) (since s s'))
      \/ (r = Blocked /\ stuck E))
  /\ (r <> Blocked ->
      (In (EPrint (MStarting (u "Server2"))) (since s s') ->
       printed is_opening (since s s') = 1%nat
       /\ printed is_closing (since s s') = 1%nat)
      /\ (~ In (EPrint (MStarting (u "Server2"))) (since s s') ->
          printed is_opening (since s s') = 0%nat
          /\ printed is_closing (since s s') = 0%nat)).

Lemma printed_ordinary_opening s s' :
  prints_only ordinary s s' -> printed is_opening (since s s') = 0%nat.
Proof.
  intros [d [Hd Hf]]. rewrite (since_app s s' d Hd).
  apply (printed_none is_opening ordinary d Hf).
  intros m Hm. destruct m; try discriminate; reflexivity.
Qed.

Lemma printed_ordinary_closing s s' :
  prints_only ordinary s s' -> printed is_closing (since s s') = 0%nat.
Proof.
  intros [d [Hd Hf]]. rewrite (since_app s s' d Hd).
  apply (printed_none is_closing ordinary d Hf).
  intros m Hm. destruct m; try discriminate; reflexivity.
Qed.

Lemma printed_steps_opening s s' :
  prints_only not_opening s s' -> printed is_opening (since s s') = 0%nat.
Proof.
  intros [d [Hd Hf]]. rewrite (since_app s s' d Hd).
  apply (printed_none is_opening not_opening d Hf).
  intros m Hm. destruct m; try discriminate; reflexivity.
Qed.

Lemma printed_steps_closing s s' :
  prints_only not_opening s s' -> printed is_closing (since s s') = 0%nat.
Proof.
  intros [d [Hd Hf]]. rewrite (since_app s s' d Hd).
  apply (printed_none is_closing not_opening d Hf).
  intros m Hm. destruct m; try discriminate; reflexivity.
Qed.

(** [run] stopped before the [try] statement, in state [s0]. *)
Lemma run_end_early (E : env) (s s0 : state) (r : result bool) :
  prints_only ordinary s s0 ->
  r = Ret false \/ (exists e, r = Raise e /\ os_error e = true) ->
  run_end E s r s0.
Proof.
  intros P Hr.
  pose proof (not_printed ordinary MClientCompleted s s0 P eq_refl) as NC.
  pose proof (not_printed ordinary (MStarting (u "Server2")) s s0 P eq_refl)
    as NS.
  split; [exact (prints_only_extends _ _ _ P) |]. split.
  - destruct Hr as [-> | [e [-> He]]].
    + left. exists false. split; [reflexivity |].
      split; [ | discriminate ]. split; [discriminate | contradiction].
    + right. left. exists e. auto.
  - intros _. split; [contradiction |]. intros _.
    split; [apply printed_ordinary_opening | apply printed_ordinary_closing];
      exact P.
Qed.

Lemma run_run (E : env) (s : state) :
  exists r s', run E quiet s = (r, s') /\ run_end E s r s'.
Proof.
  rewrite run_unfold. unfold bind at 1.
  pose proof (preflight_raises E s) as Hr.
  pose proof (preflight_prints E s) as P0.
  destruct (preflight E s) as [rp s0]. cbn [fst snd] in Hr, P0.
  destruct rp as [give_in | e | | g | ]; try contradiction.
  2: { exists (Raise e), s0. split; [reflexivity |].
       apply run_end_early; [exact P0 | right; exists e; auto]. }
  destruct give_in.
  { exists (Ret false), s0. split; [reflexivity |].
    apply run_end_early; [exact P0 | left; reflexivity]. }
  pose proof (prints_only_extends _ _ _ P0) as X0.
  pose proof (not_printed ordinary MClientCompleted s s0 P0 eq_refl) as NC0.
  unfold try_finally, try_except.
  destruct (steps_run E s0) as [r1 [s1 [Hs [He [Ha P1]]]]]. rewrite Hs.
  pose proof (prints_only_extends _ _ _ P1) as X1.
  pose proof (extends_trans _ _ _ X0 X1) as X01.
  assert (A01 : In (EPrint (MStarting (u "Server2"))) (since s s1)).
  { apply (in_since_split s s0 s1 _ X0 X1). left. exact Ha. }
  destruct He as [[b [-> [Hiff Hready]]] | [-> Hstuck]].
  2: { exists Blocked, s1. split; [reflexivity |].
       split; [exact X01 |]. split; [right; right; auto |].
       intros H. contradiction. }
  cbv iota. unfold bind at 1.
  destruct (cleanup_run E s1) as [s2 [d [Hc _]]].
  pose proof (cleanup_counts E s1) as [X2 [Co [Cc [NC2 NS2]]]].
  rewrite Hc in X2, Co, Cc, NC2, NS2 |- *. cbn [snd] in X2, Co, Cc, NC2, NS2.
  cbv iota beta.
  exists (Ret b), s2. split; [reflexivity |].
  pose proof (extends_trans _ _ _ X01 X2) as X02.
  assert (Hsplit : forall x, In x (since s s2)
                             <-> In x (since s1 s2) \/ In x (since s0 s1)
                                 \/ In x (since s s0)).
  { intros x. rewrite (in_since_split s s1 s2 x X01 X2).
    rewrite (in_since_split s s0 s1 x X0 X1). tauto. }
  split; [exact X02 |]. split.
  - left. exists b. split; [reflexivity |]. split.
    + rewrite Hsplit, Hiff. tauto.
    + intros Hb. destruct (Hready Hb). rewrite !Hsplit. tauto.
  - intros _. split.
    + intros _.
      rewrite (since_split s s1 s2 X01 X2), (since_split s s0 s1 X0 X1).
      rewrite !printed_app, Co, Cc.
      rewrite (printed_steps_opening _ _ P1), (printed_steps_closing _ _ P1).
      rewrite (printed_ordinary_opening _ _ P0),
        (printed_ordinary_closing _ _ P0).
      split; reflexivity.
    + intros Hn. exfalso. apply Hn. rewrite Hsplit. tauto.
Qed.

(** ** main *)

Definition version_argv : list str := [u "just"; u "--version"].

(** The check that [just] can be run. *)
Definition precheck (E : env) : M unit :=
  try_except
    (subprocess_run E quiet version_argv true ;; ret tt)
    [([C_CalledProcessError; C_FileNotFoundError], fun _ =>
        print quiet MNoJust ;; print quiet MInstallHint ;; sys_exit quiet 1)].

(** [just --version] ran and returned 0. *)
Definition just_works (E : env) (n : nat) : Prop :=
  exists text, env_run E n version_argv = Completed 0 text.

(** An uncaught exception that ends the interpreter with status 1:
    [SystemExit(1)], or an error of the operating system. *)
Definition fatal (e : exn) : Prop := e = SystemExit 1 \/ os_error e = true.

Lemma precheck_run (E : env) (s : state) :
  exists r s', precheck E s = (r, s')
               /\ prints_only ordinary s s'
               /\ ((r = Ret tt /\ just_works E (n_run s))
                   \/ (exists e, r = Raise e /\ fatal e
                                 /\ ~ just_works E (n_run s))).
Proof.
  unfold precheck, try_except.
  unfold bind at 1. unfold subprocess_run at 1. unfold bind at 1.
  unfold quiet at 1. cbv beta iota.
  change (n_run (count_tick s)) with (n_run s).
  unfold just_works.
  destruct (env_run E (n_run s) version_argv) as [rc text | f].
  - destruct (Z.eqb_spec rc 0) as [-> | Hrc]; cbn [andb negb]; cbv beta iota.
    + eexists _, _. split; [reflexivity |]. split.
      * exists [ERun version_argv true]. split; [lazy; reflexivity | reflexivity].
      * left. split; [reflexivity |]. exists text. reflexivity.
    + eexists _, _. split; [lazy; reflexivity |]. split.
      * exists [EPrint MInstallHint; EPrint MNoJust; ERun version_argv true].
        split; [lazy; reflexivity | reflexivity].
      * right. exists (SystemExit 1). split; [reflexivity |].
        split; [left; reflexivity |].
        intros [t Ht]. injection Ht as Ht _. contradiction.
  - destruct f.
    + eexists _, _. split; [lazy; reflexivity |]. split.
      * exists [EPrint MInstallHint; EPrint MNoJust; ERun version_argv false].
        split; [lazy; reflexivity | reflexivity].
      * right. exists (SystemExit 1). split; [reflexivity |].
        split; [left; reflexivity |]. intros [t Ht]. discriminate.
    + eexists _, _. split; [lazy; reflexivity |]. split.
      * exists [ERun version_argv false].
        split; [lazy; reflexivity | reflexivity].
      * right. exists PermissionError. split; [reflexivity |].
        split; [right; reflexivity |]. intros [t Ht]. discriminate.
    + eexists _, _. split; [lazy; reflexivity |]. split.
      * exists [ERun version_argv false].
        split; [lazy; reflexivity | reflexivity].
      * right. exists OSError. split; [reflexivity |].
        split; [right; reflexivity |]. intros [t Ht]. discriminate.
    + eexists _, _. split; [lazy; reflexivity |]. split.
      * exists [ERun version_argv false].
        split; [lazy; reflexivity | reflexivity].
      * right. exists SubprocessError. split; [reflexivity |].
        split; [right; reflexivity |]. intros [t Ht]. discriminate.
Qed.

(** Both servers were reported ready and the client's success was
    reported. *)
Definition full_success (t : list event) : Prop :=
  In (EPrint (MReady (u "Server2"))) t
  /\ In (EPrint (MReady (u "Server1"))) t
  /\ In (EPrint MClientCompleted) t.

(** [cleanup] was entered and left exactly [n] times. *)
Definition cleanups (n : nat) (t : list event) : Prop :=
  cleanups_started t = n /\ cleanups_completed t = n.

(** How [main] can end when no signal arrives. *)
Definition main_end (E : env) (s : state) (r : result unit) (s' : state)
  : Prop :=
  ((r = Raise (SystemExit 0) /\ full_success (since s s'))
   \/ (exists e, r = Raise e /\ fatal e
                 /\ ~ In (EPrint MClientCompleted) (since s s'))
   \/ (r = Blocked /\ stuck E))
  /\ (r <> Blocked ->
      (In (EPrint (MStarting (u "Server2"))) (since s s') ->
       cleanups 1 (since s s'))
      /\ (~ In (EPrint (MStarting (u "Server2"))) (since s s') ->
          cleanups 0 (since s s'))).

(** [main] stopped before calling [run]. *)
Lemma main_end_early (E : env) (s s' : state) (e : exn) :
  prints_only ordinary s s' -> fatal e -> main_end E s (Raise e) s'.
Proof.
  intros P He.
  pose proof (not_printed ordinary MClientCompleted s s' P eq_refl) as NC.
  pose proof (not_printed ordinary (MStarting (u "Server2")) s s' P eq_refl)
    as NS.
  split.
  - right. left. exists e. auto.
  - intros _. split; [contradiction |]. intros _. unfold cleanups.
    rewrite cleanups_started_printed, cleanups_completed_printed.
    split; [apply printed_ordinary_opening | apply printed_ordinary_closing];
      exact P.
Qed.

(** [main] as [run] left it, with one ordinary line added or none. *)
Lemma main_end_late (E : env) (s sp s1 s2 : state) (r : result unit) :
  prints_only ordinary s sp -> extends sp s1 -> prints_only ordinary s1 s2 ->
  ((r = Raise (SystemExit 0)
    /\ In (EPrint (MReady (u "Server2"))) (since sp s1)
    /\ In (EPrint (MReady (u "Server1"))) (since sp s1)
    /\ In (EPrint MClientCompleted) (since sp s1))
   \/ (exists e, r = Raise e /\ fatal e
                 /\ ~ In (EPrint MClientCompleted) (since sp s1))) ->
  ((In (EPrint (MStarting (u "Server2"))) (since sp s1) ->
    printed is_opening (since sp s1) = 1%nat
    /\ printed is_closing (since sp s1) = 1%nat)
   /\ (~ In (EPrint (MStarting (u "Server2"))) (since sp s1) ->
       printed is_opening (since sp s1) = 0%nat
       /\ printed is_closing (since sp s1) = 0%nat)) ->
  main_end E s r s2.
Proof.
  intros P0 X1 P2 Hr [Hc1 Hc0].
  pose proof (prints_only_extends _ _ _ P0) as X0.
  pose proof (prints_only_extends _ _ _ P2) as X2.
  pose proof (extends_trans _ _ _ X0 X1) as X01.
  assert (Hsplit : forall x, In x (since s s2)
                             <-> In x (since s1 s2) \/ In x (since sp s1)
                                 \/ In x (since s sp)).
  { intros x. rewrite (in_since_split s s1 s2 x X01 X2).
    rewrite (in_since_split s sp s1 x X0 X1). tauto. }
  pose proof (not_printed ordinary MClientCompleted s sp P0 eq_refl) as NC0.
  pose proof (not_printed ordinary MClientCompleted s1 s2 P2 eq_refl) as NC2.
  pose proof (not_printed ordinary (MStarting (u "Server2")) s sp P0 eq_refl)
    as NS0.
  pose proof (not_printed ordinary (MStarting (u "Server2")) s1 s2 P2 eq_refl)
    as NS2.
  assert (Hcount : forall f,
             printed f (since s s2)
             = (printed f (since s1 s2) + (printed f (since sp s1)
                + printed f (since s sp)))%nat).
  { intros f.
    rewrite (since_split s s1 s2 X01 X2), (since_split s sp s1 X0 X1).
    rewrite !printed_app. reflexivity. }
  split.
  - destruct Hr as [[-> [H2 [H1 Hc]]] | [e [-> [He Hn]]]].
    + left. split; [reflexivity |]. unfold full_success.
      rewrite !Hsplit. tauto.
    + right. left. exists e. split; [reflexivity |]. split; [exact He |].
      rewrite Hsplit. tauto.
  - intros _. unfold cleanups.
    rewrite cleanups_started_printed, cleanups_completed_printed, !Hcount.
    rewrite (printed_ordinary_opening _ _ P0), (printed_ordinary_closing _ _ P0),
      (printed_ordinary_opening _ _ P2), (printed_ordinary_closing _ _ P2).
    rewrite Hsplit. split.
    + intros [Hin | [Hin | Hin]]; try contradiction.
      destruct (Hc1 Hin) as [-> ->]. split; reflexivity.
    + intros Hn. destruct Hc0 as [-> ->]; [tauto | split; reflexivity].
Qed.

Lemma main_unfold (E : env) (s : state) :
  main E quiet s
  = (if negb (env_exists E)
     then print quiet MNoJustfile ;; sys_exit quiet 1
     else
       precheck E ;;
       success <- run E quiet ;;
       if success then print quiet MSucceeded ;; sys_exit quiet 0
       else print quiet MFailed ;; sys_exit quiet 1) (count_tick s).
Proof. reflexivity. Qed.

Lemma fatal_os e : os_error e = true -> fatal e.
Proof. intros H. right. exact H. Qed.

Lemma main_run (E : env) (s : state) :
  exists r s', main E quiet s = (r, s') /\ main_end E s r s'
               /\ (env_exists E = false -> r = Raise (SystemExit 1))
               /\ (~ just_works E (n_run s) -> exists e, r = Raise e /\ fatal e).
Proof.
  rewrite main_unfold.
  assert (P1 : prints_only ordinary s (count_tick s))
    by (apply prints_only_silent; reflexivity).
  destruct (env_exists E); cbn [negb]; cbv iota.
  2: { eexists _, _. split; [lazy; reflexivity |].
       split; [ | split; [reflexivity | intros _; eexists; split;
                                        [reflexivity | left; reflexivity]] ].
       apply main_end_early; [ | left; reflexivity ].
       exists [EPrint MNoJustfile]. split; [lazy; reflexivity | reflexivity]. }
  unfold bind at 1.
  destruct (precheck_run E (count_tick s)) as [rp [sp [Hp [Pp Hcase]]]].
  rewrite Hp. change (n_run (count_tick s)) with (n_run s) in Hcase.
  pose proof (prints_only_trans _ _ _ _ P1 Pp) as P0.
  destruct Hcase as [[-> Hw] | [e [-> [He Hnw]]]].
  2: { exists (Raise e), sp. split; [reflexivity |].
       split; [apply main_end_early; assumption |].
       split; [discriminate |]. intros _. exists e. auto. }
  cbv iota. unfold bind at 1.
  destruct (run_run E sp) as [r [s1 [Hr [X1 [Hres Hcount]]]]]. rewrite Hr.
  destruct Hres as [[b [-> [Hiff Hready]]]
                   | [[e [-> [He Hn]]] | [-> Hstuck]]].
  - destruct b; cbv iota.
    + eexists _, _. split; [lazy; reflexivity |].
      split; [ | split; [discriminate | intros Hnw; contradiction] ].
      apply (main_end_late E s sp s1
               (count_tick (emit (EPrint MSucceeded) (count_tick s1))));
        try assumption.
      * exists [EPrint MSucceeded]. split; [lazy; reflexivity | reflexivity].
      * left. destruct (Hready eq_refl). split; [reflexivity |].
        repeat split; try assumption. apply Hiff. reflexivity.
      * apply Hcount. discriminate.
    + eexists _, _. split; [lazy; reflexivity |].
      split; [ | split; [discriminate | intros Hnw; contradiction] ].
      apply (main_end_late E s sp s1
               (count_tick (emit (EPrint MFailed) (count_tick s1))));
        try assumption.
      * exists [EPrint MFailed]. split; [lazy; reflexivity | reflexivity].
      * right. exists (SystemExit 1). split; [reflexivity |].
        split; [left; reflexivity |]. intros Hin. apply Hiff in Hin.
        discriminate.
      * apply Hcount. discriminate.
  - exists (Raise e), s1. split; [reflexivity |].
    split; [ | split; [discriminate | intros Hnw; contradiction] ].
    apply (main_end_late E s sp s1 s1); try assumption.
    + apply prints_only_refl.
    + right. exists e. split; [reflexivity |]. split; [right; exact He | exact Hn].
    + apply Hcount. discriminate.
  - exists Blocked, s1. split; [reflexivity |].
    split; [ | split; [discriminate | intros Hnw; contradiction] ].
    split; [right; right; auto | intros H; contradiction].
Qed.

(** ** The whole process, when no signal arrives *)

Lemma since_initial s : since initial s = out s.
Proof.
  unfold since. cbn [out initial List.length]. rewrite Nat.sub_0_r.
  apply firstn_all.
Qed.

Lemma run_myco_quiet (E : env) :
  env_signal E = None ->
  run_myco E
  = (process_end (fst (main E quiet initial)), snd (main E quiet initial)).
Proof.
  intros H. unfold run_myco. rewrite H.
  change (deliver E None) with quiet.
  destruct (main E quiet initial); reflexivity.
Qed.

Lemma fatal_status e : fatal e -> process_end (Raise e) = Exited 1.
Proof.
  intros [-> | He]; [reflexivity |]. destruct e; try discriminate; reflexivity.
Qed.



(** ** Runs in sample environments *)

Module Runs.

(** The calm run with a signal during the wait for Server1. *)
Definition interrupted (sg : signum) : env := Sample.with_signal Sample.calm 36 sg.

(** The servers stay alive and print nothing: no line ever completes. *)
Definition silent : env :=
  {| env_exists := true;
     env_run := env_run Sample.calm;
     env_popen := env_popen Sample.calm;
     env_lag := env_lag Sample.calm;
     env_poll := fun _ _ => None;
     env_readline := fun _ _ => ReadBlocks;
     env_wait := env_wait Sample.calm;
     env_client_lines := env_client_lines Sample.calm;
     env_client_exit := env_client_exit Sample.calm;
     env_signal := None |}.

(** Every child prints one line of build output and exits with status
    101 before its second poll. *)
Definition crashing : env :=
  {| env_exists := true;
     env_run := env_run Sample.calm;
     env_popen := env_popen Sample.calm;
     env_lag := env_lag Sample.calm;
     env_poll := fun _ n => if Nat.eqb n 0 then None else Some 101;
     env_readline := fun _ _ => ReadBytes (u "compiling" ++ [nl]);
     env_wait := env_wait Sample.calm;
     env_client_lines := env_client_lines Sample.calm;
     env_client_exit := env_client_exit Sample.calm;
     env_signal := None |}.

End Runs.

(** C1 at the failing input: [SIGINT] (and likewise [SIGTERM]) arrives
    while the run waits for Server1.  The handler is entered and
    [cleanup] runs to its end (twice, see C2), but the process then ends
    with exit status 0, the status of a successful run. *)
Theorem signal_exits_with_status_zero :
  (signalled (snd (run_myco (Runs.interrupted SIGINT))) = true
   /\ cleanups_completed (out (snd (run_myco (Runs.interrupted SIGINT)))) = 2%nat
   /\ fst (run_myco (Runs.interrupted SIGINT)) = Exited 0)
  /\ (signalled (snd (run_myco (Runs.interrupted SIGTERM))) = true
      /\ cleanups_completed (out (snd (run_myco (Runs.interrupted SIGTERM))))
         = 2%nat
      /\ fst (run_myco (Runs.interrupted SIGTERM)) = Exited 0).
Proof. repeat split; vm_compute; reflexivity. Qed.


(** C3 at the failing input: Server2 stays alive and prints nothing.  The
    first [readline] of the wait never comes back, so
    [wait_for_server_ready] neither returns [False] after its 30 seconds
    nor returns at all, and the whole run hangs. *)
Theorem wait_blocks_on_silent_server :
  fst (wait_for_server_ready Runs.silent quiet (u "Server2")
         (u "Server2 listening on") 0 30 (launched Server2 100 initial))
  = Blocked
  /\ fst (run_myco Runs.silent) = Hangs.
Proof. split; vm_compute; reflexivity. Qed.



Lemma calm_is_live : ~ stuck Sample.calm.
Proof. intros [[x [n H]] | H]; discriminate. Qed.



(** * Further properties of the script *)

(** ** check_ports_free: the answer in full *)

(** What [check_ports_free] reads as "in use" in an answer of [lsof]:
    return code 0 and some text beyond white space. *)
Definition reports_busy (r : run_result) : bool :=
  match r with
  | Completed rc text => (rc =? 0) && nonempty (strip text)
  | RunFails _ => false
  end.

Ltac probe := cbn -[strip nonempty lsof_argv Z.eqb].

(** [check_ports_free] answers [True] exactly when neither [lsof -ti :3002]
    nor [lsof -ti :3004] reports a process; an [lsof] that fails or cannot
    be run counts as no report. *)
Theorem check_ports_free_answer (E : env) (s : state) :
  fst (check_ports_free E quiet s)
  = Ret (negb (reports_busy (env_run E (n_run s) (lsof_argv 3002))
               || reports_busy (env_run E (S (n_run s)) (lsof_argv 3004)))).
Proof.
  unfold check_ports_free, ports. cbn [check_ports_loop].
  unfold bind, try_except, subprocess_run, print, modify, ret, quiet. probe.
  destruct (env_run E (n_run s) (lsof_argv 3002)) as [rc text | f]; probe.
  - destruct ((rc =? 0) && nonempty (strip text)); probe; [reflexivity |].
    destruct (env_run E (S (n_run s)) (lsof_argv 3004)) as [rc' text' | f']; probe.
    + destruct ((rc' =? 0) && nonempty (strip text')); reflexivity.
    + destruct f'; reflexivity.
  - destruct f; probe;
      (destruct (env_run E (S (n_run s)) (lsof_argv 3004)) as [rc' text' | f']; probe;
       [destruct ((rc' =? 0) && nonempty (strip text')); reflexivity
       | destruct f'; reflexivity]).
Qed.

(** The loop over the ports stops at the first port found in use: when
    [lsof] reports a process on port 3002, [check_ports_free] prints the
    warning for that port and returns [False] at once; port 3004 is not
    looked at. *)
Theorem check_ports_free_stops_at_first (E : env) (s : state) (text : str) :
  env_run E (n_run s) (lsof_argv 3002) = Completed 0 text ->
  nonempty (strip text) = true ->
  let r := check_ports_free E quiet s in
  fst r = Ret false
  /\ since s (snd r) = [EPrint (MPortInUse 3002); ERun (lsof_argv 3002) true]
  /\ n_run (snd r) = S (n_run s).
Proof.
  intros Hrun Hbusy.
  unfold check_ports_free, ports. cbn [check_ports_loop].
  unfold bind, try_except, subprocess_run, print, modify, ret, quiet. probe.
  rewrite Hrun. probe. rewrite Hbusy. probe.
  split; [reflexivity |]. split; [ | reflexivity ].
  apply since_app. reflexivity.
Qed.

Lemma check_ports_free_stops_at_first_witness :
  let r := check_ports_free Tools.busy quiet initial in
  fst r = Ret false
  /\ since initial (snd r) = [EPrint (MPortInUse 3002); ERun (lsof_argv 3002) true]
  /\ n_run (snd r) = S (n_run initial).
Proof.
  apply (check_ports_free_stops_at_first Tools.busy initial (u "4242" ++ [nl])).
  - reflexivity.
  - vm_compute. reflexivity.
Defined.

(** ** What the parts of the run do, and what they never do *)

(** Every event the step adds passes the test [ok]. *)
Definition acts_only (ok : event -> bool) (s s' : state) : Prop :=
  exists d, out s' = d ++ out s /\ forallb ok d = true.

Lemma acts_only_refl ok s : acts_only ok s s.
Proof. exists []. split; reflexivity. Qed.

Lemma acts_only_trans ok a b c :
  acts_only ok a b -> acts_only ok b c -> acts_only ok a c.
Proof.
  intros [d1 [E1 F1]] [d2 [E2 F2]]. exists (d2 ++ d1).
  rewrite E2, E1, app_assoc, forallb_app, F1, F2. split; reflexivity.
Qed.

Lemma acts_only_emit ok s s' e :
  out s' = e :: out s -> ok e = true -> acts_only ok s s'.
Proof. intros He Hok. exists [e]. simpl. rewrite Hok. split; [exact He | reflexivity]. Qed.

Lemma acts_only_silent ok s s' : out s' = out s -> acts_only ok s s'.
Proof. intros He. exists []. split; [exact He | reflexivity]. Qed.

Lemma acts_only_since ok s s' :
  acts_only ok s s' -> forallb ok (since s s') = true.
Proof. intros [d [Hd Hok]]. rewrite (since_app _ _ _ Hd). exact Hok. Qed.

Lemma acts_only_extends ok s s' : acts_only ok s s' -> extends s s'.
Proof. intros [d [Hd _]]. exists d. exact Hd. Qed.

(** Messages and sleeps are always allowed; what is asked of [ok] beyond
    that is said where it is needed. *)
Section Acts.

Variable E : env.
Variable ok : event -> bool.

Hypothesis ok_print : forall m, ok (EPrint m) = true.
Hypothesis ok_sleep : forall ms, ok (ESleep ms) = true.

Local Abbreviation acts m := (preserves (acts_only ok) m).

Lemma print_acts m : acts (print quiet m).
Proof. intros s. apply acts_only_emit with (e := EPrint m); [reflexivity | apply ok_print]. Qed.

Lemma time_sleep_acts ms : acts (time_sleep quiet ms).
Proof. intros s. apply acts_only_emit with (e := ESleep ms); [reflexivity | apply ok_sleep]. Qed.

Lemma time_time_acts : acts (time_time E quiet).
Proof. intros s. apply acts_only_silent; reflexivity. Qed.

Lemma modify_acts f : (forall s, out (f s) = out s) -> acts (modify f).
Proof. intros H s. apply acts_only_silent. apply H. Qed.

Lemma subprocess_run_acts argv check :
  (forall b, ok (ERun argv b) = true) -> acts (subprocess_run E quiet argv check).
Proof.
  intros H s. unfold subprocess_run, bind, quiet. cbn.
  destruct (env_run E (n_run s) argv) as [rc text | f].
  - destruct (check && negb (rc =? 0));
      apply acts_only_emit with (e := ERun argv true); auto.
  - apply acts_only_emit with (e := ERun argv false); auto.
Qed.

Lemma Popen_acts argv :
  (forall b, ok (EPopen argv b) = true) -> acts (Popen E quiet argv).
Proof.
  intros H s. unfold Popen, bind, quiet. cbn.
  destruct (env_popen E (n_popen s) argv) as [p | f].
  - apply acts_only_emit with (e := EPopen argv true); auto.
  - apply acts_only_emit with (e := EPopen argv false); auto.
Qed.

Lemma poll_acts x : acts (poll E quiet x).
Proof.
  intros s. unfold poll, bind, quiet. cbn.
  case_scrutinee; [apply acts_only_silent; reflexivity |].
  case_scrutinee; apply acts_only_silent; reflexivity.
Qed.

Lemma wait_acts x timeout : acts (wait E quiet x timeout).
Proof.
  intros s. unfold wait, bind, quiet. cbn.
  case_scrutinee; [apply acts_only_silent; reflexivity |].
  case_scrutinee; apply acts_only_silent; reflexivity.
Qed.

Lemma readline_acts x : acts (readline E quiet x).
Proof.
  intros s. unfold readline, bind, quiet. cbn.
  case_scrutinee; apply acts_only_silent; reflexivity.
Qed.

Lemma wait_forever_acts x : acts (wait_forever E quiet x).
Proof.
  intros s. unfold wait_forever, bind, quiet. cbn.
  case_scrutinee; apply acts_only_silent; reflexivity.
Qed.

Lemma terminate_acts x : ok (ETerminate x) = true -> acts (terminate quiet x).
Proof. intros H s. apply acts_only_emit with (e := ETerminate x); [reflexivity | exact H]. Qed.

Lemma kill_acts x : ok (EKill x) = true -> acts (kill quiet x).
Proof. intros H s. apply acts_only_emit with (e := EKill x); [reflexivity | exact H]. Qed.

Lemma signal_signal_acts sg : acts (signal_signal quiet sg).
Proof. intros s. apply acts_only_silent; reflexivity. Qed.

Lemma os_path_exists_acts : acts (os_path_exists E quiet).
Proof. intros s. apply acts_only_silent; reflexivity. Qed.

Lemma sys_exit_acts {A} code : acts (@sys_exit quiet A code).
Proof. intros s. apply acts_only_silent; reflexivity. Qed.

Lemma out_of_fuel_acts {A} : acts (fun s => (@OutOfFuel A, s)).
Proof. intros s. apply acts_only_refl. Qed.

End Acts.

(** One step through the structure of a program, for a relation with the
    given proofs of reflexivity and transitivity; [leaf] deals with the
    operations. *)
Ltac walk refl trans leaf :=
  lazymatch goal with
  | |- preserves _ (ret _) => apply (preserves_ret _ refl)
  | |- preserves _ get => apply (preserves_get _ refl)
  | |- preserves _ (raise _) => apply (preserves_raise _ refl)
  | |- preserves _ (bind _ _) => apply (preserves_bind _ trans); [ | intros ]
  | |- preserves _ (for_each _ _) =>
    apply (preserves_for_each _ refl trans); intros
  | |- preserves _ (try_except _ _) => apply (preserves_try _ refl trans)
  | |- preserves _ (try_finally _ _) => apply (preserves_finally _ refl trans)
  | |- Forall _ [] => apply Forall_nil
  | |- Forall _ (_ :: _) => apply Forall_cons; [cbn [snd]; intros | ]
  | |- preserves _ (if ?b then _ else _) => destruct b
  | |- preserves _ (match ?x with Some _ => _ | None => _ end) => destruct x
  | |- preserves _ (let _ := _ in _) => cbv zeta
  | |- _ => leaf
  end.

Ltac side := intros; first [assumption | reflexivity | solve [auto]].

Ltac acts_leaf :=
  idtac;
  lazymatch goal with
  | |- preserves _ (print _ _) => apply print_acts; side
  | |- preserves _ (time_sleep _ _) => apply time_sleep_acts; side
  | |- preserves _ (time_time _ _) => apply time_time_acts
  | |- preserves _ (modify _) => apply modify_acts; side
  | |- preserves _ (subprocess_run _ _ _ _) => apply subprocess_run_acts; side
  | |- preserves _ (Popen _ _ _) => apply Popen_acts; side
  | |- preserves _ (poll _ _ _) => apply poll_acts
  | |- preserves _ (wait _ _ _ _) => apply wait_acts
  | |- preserves _ (readline _ _ _) => apply readline_acts
  | |- preserves _ (wait_forever _ _ _) => apply wait_forever_acts
  | |- preserves _ (terminate _ _) => apply terminate_acts; side
  | |- preserves _ (kill _ _) => apply kill_acts; side
  | |- preserves _ (signal_signal _ _) => apply signal_signal_acts
  | |- preserves _ (os_path_exists _ _) => apply os_path_exists_acts
  | |- preserves _ (sys_exit _ _) => apply sys_exit_acts; side
  end.

Ltac acts_walk ok :=
  repeat walk (acts_only_refl ok) (acts_only_trans ok) ltac:(acts_leaf).

Section ActsOf.

Variable E : env.
Variable ok : event -> bool.

Hypothesis ok_print : forall m, ok (EPrint m) = true.
Hypothesis ok_sleep : forall ms, ok (ESleep ms) = true.

Local Abbreviation acts m := (preserves (acts_only ok) m).

Lemma wait_loop_acts fuel name marker x start timeout :
  acts (wait_loop E quiet fuel name marker x start timeout).
Proof.
  induction fuel as [| fuel IH]; cbn [wait_loop].
  - apply out_of_fuel_acts.
  - acts_walk ok. exact IH.
Qed.

Lemma wait_for_server_ready_acts name marker x timeout :
  acts (wait_for_server_ready E quiet name marker x timeout).
Proof.
  unfold wait_for_server_ready. acts_walk ok. apply wait_loop_acts.
Qed.

Lemma start_acts r :
  (forall b, ok (EPopen (role_command r) b) = true) -> acts (start r E quiet).
Proof.
  intros H. destruct r; unfold start, start_server2, start_server1;
    acts_walk ok; apply wait_for_server_ready_acts.
Qed.

Lemma run_client_acts :
  (forall b, ok (EPopen client_argv b) = true) -> acts (run_client E quiet).
Proof. intros H. unfold run_client. acts_walk ok. Qed.

Hypothesis ok_run : forall argv b, ok (ERun argv b) = true.

Lemma cleanup_ports_acts : acts (cleanup_ports E quiet).
Proof.
  unfold cleanup_ports, pgrep_kill, lsof_kill, netstat_kill, kill_each, swallow.
  acts_walk ok.
Qed.

Lemma check_ports_free_acts : acts (check_ports_free E quiet).
Proof.
  unfold check_ports_free, ports. cbn [check_ports_loop]. acts_walk ok.
Qed.

Lemma preflight_acts : acts (preflight E).
Proof.
  unfold preflight. acts_walk ok;
    first [apply cleanup_ports_acts | apply check_ports_free_acts].
Qed.

Lemma precheck_acts : acts (precheck E).
Proof. unfold precheck. acts_walk ok. Qed.

Lemma cleanup_acts :
  (forall h, ok (ETerminate h) = true) -> (forall h, ok (EKill h) = true) ->
  acts (cleanup E quiet).
Proof.
  intros Ht Hk. unfold cleanup, stop_tracked, swallow. acts_walk ok.
  apply cleanup_ports_acts.
Qed.

End ActsOf.

(** ** cleanup_ports: the commands it runs *)

Definition reclaiming_tool (cmd : str) : bool :=
  str_eqb cmd (u "lsof") || str_eqb cmd (u "netstat")
  || str_eqb cmd (u "pgrep") || str_eqb cmd (u "kill").

(** Output, pauses and runs of the four tools of [cleanup_ports]. *)
Definition reclaims (e : event) : bool :=
  match e with
  | EPrint _ | ESleep _ => true
  | ERun argv _ => reclaiming_tool (hd [] argv)
  | _ => false
  end.

(** Whatever its tools answer, [cleanup_ports] does nothing but print,
    pause and run [lsof], [netstat], [pgrep] and [kill]: it launches no
    child of its own and sends nothing to the children the runner
    tracks. *)
Theorem cleanup_ports_runs_its_tools_only (E : env) (s : state) :
  forallb reclaims (since s (snd (cleanup_ports E quiet s))) = true.
Proof.
  apply acts_only_since. revert s.
  change (preserves (acts_only reclaims) (cleanup_ports E quiet)).
  unfold cleanup_ports, pgrep_kill, lsof_kill, netstat_kill, kill_each, swallow.
  acts_walk reclaims.
Qed.

(** ** The processes the runner tracks *)

(** [self.processes], [self.server2_process] and [self.server1_process] *)
Definition tracked (s : state) : list nat * option nat * option nat :=
  (processes s, server2_process s, server1_process s).

Definition same_tracked (s s' : state) : Prop := tracked s' = tracked s.

Lemma same_tracked_refl s : same_tracked s s.
Proof. reflexivity. Qed.

Lemma same_tracked_trans a b c :
  same_tracked a b -> same_tracked b c -> same_tracked a c.
Proof. unfold same_tracked. intros H1 H2. rewrite H2. exact H1. Qed.

Section Tracked.

Variable E : env.

Local Abbreviation frames m := (preserves same_tracked m).

Ltac operation :=
  intros s;
  unfold print, time_sleep, time_time, subprocess_run, Popen, poll, wait,
    readline, wait_forever, terminate, kill, signal_signal, os_path_exists,
    sys_exit, bind, modify, raise, ret, quiet;
  cbn; repeat case_scrutinee; reflexivity.

Lemma print_frames m : frames (print quiet m).
Proof. operation. Qed.

Lemma time_sleep_frames ms : frames (time_sleep quiet ms).
Proof. operation. Qed.

Lemma time_time_frames : frames (time_time E quiet).
Proof. operation. Qed.

Lemma modify_frames f : (forall s, tracked (f s) = tracked s) -> frames (modify f).
Proof. intros H s. apply H. Qed.

Lemma subprocess_run_frames argv check : frames (subprocess_run E quiet argv check).
Proof. operation. Qed.

Lemma Popen_frames argv : frames (Popen E quiet argv).
Proof. operation. Qed.

Lemma poll_frames x : frames (poll E quiet x).
Proof. operation. Qed.

Lemma wait_frames x timeout : frames (wait E quiet x timeout).
Proof. operation. Qed.

Lemma readline_frames x : frames (readline E quiet x).
Proof. operation. Qed.

Lemma wait_forever_frames x : frames (wait_forever E quiet x).
Proof. operation. Qed.

Lemma terminate_frames x : frames (terminate quiet x).
Proof. operation. Qed.

Lemma kill_frames x : frames (kill quiet x).
Proof. operation. Qed.

Lemma sys_exit_frames {A} code : frames (@sys_exit quiet A code).
Proof. operation. Qed.

Lemma out_of_fuel_frames {A} : frames (fun s => (@OutOfFuel A, s)).
Proof. intros s. reflexivity. Qed.

End Tracked.

Ltac frames_leaf :=
  idtac;
  lazymatch goal with
  | |- preserves _ (print _ _) => apply print_frames
  | |- preserves _ (time_sleep _ _) => apply time_sleep_frames
  | |- preserves _ (time_time _ _) => apply time_time_frames
  | |- preserves _ (modify _) => apply modify_frames; intros; reflexivity
  | |- preserves _ (subprocess_run _ _ _ _) => apply subprocess_run_frames
  | |- preserves _ (Popen _ _ _) => apply Popen_frames
  | |- preserves _ (poll _ _ _) => apply poll_frames
  | |- preserves _ (wait _ _ _ _) => apply wait_frames
  | |- preserves _ (readline _ _ _) => apply readline_frames
  | |- preserves _ (wait_forever _ _ _) => apply wait_forever_frames
  | |- preserves _ (terminate _ _) => apply terminate_frames
  | |- preserves _ (kill _ _) => apply kill_frames
  | |- preserves _ (sys_exit _ _) => apply sys_exit_frames
  end.

Ltac frames_walk :=
  repeat walk same_tracked_refl same_tracked_trans ltac:(frames_leaf).

Lemma cleanup_ports_frames (E : env) : preserves same_tracked (cleanup_ports E quiet).
Proof.
  unfold cleanup_ports, pgrep_kill, lsof_kill, netstat_kill, kill_each, swallow.
  frames_walk.
Qed.

Lemma wait_loop_frames (E : env) fuel name marker x start timeout :
  preserves same_tracked (wait_loop E quiet fuel name marker x start timeout).
Proof.
  induction fuel as [| fuel IH]; cbn [wait_loop].
  - apply out_of_fuel_frames.
  - frames_walk. exact IH.
Qed.

Lemma wait_for_server_ready_frames (E : env) name marker x timeout :
  preserves same_tracked (wait_for_server_ready E quiet name marker x timeout).
Proof. unfold wait_for_server_ready. frames_walk. apply wait_loop_frames. Qed.

(** [cleanup] goes through [self.processes] without taking anything out
    of it: after the call the runner tracks the same processes as
    before, the ones it has just stopped included. *)
Theorem cleanup_keeps_the_list (E : env) (s : state) :
  tracked (snd (cleanup E quiet s)) = tracked s.
Proof.
  revert s. change (preserves same_tracked (cleanup E quiet)).
  unfold cleanup, stop_tracked, swallow. frames_walk.
  apply cleanup_ports_frames.
Qed.

(** The client is a local of [run_client]: however the call ends, the
    runner tracks the same processes after it as before, so no later
    [cleanup] will look at the client. *)
Theorem run_client_tracks_nothing (E : env) (s : state) :
  tracked (snd (run_client E quiet s)) = tracked s.
Proof.
  revert s. change (preserves same_tracked (run_client E quiet)).
  unfold run_client. frames_walk.
Qed.

(** Once [Popen] has given a child, [start_server2] and [start_server1]
    record it before the wait begins: however the wait ends (ready, timed
    out, child gone, or a read that never comes back), the child is the
    last entry of [self.processes] and the value of the role's own
    attribute. *)
Theorem start_tracks_before_waiting
    (E : env) (r : role) (p : Z) (s : state) :
  env_popen E (n_popen s) (role_command r) = Spawned p ->
  let s' := snd (start r E quiet s) in
  let h := List.length (objects s) in
  processes s' = processes s ++ [h]
  /\ match r with
     | Server2 => server2_process s' = Some h
                  /\ server1_process s' = server1_process s
     | Server1 => server1_process s' = Some h
                  /\ server2_process s' = server2_process s
     end.
Proof.
  intros Hp. cbv zeta. rewrite (start_unfold E r p s Hp).
  assert (H : preserves same_tracked
                (try_except
                   (wait_for_server_ready E quiet (role_name r) (role_marker r)
                      (List.length (objects s)) (role_timeout r))
                   (start_clauses r))).
  { unfold start_clauses. frames_walk. apply wait_for_server_ready_frames. }
  specialize (H (launched r p s)). unfold same_tracked, tracked in H.
  injection H as H1 H2 H3. rewrite H1, H2, H3.
  destruct r; repeat split; reflexivity.
Qed.

Lemma start_tracks_before_waiting_witness :
  let s' := snd (start Server2 Runs.silent quiet initial) in
  processes s' = [0%nat]
  /\ server2_process s' = Some 0%nat /\ server1_process s' = None.
Proof.
  apply (start_tracks_before_waiting Runs.silent Server2 100 initial).
  reflexivity.
Defined.

(** When [Popen] fails, [start_server2] and [start_server1] report the
    failure and return [False]; nothing has been recorded, so the runner
    tracks what it tracked before and no [Popen] object was made. *)
Theorem start_records_nothing_unlaunched
    (E : env) (r : role) (f : os_failure) (s : state) :
  env_popen E (n_popen s) (role_command r) = PopenFails f ->
  let res := start r E quiet s in
  fst res = Ret false
  /\ since s (snd res)
     = [EPrint (MFailedToStart (role_name r) (exn_of_failure f));
        EPopen (role_command r) false;
        EPrint (MStarting (role_name r))]
  /\ tracked (snd res) = tracked s
  /\ objects (snd res) = objects s.
Proof.
  intros Hp. cbv zeta. rewrite (start_unlaunched_run E r f s Hp).
  cbn [fst snd]. split; [reflexivity |].
  split; [apply since_app; reflexivity |]. split; reflexivity.
Qed.

Definition no_just_server : env :=
  {| env_exists := true;
     env_run := env_run Sample.calm;
     env_popen := fun _ _ => PopenFails NotFound;
     env_lag := env_lag Sample.calm;
     env_poll := env_poll Sample.calm;
     env_readline := env_readline Sample.calm;
     env_wait := env_wait Sample.calm;
     env_client_lines := [];
     env_client_exit := None;
     env_signal := None |}.

Lemma start_records_nothing_unlaunched_witness :
  let res := start Server1 no_just_server quiet initial in
  fst res = Ret false
  /\ since initial (snd res)
     = [EPrint (MFailedToStart (u "Server1") FileNotFoundError);
        EPopen [u "just"; u "server1"] false;
        EPrint (MStarting (u "Server1"))]
  /\ tracked (snd res) = tracked initial
  /\ objects (snd res) = objects initial.
Proof.
  apply (start_records_nothing_unlaunched no_just_server Server1 NotFound initial).
  reflexivity.
Defined.

(** ** cleanup: which children it signals, and how *)

Lemma preserves_for_each_in (R : state -> state -> Prop)
    (R_refl : forall s, R s s) (R_trans : forall a b c, R a b -> R b c -> R a c)
    {A} (xs : list A) (body : A -> M unit) :
  (forall x, In x xs -> preserves R (body x)) ->
  preserves R (for_each xs body).
Proof.
  induction xs as [| x xs IH]; intros Hb; simpl.
  - apply preserves_ret, R_refl.
  - apply (preserves_bind _ R_trans).
    + apply Hb. left; reflexivity.
    + intros _. apply IH. intros y Hy. apply Hb. right; exact Hy.
Qed.

(** [terminate()] and [kill()] go to members of [ps] only. *)
Definition signals_within (ps : list nat) (e : event) : bool :=
  match e with
  | ETerminate h | EKill h => existsb (Nat.eqb h) ps
  | _ => true
  end.

(** [cleanup] after its opening line, for the list [ps] it reads from
    [self.processes]. *)
Definition tear (E : env) (ps : list nat) : M unit :=
  for_each ps (stop_tracked E quiet) ;;
  cleanup_ports E quiet ;;
  try_except
    (subprocess_run E quiet [u "pkill"; u "-f"; u "rpc_server"] false ;; ret tt)
    swallow.

Lemma cleanup_body_unfold (E : env) (s : state) :
  cleanup_body E s = tear E (processes s) s.
Proof. reflexivity. Qed.

Lemma tear_acts (E : env) (ps : list nat) :
  preserves (acts_only (signals_within ps)) (tear E ps).
Proof.
  unfold tear.
  apply (preserves_bind _ (acts_only_trans (signals_within ps))).
  - apply (preserves_for_each_in _ (acts_only_refl (signals_within ps))
             (acts_only_trans (signals_within ps))).
    intros x Hx.
    assert (Ht : signals_within ps (ETerminate x) = true).
    { apply existsb_exists. exists x. split; [exact Hx | apply Nat.eqb_refl]. }
    assert (Hk : signals_within ps (EKill x) = true) by exact Ht.
    unfold stop_tracked. acts_walk (signals_within ps).
  - intros _. unfold swallow. acts_walk (signals_within ps).
    apply cleanup_ports_acts; side.
Qed.

(** [cleanup] sends [terminate()] and [kill()] to nothing but the
    processes it finds in [self.processes], and among those only to the
    ones whose exit is not yet on record. *)
Theorem cleanup_signals_tracked_only (E : env) (s : state) (h : nat) :
  In (ETerminate h) (since s (snd (cleanup E quiet s)))
  \/ In (EKill h) (since s (snd (cleanup E quiet s))) ->
  In h (processes s) /\ returncode (object_at h s) = None.
Proof.
  intros Hin. split.
  - assert (Hacts : acts_only (signals_within (processes s)) s
                      (snd (cleanup E quiet s))).
    { rewrite cleanup_unfold.
      set (s0 := emit (EPrint MCleaningUp) (count_tick s)).
      apply (acts_only_trans _ s s0).
      - apply acts_only_emit with (e := EPrint MCleaningUp); reflexivity.
      - assert (H : preserves (acts_only (signals_within (processes s)))
                      (tear E (processes s) ;; print quiet MCleanupCompleted)).
        { apply (preserves_bind _ (acts_only_trans _));
            [apply tear_acts | intros _; apply print_acts; side]. }
        specialize (H s0). unfold bind in H |- *.
        rewrite cleanup_body_unfold. exact H. }
    apply acts_only_since in Hacts. rewrite forallb_forall in Hacts.
    assert (Hw : existsb (Nat.eqb h) (processes s) = true).
    { destruct Hin as [Hin | Hin]; exact (Hacts _ Hin). }
    apply existsb_exists in Hw. destruct Hw as [x [Hx Heq]].
    apply Nat.eqb_eq in Heq. subst x. exact Hx.
  - destruct (returncode (object_at h s)) as [rc |] eqn:Hrc; [ | reflexivity ].
    exfalso.
    assert (Hh : returncode (object_at h s) <> None) by (rewrite Hrc; discriminate).
    destruct (cleanup_leaves_alone E h s Hh) as [Ht Hk].
    destruct Hin; contradiction.
Qed.

Lemma cleanup_signals_tracked_only_witness :
  In 0%nat (processes (launched Server2 100 initial))
  /\ returncode (object_at 0 (launched Server2 100 initial)) = None.
Proof.
  apply (cleanup_signals_tracked_only Sample.calm (launched Server2 100 initial) 0).
  left. vm_compute. repeat first [left; reflexivity | right].
Defined.

(** ** Following a run step by step *)

Lemma bind_ret_at {A B} (m : M A) (k : A -> M B) s a s' :
  m s = (Ret a, s') -> bind m k s = k a s'.
Proof. intros H. unfold bind. rewrite H. reflexivity. Qed.

Lemma bind_raise_at {A B} (m : M A) (k : A -> M B) s e s' :
  m s = (Raise e, s') -> bind m k s = (Raise e, s').
Proof. intros H. unfold bind. rewrite H. reflexivity. Qed.

Lemma try_ret_at {A} (body : M A) clauses s a s' :
  body s = (Ret a, s') -> try_except body clauses s = (Ret a, s').
Proof. intros H. unfold try_except. rewrite H. reflexivity. Qed.

Lemma try_raise_at {A} (body : M A) clauses s e s' :
  body s = (Raise e, s') -> try_except body clauses s = dispatch clauses e s'.
Proof. intros H. unfold try_except. rewrite H. reflexivity. Qed.

Lemma get_at s : get s = (Ret s, s).
Proof. reflexivity. Qed.

Ltac step H := rewrite (bind_ret_at _ _ _ _ _ H); cbv beta iota.

Section Stepping.

Variable E : env.

Lemma print_at m s : print quiet m s = (Ret tt, emit (EPrint m) (count_tick s)).
Proof. reflexivity. Qed.

Lemma time_sleep_at ms s :
  time_sleep quiet ms s
  = (Ret tt, emit (ESleep ms) (set_now (now s + ms) (count_tick s))).
Proof. reflexivity. Qed.

Lemma terminate_at h s :
  terminate quiet h s = (Ret tt, emit (ETerminate h) (count_tick s)).
Proof. reflexivity. Qed.

Lemma kill_at h s : kill quiet h s = (Ret tt, emit (EKill h) (count_tick s)).
Proof. reflexivity. Qed.

Lemma poll_running_at h s :
  returncode (object_at h s) = None -> env_poll E h (n_poll s) = None ->
  poll E quiet h s = (Ret None, count_poll (count_tick s)).
Proof.
  intros Hrc Hp. unfold poll, bind, quiet, object_at in *. cbn.
  rewrite Hrc, Hp. reflexivity.
Qed.

Lemma wait_exited_at h timeout s rc :
  returncode (object_at h s) = None -> env_wait E h (n_wait s) = Some rc ->
  wait E quiet h timeout s
  = (Ret rc,
     count_wait (set_objects (store_returncode h rc (objects s)) (count_tick s))).
Proof.
  intros Hrc Hw. unfold wait, bind, quiet, object_at in *. cbn.
  rewrite Hrc, Hw. reflexivity.
Qed.

Lemma wait_expired_at h timeout s :
  returncode (object_at h s) = None -> env_wait E h (n_wait s) = None ->
  wait E quiet h timeout s = (Raise TimeoutExpired, count_wait (count_tick s)).
Proof.
  intros Hrc Hw. unfold wait, bind, quiet, object_at in *. cbn.
  rewrite Hrc, Hw. reflexivity.
Qed.

Lemma run_completed_at argv s rc text :
  env_run E (n_run s) argv = Completed rc text ->
  subprocess_run E quiet argv false s
  = (Ret (rc, text), count_run (emit (ERun argv true) (count_tick s))).
Proof.
  intros H. unfold subprocess_run, bind, quiet. cbn. rewrite H. reflexivity.
Qed.

Lemma run_fails_at argv check s f :
  env_run E (n_run s) argv = RunFails f ->
  subprocess_run E quiet argv check s
  = (Raise (exn_of_failure f), count_run (emit (ERun argv false) (count_tick s))).
Proof.
  intros H. unfold subprocess_run, bind, quiet. cbn. rewrite H. reflexivity.
Qed.

Lemma wait_then_exited_at h timeout s rc :
  returncode (object_at h s) = None -> env_wait E h (n_wait s) = Some rc ->
  (wait E quiet h timeout ;; ret tt) s
  = (Ret tt,
     count_wait (set_objects (store_returncode h rc (objects s)) (count_tick s))).
Proof.
  intros Hrc Hw.
  rewrite (bind_ret_at _ _ _ _ _ (wait_exited_at h timeout s rc Hrc Hw)).
  reflexivity.
Qed.

Lemma wait_then_expired_at h timeout s :
  returncode (object_at h s) = None -> env_wait E h (n_wait s) = None ->
  (wait E quiet h timeout ;; ret tt) s
  = (Raise TimeoutExpired, count_wait (count_tick s)).
Proof.
  intros Hrc Hw. apply bind_raise_at. apply wait_expired_at; assumption.
Qed.

End Stepping.

(** [stop_tracked] on a child that is still running, up to the first
    [wait]. *)
Lemma stop_tracked_begins (E : env) (s : state) (h : nat) :
  returncode (object_at h s) = None ->
  env_poll E h (n_poll s) = None ->
  exists s3,
    stop_tracked E quiet h s
    = try_except (wait E quiet h 3 ;; ret tt)
        [([C_TimeoutExpired], fun _ =>
            s2 <- get ;;
            print quiet (MForceKilling (pid (object_at h s2))) ;;
            kill quiet h ;;
            try_except (wait E quiet h 2 ;; ret tt)
              [([C_TimeoutExpired], fun _ => ret tt)])] s3
    /\ out s3 = [ETerminate h; EPrint (MTerminating (pid (object_at h s)))]
                ++ out s
    /\ objects s3 = objects s /\ n_wait s3 = n_wait s.
Proof.
  intros Hrc Hp. eexists. split.
  - unfold stop_tracked.
    step (poll_running_at E h s Hrc Hp).
    step (get_at (count_poll (count_tick s))).
    step (print_at (MTerminating (pid (object_at h (count_poll (count_tick s)))))
            (count_poll (count_tick s))).
    match goal with
    | |- bind (terminate quiet h) _ ?s2 = _ => step (terminate_at h s2)
    end.
    reflexivity.
  - split; [lazy; reflexivity |]. split; reflexivity.
Qed.

(** What [cleanup] does with one tracked child that is still running:
    [terminate()], and [kill()] only when the child has not exited within
    the three seconds of the first [wait]; a second [TimeoutExpired], after
    [kill()], is passed over. *)
Theorem stop_tracked_escalates (E : env) (s : state) (h : nat) :
  returncode (object_at h s) = None ->
  env_poll E h (n_poll s) = None ->
  let r := stop_tracked E quiet h s in
  let p := pid (object_at h s) in
  fst r = Ret tt
  /\ since s (snd r)
     = match env_wait E h (n_wait s) with
       | Some _ => [ETerminate h; EPrint (MTerminating p)]
       | None => [EKill h; EPrint (MForceKilling p);
                  ETerminate h; EPrint (MTerminating p)]
       end.
Proof.
  intros Hrc Hp. cbv zeta.
  destruct (stop_tracked_begins E s h Hrc Hp) as [s3 [Hs [Ho [Hob Hn]]]].
  rewrite Hs. clear Hs.
  assert (Hrc3 : returncode (object_at h s3) = None)
    by (unfold object_at in *; rewrite Hob; exact Hrc).
  rewrite <- Hn.
  destruct (env_wait E h (n_wait s3)) as [rc |] eqn:Hw.
  - rewrite (try_ret_at _ _ _ _ _ (wait_then_exited_at E h 3 s3 rc Hrc3 Hw)).
    cbn [fst snd]. split; [reflexivity |].
    apply since_app. exact Ho.
  - rewrite (try_raise_at _ _ _ _ _ (wait_then_expired_at E h 3 s3 Hrc3 Hw)).
    set (s4 := count_wait (count_tick s3)).
    cbn [dispatch]. change (caught_by [C_TimeoutExpired] TimeoutExpired) with true.
    cbv iota.
    step (get_at s4).
    step (print_at (MForceKilling (pid (object_at h s4))) s4).
    set (s5 := emit _ (count_tick s4)).
    step (kill_at h s5).
    set (s6 := emit _ (count_tick s5)).
    assert (Hrc6 : returncode (object_at h s6) = None) by exact Hrc3.
    assert (Hout : out s6
                   = [EKill h; EPrint (MForceKilling (pid (object_at h s)));
                      ETerminate h; EPrint (MTerminating (pid (object_at h s)))]
                     ++ out s).
    { change (out s6)
        with (EKill h :: EPrint (MForceKilling (pid (object_at h s3))) :: out s3).
      rewrite Ho. unfold object_at. rewrite Hob. reflexivity. }
    destruct (env_wait E h (n_wait s6)) as [rc |] eqn:Hw6.
    + rewrite (try_ret_at _ _ _ _ _ (wait_then_exited_at E h 2 s6 rc Hrc6 Hw6)).
      cbn [fst snd]. split; [reflexivity |].
      apply since_app. exact Hout.
    + rewrite (try_raise_at _ _ _ _ _ (wait_then_expired_at E h 2 s6 Hrc6 Hw6)).
      cbn [dispatch].
      change (caught_by [C_TimeoutExpired] TimeoutExpired) with true.
      cbv iota. unfold ret. cbn [fst snd]. split; [reflexivity |].
      apply since_app. exact Hout.
Qed.

(** A child that ignores [SIGTERM] for three seconds. *)
Definition stubborn : env :=
  {| env_exists := true;
     env_run := env_run Sample.calm;
     env_popen := env_popen Sample.calm;
     env_lag := env_lag Sample.calm;
     env_poll := fun _ _ => None;
     env_readline := env_readline Sample.calm;
     env_wait := fun _ n => if Nat.eqb n 0 then None else Some (-9);
     env_client_lines := [];
     env_client_exit := Some 0;
     env_signal := None |}.

Lemma stop_tracked_escalates_witness :
  let r := stop_tracked stubborn quiet 0 (launched Server2 100 initial) in
  fst r = Ret tt
  /\ since (launched Server2 100 initial) (snd r)
     = [EKill 0; EPrint (MForceKilling 100);
        ETerminate 0; EPrint (MTerminating 100)].
Proof.
  apply (stop_tracked_escalates stubborn (launched Server2 100 initial) 0);
    reflexivity.
Defined.

(** ** signal_handler, from any state *)


(** ** wait_for_server_ready: timing out, and what [True] means *)

Lemma time_time_at (E : env) (s : state) :
  time_time E quiet s
  = (Ret (reading E s), count_time (set_now (reading E s) (count_tick s))).
Proof. reflexivity. Qed.

Section WaitOutcomes.

Variable E : env.
Variables server_name expected_output : str.
Variable h : nat.
Variables start_time timeout : Z.

Local Abbreviation loop fuel :=
  (wait_loop E quiet fuel server_name expected_output h start_time timeout).

(** The test of the clock fails: the loop is left with the clock at the
    value just read. *)
Lemma loop_deadline fuel s :
  1000 * timeout <= reading E s - start_time ->
  exists s', loop (S fuel) s = (Ret false, s')
             /\ out s' = EPrint (MNotReady server_name timeout) :: out s
             /\ now s' = reading E s.
Proof.
  intros Ht. apply Z.ltb_ge in Ht. eexists. split.
  - cbn [wait_loop]. step (time_time_at E s). rewrite Ht.
    match goal with
    | |- bind (print quiet ?m) _ ?s1 = _ => step (print_at m s1)
    end.
    reflexivity.
  - split; reflexivity.
Qed.

(** The child stays alive and no line it prints shows the expected
    output: the loop goes on to the deadline. *)
Lemma loop_runs_to_deadline fuel :
  forall s,
    1000 * timeout - (now s - start_time) <= 100 * Z.of_nat fuel ->
    returncode (object_at h s) = None ->
    (forall n, env_poll E h n = None) ->
    (forall n, env_readline E h n <> ReadBlocks
               /\ sees_marker expected_output (env_readline E h n) = false) ->
    exists s', loop (S fuel) s = (Ret false, s')
               /\ (exists d, out s'
                             = EPrint (MNotReady server_name timeout) :: d ++ out s)
               /\ 1000 * timeout <= now s' - start_time.
Proof.
  induction fuel as [| fuel IH]; intros s Hrem Hrc Hp Hr.
  all: pose proof (N2Z.is_nonneg (env_lag E (n_time s))) as Hlag.
  all: destruct (Z.lt_ge_cases (reading E s - start_time) (1000 * timeout))
         as [Htest | Htest].
  2, 4: match goal with
        | |- context [wait_loop _ _ (S ?f)] =>
          destruct (loop_deadline f s Htest) as [s' [Hl [Ho Hn]]]
        end; exists s';
    (split; [exact Hl |]); (split; [exists []; exact Ho | rewrite Hn; exact Htest]).
  - unfold reading in Htest. lia.
  - destruct (Hr (n_read s)) as [Hb Hm].
    destruct (loop_again E server_name expected_output h start_time timeout
                (S fuel) s Htest Hrc (Hp _) Hb Hm)
      as [s1 [Hl [Hnow [_ [_ [_ [Hob [_ [d1 Hd1]]]]]]]]].
    destruct (IH s1) as [s' [Hl' [[d2 Hd2] Hlate]]]; auto.
    + rewrite Hnow. unfold reading. lia.
    + unfold object_at in *. rewrite Hob. exact Hrc.
    + exists s'. rewrite Hl. split; [exact Hl' |]. split; [ | exact Hlate ].
      exists (d2 ++ d1). rewrite Hd2, Hd1, app_assoc. reflexivity.
Qed.

(** The loop answers [True] only after a read that showed the expected
    output. *)
Lemma loop_true_only_on_marker fuel :
  forall s,
    fst (loop fuel s) = Ret true ->
    exists n, sees_marker expected_output (env_readline E h n) = true.
Proof.
  induction fuel as [| fuel IH]; intros s Ht; [discriminate |].
  destruct (Z.lt_ge_cases (reading E s - start_time) (1000 * timeout))
    as [Htest | Htest].
  2: { destruct (loop_timed_out E server_name expected_output h start_time
                   timeout fuel s Htest) as [s' [Hl _]].
       rewrite Hl in Ht. discriminate. }
  destruct (returncode (object_at h s)) as [rc |] eqn:Hrc.
  { destruct (loop_exit_known E server_name expected_output h start_time
                timeout fuel s rc Htest Hrc) as [s' [Hl _]].
    rewrite Hl in Ht. discriminate. }
  destruct (env_poll E h (n_poll s)) as [rc |] eqn:Hp.
  { destruct (loop_exit_seen E server_name expected_output h start_time
                timeout fuel s rc Htest Hrc Hp) as [s' [Hl _]].
    rewrite Hl in Ht. discriminate. }
  destruct (sees_marker expected_output (env_readline E h (n_read s))) eqn:Hm.
  { exists (n_read s). exact Hm. }
  destruct (env_readline E h (n_read s)) as [line | | ] eqn:Hr.
  3: { rewrite (loop_blocked E server_name expected_output h start_time
                  timeout fuel s Htest Hrc Hp Hr) in Ht. discriminate. }
  all: destruct (loop_again E server_name expected_output h start_time
                   timeout fuel s Htest Hrc Hp)
         as [s1 [Hl _]]; [rewrite Hr; discriminate | rewrite Hr; exact Hm |].
  all: rewrite Hl in Ht; exact (IH s1 Ht).
Qed.

End WaitOutcomes.

(** A child that stays alive and never prints a line containing the
    expected output, while every read comes back: [wait_for_server_ready]
    reports that the server did not become ready and returns [False], and
    by then at least [timeout] seconds have passed since the call. *)
Theorem wait_for_server_ready_times_out
    (E : env) (s : state) (server_name expected_output : str)
    (process : nat) (timeout : Z) :
  0 <= timeout ->
  returncode (object_at process s) = None ->
  (forall n, env_poll E process n = None) ->
  (forall n, env_readline E process n <> ReadBlocks
             /\ sees_marker expected_output (env_readline E process n) = false) ->
  let r := wait_for_server_ready E quiet server_name expected_output
             process timeout s in
  fst r = Ret false
  /\ hd_error (out (snd r)) = Some (EPrint (MNotReady server_name timeout))
  /\ 1000 * timeout <= now (snd r) - now s.
Proof.
  intros Ht Hrc Hp Hr. cbv zeta. rewrite wait_for_server_ready_unfold.
  pose proof (N2Z.is_nonneg (env_lag E (n_time s))) as Hlag.
  destruct (loop_runs_to_deadline E server_name expected_output process
              (now s + Z.of_N (env_lag E (n_time s))) timeout
              (Z.to_nat (10 * timeout)) (wait_entry E server_name s))
    as [s' [Hl [[d Hd] Hlate]]]; auto.
  - change (now (wait_entry E server_name s))
      with (now s + Z.of_N (env_lag E (n_time s))). lia.
  - rewrite Hl. cbn [fst snd]. rewrite Hd.
    split; [reflexivity |]. split; [reflexivity | lia].
Qed.

(** The build goes on and on: the child prints, but never the marker. *)
Definition compiling_for_ever : env :=
  {| env_exists := true;
     env_run := env_run Sample.calm;
     env_popen := env_popen Sample.calm;
     env_lag := env_lag Sample.calm;
     env_poll := fun _ _ => None;
     env_readline := fun _ _ => ReadBytes (u "compiling" ++ [nl]);
     env_wait := env_wait Sample.calm;
     env_client_lines := [];
     env_client_exit := Some 0;
     env_signal := None |}.

Lemma wait_for_server_ready_times_out_witness :
  let r := wait_for_server_ready compiling_for_ever quiet (u "Server2")
             (u "Server2 listening on") 0 30 (launched Server2 100 initial) in
  fst r = Ret false
  /\ hd_error (out (snd r)) = Some (EPrint (MNotReady (u "Server2") 30))
  /\ 1000 * 30 <= now (snd r) - now (launched Server2 100 initial).
Proof.
  apply (wait_for_server_ready_times_out compiling_for_ever
           (launched Server2 100 initial) (u "Server2")
           (u "Server2 listening on") 0 30).
  - lia.
  - reflexivity.
  - intros n. reflexivity.
  - intros n. split; [discriminate | vm_compute; reflexivity].
Defined.

(** [wait_for_server_ready] returns [True] only if one of the lines it
    read from the child, decoded and stripped, contains the expected
    output. *)
Theorem wait_for_server_ready_true_only_on_marker
    (E : env) (s : state) (server_name expected_output : str)
    (process : nat) (timeout : Z) :
  fst (wait_for_server_ready E quiet server_name expected_output
         process timeout s) = Ret true ->
  exists n line text,
    env_readline E process n = ReadBytes line
    /\ decode_utf8 line = Some text
    /\ contains expected_output (strip text) = true.
Proof.
  rewrite wait_for_server_ready_unfold. intros Ht.
  destruct (loop_true_only_on_marker E server_name expected_output process
              _ timeout _ _ Ht) as [n Hm].
  exists n. unfold sees_marker in Hm.
  destruct (env_readline E process n) as [line | | ]; try discriminate.
  apply andb_prop in Hm. destruct Hm as [_ Hm].
  destruct (decode_utf8 line) as [text |] eqn:Hd; [ | discriminate ].
  exists line, text. split; [reflexivity |]. split; [exact Hd | exact Hm].
Qed.

Lemma wait_for_server_ready_true_only_on_marker_witness :
  exists n line text,
    env_readline Sample.calm 0 n = ReadBytes line
    /\ decode_utf8 line = Some text
    /\ contains (u "Server2 listening on") (strip text) = true.
Proof.
  apply (wait_for_server_ready_true_only_on_marker Sample.calm
           (launched Server2 100 initial) (u "Server2")
           (u "Server2 listening on") 0 30).
  vm_compute. reflexivity.
Defined.

(** Errors of reading stay inside [wait_for_server_ready]: when no read
    blocks for ever, the call returns [True] or [False] whatever the reads
    bring ([OSError], bytes that are not UTF-8, end of file), after no
    more than [10 * timeout + 1] tests of the clock. *)
Theorem wait_for_server_ready_returns
    (E : env) (s : state) (server_name expected_output : str)
    (process : nat) (timeout : Z) :
  0 <= timeout ->
  (forall x n, env_readline E x n <> ReadBlocks) ->
  exists b,
    fst (wait_for_server_ready E quiet server_name expected_output
           process timeout s) = Ret b.
Proof.
  intros Ht Hr.
  destruct (wait_for_server_ready_always_ends E server_name expected_output
              process timeout s Ht) as [[b [Hb _]] | [_ [x [n Hx]]]].
  - exists b. exact Hb.
  - destruct (Hr x n Hx).
Qed.

(** Reads fail or bring bytes that are not text. *)
Definition garbled : env :=
  {| env_exists := true;
     env_run := env_run Sample.calm;
     env_popen := env_popen Sample.calm;
     env_lag := env_lag Sample.calm;
     env_poll := fun _ _ => None;
     env_readline := fun _ n =>
       if Nat.even n then ReadFails else ReadBytes [255%N; 254%N; 10%N];
     env_wait := env_wait Sample.calm;
     env_client_lines := [];
     env_client_exit := Some 0;
     env_signal := None |}.

Lemma wait_for_server_ready_returns_witness :
  exists b,
    fst (wait_for_server_ready garbled quiet (u "Server1")
           (u "Server1 listening on") 0 60 (launched Server1 100 initial))
    = Ret b.
Proof.
  apply (wait_for_server_ready_returns garbled (launched Server1 100 initial)
           (u "Server1") (u "Server1 listening on") 0 60).
  - lia.
  - intros x n. unfold garbled, env_readline. destruct (Nat.even n); discriminate.
Defined.

(** ** run_client: what it prints and what it answers *)

Section SteppingMore.

Variable E : env.

Lemma Popen_spawned_at argv s p :
  env_popen E (n_popen s) argv = Spawned p ->
  Popen E quiet argv s
  = (Ret (List.length (objects s)),
     count_popen
       (emit (EPopen argv true)
          (set_objects (objects s ++ [{| pid := p; returncode := None |}])
             (count_tick s)))).
Proof. intros H. unfold Popen, bind, quiet. cbn. rewrite H. reflexivity. Qed.

Lemma Popen_fails_at argv s f :
  env_popen E (n_popen s) argv = PopenFails f ->
  Popen E quiet argv s
  = (Raise (exn_of_failure f),
     count_popen (emit (EPopen argv false) (count_tick s))).
Proof. intros H. unfold Popen, bind, quiet. cbn. rewrite H. reflexivity. Qed.

Lemma wait_forever_at x s rc :
  env_client_exit E = Some rc ->
  wait_forever E quiet x s
  = (Ret rc, set_objects (store_returncode x rc (objects s)) (count_tick s)).
Proof. intros H. unfold wait_forever, bind, quiet. cbn. rewrite H. reflexivity. Qed.

End SteppingMore.

Ltac step_print :=
  match goal with
  | |- context [bind (print quiet ?m) _ ?s1] => step (print_at m s1)
  end.

(** The line of output that echoes a line of the client. *)
Definition echo (line : str) : event := EPrint (MClientLine (rstrip line)).

(** The state after the loop that echoes the client's lines. *)
Definition streamed (lines : list str) (s : state) : state :=
  fold_left (fun s line => emit (echo line) (count_tick s)) lines s.

Lemma stream_at (lines : list str) :
  forall s,
    for_each lines (fun line => print quiet (MClientLine (rstrip line))) s
    = (Ret tt, streamed lines s).
Proof.
  induction lines as [| line lines IH]; intros s; [reflexivity |].
  cbn [for_each]. step_print. apply IH.
Qed.

Lemma out_streamed (lines : list str) :
  forall s, out (streamed lines s) = rev (map echo lines) ++ out s.
Proof.
  induction lines as [| line lines IH]; intros s; [reflexivity |].
  cbn [streamed fold_left map rev]. fold (streamed lines).
  change (fold_left _ lines ?x) with (streamed lines x).
  rewrite IH, <- app_assoc. reflexivity.
Qed.

(** The last lines of [run_client], by the client's return code. *)
Definition verdict (rc : Z) : list event :=
  if rc =? 0 then [EPrint MClientCompleted; EPrint MRule]
  else [EPrint (MClientFailed rc)].

Ltac follow E p rc Hp Hexit Hrc :=
  unfold run_client; step_print; apply try_ret_at;
  match goal with
  | |- bind (Popen E quiet ?argv) _ ?s1 = _ =>
    step (Popen_spawned_at E argv s1 p Hp)
  end;
  step_print; step_print;
  match goal with
  | |- bind (for_each ?l _) _ ?s1 = _ => step (stream_at l s1)
  end;
  match goal with
  | |- bind (wait_forever E quiet ?x) _ ?s1 = _ =>
    step (wait_forever_at E x s1 rc Hexit)
  end;
  rewrite Hrc; repeat step_print; reflexivity.

Lemma run_client_launched_at (E : env) (s : state) (p rc : Z) :
  env_popen E (n_popen s) client_argv = Spawned p ->
  env_client_exit E = Some rc ->
  exists s',
    run_client E quiet s = (Ret (rc =? 0), s')
    /\ out s'
       = verdict rc ++ rev (map echo (env_client_lines E))
         ++ [EPrint MRule; EPrint MClientOutput;
             EPopen client_argv true; EPrint MRunningClient] ++ out s.
Proof.
  intros Hp Hexit. unfold verdict.
  destruct (rc =? 0) eqn:Hrc; eexists; (split; [follow E p rc Hp Hexit Hrc |]).
  all: cbn [out emit count_tick set_objects count_popen];
    rewrite out_streamed;
    cbn [out emit count_tick set_objects count_popen];
    reflexivity.
Qed.

Lemma run_client_unlaunched_at (E : env) (s : state) (f : os_failure) :
  env_popen E (n_popen s) client_argv = PopenFails f ->
  exists s',
    run_client E quiet s = (Ret false, s')
    /\ out s'
       = [EPrint (MFailedToRunClient (exn_of_failure f));
          EPopen client_argv false; EPrint MRunningClient] ++ out s.
Proof.
  intros Hp. eexists. split.
  - unfold run_client. step_print.
    match goal with
    | |- try_except (bind (Popen E quiet ?argv) ?k) ?cl ?s1 = _ =>
      rewrite (try_raise_at _ cl s1 _ _
                 (bind_raise_at _ k s1 _ _ (Popen_fails_at E argv s1 f Hp)))
    end.
    cbn [dispatch].
    change (caught_by [C_OSError; C_SubprocessError] (exn_of_failure f))
      with (os_error (exn_of_failure f)).
    rewrite exn_of_failure_os. step_print. reflexivity.
  - reflexivity.
Qed.


(** The client prints two lines and fails. *)
Definition failing_client : env :=
  {| env_exists := true;
     env_run := env_run Sample.calm;
     env_popen := env_popen Sample.calm;
     env_lag := env_lag Sample.calm;
     env_poll := env_poll Sample.calm;
     env_readline := env_readline Sample.calm;
     env_wait := env_wait Sample.calm;
     env_client_lines := [u "connecting  " ++ [nl]; u "error: refused" ++ [nl]];
     env_client_exit := Some 2;
     env_signal := None |}.


(** ** main: the two checks before the run *)

Lemma run_checked_fails_at (E : env) argv s rc text :
  env_run E (n_run s) argv = Completed rc text -> rc <> 0 ->
  subprocess_run E quiet argv true s
  = (Raise CalledProcessError, count_run (emit (ERun argv true) (count_tick s))).
Proof.
  intros H Hrc. apply Z.eqb_neq in Hrc.
  unfold subprocess_run, bind, quiet. cbn -[Z.eqb]. rewrite H, Hrc. reflexivity.
Qed.

Lemma sys_exit_at {A} code s :
  @sys_exit quiet A code s = (Raise (SystemExit code), count_tick s).
Proof. reflexivity. Qed.

(** Without a [justfile] in the current directory the script prints one
    line and exits with status 1; it runs no command and touches no
    port. *)
Theorem main_stops_without_justfile (E : env) :
  env_signal E = None ->
  env_exists E = false ->
  fst (run_myco E) = Exited 1
  /\ out (snd (run_myco E)) = [EPrint MNoJustfile].
Proof.
  intros Hsig Hex. rewrite (run_myco_quiet E Hsig), main_unfold, Hex.
  cbn [negb]. step_print.
  rewrite sys_exit_at. split; reflexivity.
Qed.

Definition elsewhere : env :=
  {| env_exists := false;
     env_run := env_run Sample.calm;
     env_popen := env_popen Sample.calm;
     env_lag := env_lag Sample.calm;
     env_poll := env_poll Sample.calm;
     env_readline := env_readline Sample.calm;
     env_wait := env_wait Sample.calm;
     env_client_lines := env_client_lines Sample.calm;
     env_client_exit := env_client_exit Sample.calm;
     env_signal := None |}.

Lemma main_stops_without_justfile_witness :
  fst (run_myco elsewhere) = Exited 1
  /\ out (snd (run_myco elsewhere)) = [EPrint MNoJustfile].
Proof. apply (main_stops_without_justfile elsewhere); reflexivity. Defined.

(** The advice to install [just], then [sys.exit(1)]. *)
Lemma advice_at (E : env) (e : exn) (s : state) :
  caught_by [C_CalledProcessError; C_FileNotFoundError] e = true ->
  dispatch
    [([C_CalledProcessError; C_FileNotFoundError], fun _ : exn =>
        print quiet MNoJust ;; print quiet MInstallHint ;; @sys_exit quiet unit 1)]
    e s
  = (Raise (SystemExit 1),
     count_tick (emit (EPrint MInstallHint)
                   (count_tick (emit (EPrint MNoJust) (count_tick s))))).
Proof.
  intros H. cbn [dispatch]. rewrite H. step_print. step_print. apply sys_exit_at.
Qed.

Lemma no_advice_at (e : exn) (s : state) :
  caught_by [C_CalledProcessError; C_FileNotFoundError] e = false ->
  dispatch
    [([C_CalledProcessError; C_FileNotFoundError], fun _ : exn =>
        print quiet MNoJust ;; print quiet MInstallHint ;; @sys_exit quiet unit 1)]
    e s
  = (Raise e, s).
Proof. intros H. cbn [dispatch]. rewrite H. reflexivity. Qed.

(** The check of [just --version] catches [CalledProcessError] and
    [FileNotFoundError] only.  When [just] ends with a return code other
    than 0 or is not found, the script prints its advice and exits with
    status 1.  Any other failure to run it (no permission, another
    [OSError]) is not caught: the script ends on the uncaught exception,
    with status 1 and without the advice.  In neither case is anything
    else run. *)
Theorem main_stops_without_just (E : env) :
  env_signal E = None ->
  env_exists E = true ->
  let r := run_myco E in
  match env_run E 0 version_argv with
  | Completed rc _ =>
    rc <> 0 ->
    fst r = Exited 1
    /\ out (snd r) = [EPrint MInstallHint; EPrint MNoJust; ERun version_argv true]
  | RunFails NotFound =>
    fst r = Exited 1
    /\ out (snd r) = [EPrint MInstallHint; EPrint MNoJust; ERun version_argv false]
  | RunFails _ =>
    fst r = Exited 1 /\ out (snd r) = [ERun version_argv false]
  end.
Proof.
  intros Hsig Hex. cbv zeta.
  rewrite (run_myco_quiet E Hsig), main_unfold, Hex. cbn [negb].
  set (s1 := count_tick initial). unfold precheck.
  destruct (env_run E 0 version_argv) as [rc text | f] eqn:Hrun.
  - intros Hrc.
    rewrite (bind_raise_at _ _ s1 (SystemExit 1) _
               (eq_trans
                  (try_raise_at _ _ s1 _ _
                     (bind_raise_at _ _ s1 _ _
                        (run_checked_fails_at E version_argv s1 rc text Hrun Hrc)))
                  (advice_at E CalledProcessError _ eq_refl))).
    split; reflexivity.
  - destruct f.
    + rewrite (bind_raise_at _ _ s1 (SystemExit 1) _
                 (eq_trans
                    (try_raise_at _ _ s1 _ _
                       (bind_raise_at _ _ s1 _ _
                          (run_fails_at E version_argv true s1 NotFound Hrun)))
                    (advice_at E FileNotFoundError _ eq_refl))).
      split; reflexivity.
    + rewrite (bind_raise_at _ _ s1 PermissionError _
                 (eq_trans
                    (try_raise_at _ _ s1 _ _
                       (bind_raise_at _ _ s1 _ _
                          (run_fails_at E version_argv true s1 NotPermitted Hrun)))
                    (no_advice_at PermissionError _ eq_refl))).
      split; reflexivity.
    + rewrite (bind_raise_at _ _ s1 OSError _
                 (eq_trans
                    (try_raise_at _ _ s1 _ _
                       (bind_raise_at _ _ s1 _ _
                          (run_fails_at E version_argv true s1 OtherOSError Hrun)))
                    (no_advice_at OSError _ eq_refl))).
      split; reflexivity.
    + rewrite (bind_raise_at _ _ s1 SubprocessError _
                 (eq_trans
                    (try_raise_at _ _ s1 _ _
                       (bind_raise_at _ _ s1 _ _
                          (run_fails_at E version_argv true s1
                             OtherSubprocessError Hrun)))
                    (no_advice_at SubprocessError _ eq_refl))).
      split; reflexivity.
Qed.

(** [just] is installed but may not be executed. *)
Definition just_forbidden : env :=
  {| env_exists := true;
     env_run := fun _ _ => RunFails NotPermitted;
     env_popen := env_popen Sample.calm;
     env_lag := env_lag Sample.calm;
     env_poll := env_poll Sample.calm;
     env_readline := env_readline Sample.calm;
     env_wait := env_wait Sample.calm;
     env_client_lines := env_client_lines Sample.calm;
     env_client_exit := env_client_exit Sample.calm;
     env_signal := None |}.

Lemma main_stops_without_just_witness :
  fst (run_myco just_forbidden) = Exited 1
  /\ out (snd (run_myco just_forbidden)) = [ERun version_argv false].
Proof. apply (main_stops_without_just just_forbidden); reflexivity. Defined.

(** ** run: when the ports cannot be freed *)

Definition pkill_servers : list str :=
  [u "pkill"; u "-9"; u "-f"; u "rpc_server"].

Definition pkill_cargo : list str :=
  [u "pkill"; u "-9"; u "-f"; u "cargo.*rpc_server"].

(** What [run] does once the first check has found a port in use. *)
Definition second_attempt (E : env) : M bool :=
  print quiet MStillInUse ;;
  subprocess_run E quiet pkill_servers false ;;
  subprocess_run E quiet pkill_cargo false ;;
  time_sleep quiet 1000 ;;
  cleanup_ports E quiet ;;
  free_now <- check_ports_free E quiet ;;
  if negb free_now then print quiet MUnableToFree ;; ret true else ret false.

Lemma signal_signal_at sg s :
  signal_signal quiet sg s
  = (Ret tt, set_handlers (sg :: handlers s) (count_tick s)).
Proof. reflexivity. Qed.

Lemma cleanup_ports_at (E : env) (s : state) :
  cleanup_ports E quiet s = (Ret PyNone, snd (cleanup_ports E quiet s)).
Proof.
  destruct (cleanup_ports_run E s) as [s1 [_ H]]. rewrite H. reflexivity.
Qed.

Lemma check_busy_at (E : env) (s : state) :
  reports_busy (env_run E (n_run s) (lsof_argv 3002)) = true ->
  check_ports_free E quiet s
  = (Ret false,
     emit (EPrint (MPortInUse 3002))
       (count_tick (count_run (emit (ERun (lsof_argv 3002) true) (count_tick s))))).
Proof.
  intros H. unfold check_ports_free, ports. cbn [check_ports_loop].
  unfold bind, try_except, subprocess_run, print, modify, ret, quiet. probe.
  destruct (env_run E (n_run s) (lsof_argv 3002)) as [rc text | f];
    [ | discriminate ].
  cbn [reports_busy] in H. probe. rewrite H. reflexivity.
Qed.

Ltac step_ports E :=
  match goal with
  | |- context [bind (cleanup_ports E quiet) _ ?s1] =>
    step (cleanup_ports_at E s1)
  end.

Ltac step_check E Hbusy :=
  match goal with
  | |- context [bind (check_ports_free E quiet) _ ?s1] =>
    step (check_busy_at E s1 (Hbusy (n_run s1)))
  end.

Lemma preflight_second_attempt (E : env) (s : state) :
  (forall n, reports_busy (env_run E n (lsof_argv 3002)) = true) ->
  exists s2, preflight E s = second_attempt E s2.
Proof.
  intros Hbusy. eexists. unfold preflight.
  step_print. step_print.
  match goal with
  | |- context [bind (signal_signal quiet ?sg) _ ?s1] => step (signal_signal_at sg s1)
  end.
  match goal with
  | |- context [bind (signal_signal quiet ?sg) _ ?s1] => step (signal_signal_at sg s1)
  end.
  step_print. step_ports E. step_check E Hbusy. cbn [negb].
  reflexivity.
Qed.

Lemma second_attempt_gives_in (E : env) (s : state) :
  (forall n, reports_busy (env_run E n (lsof_argv 3002)) = true) ->
  (forall n, exists rc text, env_run E n pkill_servers = Completed rc text) ->
  (forall n, exists rc text, env_run E n pkill_cargo = Completed rc text) ->
  exists s', second_attempt E s = (Ret true, s')
             /\ hd_error (out s') = Some (EPrint MUnableToFree).
Proof.
  intros Hbusy Hs Hc.
  set (s1 := emit (EPrint MStillInUse) (count_tick s)).
  destruct (Hs (n_run s1)) as [rc [text Hrun1]].
  set (s2 := count_run (emit (ERun pkill_servers true) (count_tick s1))).
  destruct (Hc (n_run s2)) as [rc' [text' Hrun2]].
  eexists. split.
  - unfold second_attempt. step_print.
    step (run_completed_at E pkill_servers s1 rc text Hrun1).
    step (run_completed_at E pkill_cargo s2 rc' text' Hrun2).
    match goal with
    | |- context [bind (time_sleep quiet ?ms) _ ?s3] => step (time_sleep_at ms s3)
    end.
    step_ports E. step_check E Hbusy. cbn [negb]. step_print. reflexivity.
  - reflexivity.
Qed.

Lemma second_attempt_escapes (E : env) (s : state) (f : os_failure) :
  (forall n, env_run E n pkill_servers = RunFails f) ->
  exists s', second_attempt E s = (Raise (exn_of_failure f), s')
             /\ hd_error (out s') = Some (ERun pkill_servers false).
Proof.
  intros Hs. eexists. split.
  - unfold second_attempt. step_print.
    match goal with
    | |- bind (subprocess_run E quiet ?argv false) ?k ?s1 = _ =>
      apply (bind_raise_at _ k s1 _ _ (run_fails_at E argv false s1 f (Hs _)))
    end.
  - reflexivity.
Qed.

(** Nothing is launched. *)
Definition no_launch (e : event) : bool :=
  match e with EPopen _ _ => false | _ => true end.

Lemma preflight_launches_nothing (E : env) (s : state) argv b :
  ~ In (EPopen argv b) (since s (snd (preflight E s))).
Proof.
  assert (H : acts_only no_launch s (snd (preflight E s)))
    by (apply preflight_acts; reflexivity).
  apply acts_only_since in H. rewrite forallb_forall in H.
  intros Hin. specialize (H _ Hin). discriminate.
Qed.

Lemma preflight_cleans_nothing (E : env) (s : state) :
  cleanups 0 (since s (snd (preflight E s))).
Proof.
  pose proof (preflight_prints E s) as P.
  split; [rewrite cleanups_started_printed; apply printed_ordinary_opening
         | rewrite cleanups_completed_printed; apply printed_ordinary_closing];
    exact P.
Qed.



Module Busy.

(** A process that no [kill] removes holds port 3002. *)
Definition held (pkill : run_result) : env :=
  Tools.with_tools (fun n argv =>
    if str_eqb (Tools.command argv) (u "lsof") then Completed 0 (u "4242" ++ [nl])
    else if str_eqb (Tools.command argv) (u "pkill") then pkill
    else Completed 1 []).

End Busy.



(** ** The order of the launches *)

Fixpoint argv_eqb (a b : list str) : bool :=
  match a, b with
  | [], [] => true
  | x :: a', y :: b' => str_eqb x y && argv_eqb a' b'
  | _, _ => false
  end.

Lemma str_eqb_refl a : str_eqb a a = true.
Proof. induction a as [| c a IH]; simpl; [reflexivity |]. rewrite N.eqb_refl. exact IH. Qed.

Lemma argv_eqb_refl a : argv_eqb a a = true.
Proof. induction a as [| c a IH]; simpl; [reflexivity |]. rewrite str_eqb_refl. exact IH. Qed.

(** [Popen] called with the command [argv], whether or not it gave a
    child. *)
Definition launch_of (argv : list str) (e : event) : bool :=
  match e with
  | EPopen a _ => argv_eqb a argv
  | _ => false
  end.

(** In the trace [t] (newest event first), every event that passes [x]
    comes after all the events of [needs]. *)
Definition after_all (x : event -> bool) (needs : list event)
    (t : list event) : Prop :=
  forall post e pre,
    t = post ++ e :: pre -> x e = true -> forall m, In m needs -> In m pre.

Lemma after_all_nil x needs : after_all x needs [].
Proof. intros post e pre H. destruct post; discriminate. Qed.

Lemma after_all_app x needs (new old : list event) :
  after_all x needs old ->
  (existsb x new = true -> forall m, In m needs -> In m old) ->
  after_all x needs (new ++ old).
Proof.
  intros Hold Hnew post e pre Heq Hx m Hm.
  apply app_eq_app in Heq. destruct Heq as [l [[H1 H2] | [H1 H2]]].
  - destruct l as [| e' l'].
    + cbn [app] in H2. apply (Hold [] e pre); auto.
    + cbn [app] in H2. injection H2 as -> ->.
      apply in_or_app. right. apply Hnew; [ | exact Hm ].
      rewrite H1. rewrite existsb_app. cbn [existsb]. rewrite Hx.
      rewrite orb_true_r. reflexivity.
  - apply (Hold l e pre); auto.
Qed.

(** The order is kept from one state to a later one. *)
Definition in_order (x : event -> bool) (needs : list event)
    (s s' : state) : Prop :=
  after_all x needs (out s) -> after_all x needs (out s').

Lemma in_order_refl x needs s : in_order x needs s s.
Proof. intros H. exact H. Qed.

Lemma in_order_trans x needs a b c :
  in_order x needs a b -> in_order x needs b c -> in_order x needs a c.
Proof. unfold in_order. auto. Qed.

Lemma acts_in_order x needs s s' :
  acts_only (fun e => negb (x e)) s s' -> in_order x needs s s'.
Proof.
  intros [d [Hd Hf]] H. rewrite Hd. apply after_all_app; [exact H |].
  intros Hex. exfalso. apply existsb_exists in Hex. destruct Hex as [e [He Hx]].
  rewrite forallb_forall in Hf. specialize (Hf e He). rewrite Hx in Hf.
  discriminate.
Qed.

Lemma ready_in_order x needs s s' :
  extends s s' -> (forall m, In m needs -> In m (out s)) ->
  in_order x needs s s'.
Proof.
  intros [d Hd] Hn H. rewrite Hd. apply after_all_app; [exact H |].
  intros _. exact Hn.
Qed.

Lemma in_since_out s s' x : extends s s' -> In x (since s s') -> In x (out s').
Proof.
  intros [d Hd]. rewrite (since_app _ _ _ Hd), Hd. intros H.
  apply in_or_app. left. exact H.
Qed.

Lemma in_out_later s s' x : extends s s' -> In x (out s) -> In x (out s').
Proof. intros [d Hd] H. rewrite Hd. apply in_or_app. right. exact H. Qed.

Section Order.

Variable E : env.
Variable x : event -> bool.
Variable needs : list event.

(** [x] singles out launches, the launch of Server2 not among them, and
    waits for nothing but the servers' reports of readiness; when it can
    be the launch of Server1, it waits for Server2 only. *)
Hypothesis x_launch : forall e, x e = true -> exists a b, e = EPopen a b.
Hypothesis x_not_server2 :
  forall b, x (EPopen (role_command Server2) b) = false.
Hypothesis needs_ready :
  forall m, In m needs ->
            m = EPrint (MReady (u "Server2")) \/ m = EPrint (MReady (u "Server1")).
Hypothesis server1_case :
  (forall b, x (EPopen (role_command Server1) b) = false)
  \/ (forall m, In m needs -> m = EPrint (MReady (u "Server2"))).

Local Abbreviation ok := (fun e => negb (x e)).
Local Abbreviation keeps m := (preserves (in_order x needs) m).

Lemma ok_other e : (forall a b, e <> EPopen a b) -> ok e = true.
Proof.
  intros H. cbv beta. destruct (x e) eqn:Hx; [ | reflexivity ].
  destruct (x_launch e Hx) as [a [b ->]]. destruct (H a b eq_refl).
Qed.

Lemma ok_print m : ok (EPrint m) = true.
Proof. apply ok_other. discriminate. Qed.

Lemma ok_sleep ms : ok (ESleep ms) = true.
Proof. apply ok_other. discriminate. Qed.

Lemma ok_run argv b : ok (ERun argv b) = true.
Proof. apply ok_other. discriminate. Qed.

Lemma ok_terminate h : ok (ETerminate h) = true.
Proof. apply ok_other. discriminate. Qed.

Lemma ok_kill h : ok (EKill h) = true.
Proof. apply ok_other. discriminate. Qed.

Lemma quiet_keeps {A} (m : M A) : preserves (acts_only ok) m -> keeps m.
Proof. intros H s. apply acts_in_order. apply H. Qed.

Lemma print_keeps_order m : keeps (print quiet m).
Proof. apply quiet_keeps. apply print_acts. exact ok_print. Qed.

Lemma steps_keeps : keeps (steps E).
Proof.
  intros s.
  pose proof (start_always_ends E Server2 s) as H2.
  assert (A2 : acts_only ok s (snd (start Server2 E quiet s))).
  { apply start_acts; [exact ok_print | exact ok_sleep |].
    intros b. cbv beta. rewrite x_not_server2. reflexivity. }
  change (start Server2 E quiet) with (start_server2 E quiet) in H2, A2.
  unfold steps. unfold bind at 1.
  destruct (start_server2 E quiet s) as [r2 sa].
  unfold start_ends in H2. cbn [fst snd] in H2, A2.
  pose proof (acts_in_order x needs _ _ A2) as O2.
  pose proof (acts_only_extends _ _ _ A2) as X2.
  destruct H2 as [[b2 [Hb2 Hm2]] | [Hb2 _]]; subst r2; [ | exact O2 ].
  destruct b2; cbn [negb]; cbv iota.
  2: { eapply in_order_trans; [exact O2 | apply print_keeps_order]. }
  specialize (Hm2 eq_refl). cbn [role_name] in Hm2.
  apply (in_since_out _ _ _ X2) in Hm2.
  pose proof (start_always_ends E Server1 sa) as H1.
  pose proof (prints_only_extends _ _ _ (start_prints E Server1 sa)) as X1.
  assert (O1 : in_order x needs sa (snd (start Server1 E quiet sa))).
  { destruct server1_case as [Hno | Hone].
    - apply acts_in_order.
      apply start_acts; [exact ok_print | exact ok_sleep |].
      intros b. cbv beta. rewrite Hno. reflexivity.
    - apply ready_in_order; [exact X1 |].
      intros m Hm. rewrite (Hone m Hm). exact Hm2. }
  change (start Server1 E quiet) with (start_server1 E quiet) in H1, X1, O1.
  unfold bind at 1.
  destruct (start_server1 E quiet sa) as [r1 sb].
  unfold start_ends in H1. cbn [fst snd] in H1, X1, O1.
  pose proof (in_order_trans _ _ _ _ _ O2 O1) as O21.
  destruct H1 as [[b1 [Hb1 Hm1]] | [Hb1 _]]; subst r1; [ | exact O21 ].
  destruct b1; cbn [negb]; cbv iota.
  2: { eapply in_order_trans; [exact O21 | apply print_keeps_order]. }
  specialize (Hm1 eq_refl). cbn [role_name] in Hm1.
  apply (in_since_out _ _ _ X1) in Hm1.
  apply (in_out_later _ _ _ X1) in Hm2.
  eapply in_order_trans; [exact O21 |].
  apply ready_in_order.
  - apply (prints_only_extends not_opening).
    apply (run_client_prints E not_opening not_opening_most eq_refl sb).
  - intros m Hm. destruct (needs_ready m Hm) as [-> | ->]; assumption.
Qed.

Ltac order_leaf :=
  idtac;
  lazymatch goal with
  | |- preserves _ (steps _) => apply steps_keeps
  | |- preserves _ (print _ _) => apply print_keeps_order
  | |- preserves _ (preflight _) =>
    apply quiet_keeps; apply preflight_acts;
    [exact ok_print | exact ok_sleep | exact ok_run]
  | |- preserves _ (precheck _) =>
    apply quiet_keeps; apply precheck_acts;
    [exact ok_print | exact ok_run]
  | |- preserves _ (cleanup _ _) =>
    apply quiet_keeps; apply cleanup_acts;
    [exact ok_print | exact ok_sleep | exact ok_run
     | exact ok_terminate | exact ok_kill]
  | |- preserves _ (sys_exit _ _) =>
    apply quiet_keeps; apply sys_exit_acts
  end.

Lemma run_keeps : keeps (run E quiet).
Proof.
  intros s. rewrite run_unfold. revert s.
  change (keeps (give_in <- preflight E ;;
                 if give_in then ret false
                 else try_finally (try_except (steps E) run_clauses)
                        (cleanup E quiet))).
  unfold run_clauses.
  repeat walk (in_order_refl x needs) (in_order_trans x needs) ltac:(order_leaf).
Qed.

Lemma main_keeps : keeps (main E quiet).
Proof.
  intros s. rewrite main_unfold.
  match goal with
  | |- in_order _ _ _ (snd (?m ?s1)) =>
    cut (preserves (in_order x needs) m); [intros H; exact (H s1) |]
  end.
  repeat walk (in_order_refl x needs) (in_order_trans x needs)
    ltac:(first [apply run_keeps | order_leaf]).
Qed.

End Order.

Lemma launch_of_launch argv e :
  launch_of argv e = true -> exists a b, e = EPopen a b.
Proof. destruct e; try discriminate. intros _. eauto. Qed.

(** When no signal arrives, the launches of a run come in order: by the
    time [Popen] is called for the client, both servers have been
    reported ready, and by the time it is called for Server1, Server2 has
    been reported ready. *)
Theorem launches_wait_for_readiness (E : env) :
  env_signal E = None ->
  after_all (launch_of client_argv)
    [EPrint (MReady (u "Server2")); EPrint (MReady (u "Server1"))]
    (out (snd (run_myco E)))
  /\ after_all (launch_of (role_command Server1))
       [EPrint (MReady (u "Server2"))]
       (out (snd (run_myco E))).
Proof.
  intros Hsig. rewrite (run_myco_quiet E Hsig). cbn [snd]. split.
  - apply (main_keeps E (launch_of client_argv)); try apply after_all_nil.
    + apply launch_of_launch.
    + intros b. vm_compute. reflexivity.
    + intros m [<- | [<- | []]]; auto.
    + left. intros b. vm_compute. reflexivity.
  - apply (main_keeps E (launch_of (role_command Server1))); try apply after_all_nil.
    + apply launch_of_launch.
    + intros b. vm_compute. reflexivity.
    + intros m [<- | []]; auto.
    + right. intros m [<- | []]. reflexivity.
Qed.

Lemma launches_wait_for_readiness_witness :
  (after_all (launch_of client_argv)
     [EPrint (MReady (u "Server2")); EPrint (MReady (u "Server1"))]
     (out (snd (run_myco Sample.calm)))
   /\ after_all (launch_of (role_command Server1))
        [EPrint (MReady (u "Server2"))]
        (out (snd (run_myco Sample.calm))))
  /\ existsb (launch_of client_argv) (out (snd (run_myco Sample.calm))) = true.
Proof.
  split.
  - apply (launches_wait_for_readiness Sample.calm). reflexivity.
  - vm_compute. reflexivity.
Defined.

(** ** Signals, wherever they arrive *)

(** Time does not go back, and nothing but the delivery of a signal
    marks the handler as entered. *)
Definition onward (s s' : state) : Prop :=
  (ticks s <= ticks s')%nat /\ signalled s' = signalled s.

Lemma onward_refl s : onward s s.
Proof. split; [apply Nat.le_refl | reflexivity]. Qed.

Lemma onward_trans a b c : onward a b -> onward b c -> onward a c.
Proof.
  intros [H1 H2] [H3 H4]. split; [eapply Nat.le_trans; eassumption |].
  rewrite H4. exact H2.
Qed.

Section Onward.

Variable E : env.

Local Abbreviation goes_on m := (preserves onward m).

Ltac operation :=
  intros s;
  unfold print, time_sleep, time_time, subprocess_run, Popen, poll, wait,
    readline, wait_forever, terminate, kill, signal_signal, os_path_exists,
    sys_exit, bind, modify, raise, ret, quiet;
  cbn; repeat case_scrutinee; split; first [apply Nat.le_succ_diag_r | reflexivity].

Lemma print_goes_on m : goes_on (print quiet m).
Proof. operation. Qed.

Lemma time_sleep_goes_on ms : goes_on (time_sleep quiet ms).
Proof. operation. Qed.

Lemma subprocess_run_goes_on argv check : goes_on (subprocess_run E quiet argv check).
Proof. operation. Qed.

Lemma poll_goes_on x : goes_on (poll E quiet x).
Proof. operation. Qed.

Lemma wait_goes_on x timeout : goes_on (wait E quiet x timeout).
Proof. operation. Qed.

Lemma terminate_goes_on x : goes_on (terminate quiet x).
Proof. operation. Qed.

Lemma kill_goes_on x : goes_on (kill quiet x).
Proof. operation. Qed.

Lemma modify_goes_on f :
  (forall s, ticks (f s) = ticks s /\ signalled (f s) = signalled s) ->
  goes_on (modify f).
Proof.
  intros H s. destruct (H s) as [H1 H2]. split; cbn; [rewrite H1; apply Nat.le_refl | exact H2].
Qed.

End Onward.

Ltac goes_on_leaf :=
  idtac;
  lazymatch goal with
  | |- preserves _ (print _ _) => apply print_goes_on
  | |- preserves _ (time_sleep _ _) => apply time_sleep_goes_on
  | |- preserves _ (modify _) => apply modify_goes_on; intros; split; reflexivity
  | |- preserves _ (subprocess_run _ _ _ _) => apply subprocess_run_goes_on
  | |- preserves _ (poll _ _ _) => apply poll_goes_on
  | |- preserves _ (wait _ _ _ _) => apply wait_goes_on
  | |- preserves _ (terminate _ _) => apply terminate_goes_on
  | |- preserves _ (kill _ _) => apply kill_goes_on
  end.

Lemma cleanup_goes_on (E : env) : preserves onward (cleanup E quiet).
Proof.
  unfold cleanup, stop_tracked, cleanup_ports, pgrep_kill, lsof_kill,
    netstat_kill, kill_each, swallow.
  repeat walk onward_refl onward_trans ltac:(goes_on_leaf).
Qed.

(** The handler, entered in the state [s]. *)
Lemma signal_handler_at (E : env) (sg : signum) (s : state) :
  exists s',
    signal_handler E quiet sg s = (Raise (SystemExit 0), s')
    /\ (ticks s < ticks s')%nat
    /\ signalled s' = signalled s
    /\ In (EPrint MCleanupCompleted) (out s').
Proof.
  unfold signal_handler. step_print.
  set (s0 := emit (EPrint (MReceivedSignal (signal_number sg))) (count_tick s)).
  destruct (cleanup_run E s0) as [s1 [d [Hc [Ho _]]]].
  pose proof (cleanup_goes_on E s0) as [Ht Hs]. rewrite Hc in Ht, Hs.
  cbn [snd] in Ht, Hs.
  rewrite (bind_ret_at _ _ _ _ _ Hc). rewrite sys_exit_at.
  exists (count_tick s1). split; [reflexivity |].
  split; [ | split ].
  - change (ticks (count_tick s1)) with (S (ticks s1)).
    change (ticks s0) with (S (ticks s)) in Ht. lia.
  - exact Hs.
  - change (out (count_tick s1)) with (out s1). rewrite Ho. left. reflexivity.
Qed.

(** After the signal has been dealt with, the operations go ahead as if
    no signal were ever to come. *)
Section Agrees.

Variable E : env.
Variable k : nat.
Variable T : M unit.

Hypothesis tick_after : forall s, (k < ticks s)%nat -> T s = quiet s.

(** From any state past the [k]-th operation, [m] and [m'] do the
    same. *)
Definition agrees {A} (m m' : M A) : Prop :=
  forall s, (k < ticks s)%nat ->
            m s = m' s /\ (k < ticks (snd (m' s)))%nat.

Lemma agrees_same {A} (m : M A) :
  (forall s, (ticks s <= ticks (snd (m s)))%nat) -> agrees m m.
Proof. intros H s Hs. split; [reflexivity |]. specialize (H s). lia. Qed.

Lemma agrees_bind {A B} (m m' : M A) (f f' : A -> M B) :
  agrees m m' -> (forall a, agrees (f a) (f' a)) ->
  agrees (bind m f) (bind m' f').
Proof.
  intros Hm Hf s Hs. destruct (Hm s Hs) as [He Ht]. unfold bind.
  rewrite He. destruct (m' s) as [[a | e | | g | ] s1]; cbn [snd] in Ht |- *;
    try (split; [reflexivity | exact Ht]).
  apply Hf. exact Ht.
Qed.

Lemma agrees_op {A} (f : M A) :
  (forall s, ticks (snd (f s)) = ticks s) ->
  agrees (bind T (fun _ => f)) (bind quiet (fun _ => f)).
Proof.
  intros Hf s Hs. unfold bind. rewrite (tick_after s Hs). unfold quiet.
  split; [reflexivity |].
  destruct (f (count_tick s)) as [r s1] eqn:Hr.
  assert (H : ticks s1 = ticks (count_tick s))
    by (rewrite <- (Hf (count_tick s)), Hr; reflexivity).
  cbn [snd]. destruct r; cbn [snd]; rewrite H; cbn; lia.
Qed.

Lemma agrees_for_each {A} (xs : list A) (f f' : A -> M unit) :
  (forall x, agrees (f x) (f' x)) -> agrees (for_each xs f) (for_each xs f').
Proof.
  intros H. induction xs as [| x xs IH]; cbn [for_each].
  - apply agrees_same. intros s. apply Nat.le_refl.
  - apply agrees_bind; [apply H | intros _; exact IH].
Qed.

Lemma agrees_dispatch {A} (cl cl' : list (list exn_class * (exn -> M A))) e :
  Forall2 (fun c c' => fst c = fst c' /\ forall e, agrees (snd c e) (snd c' e))
    cl cl' ->
  agrees (dispatch cl e) (dispatch cl' e).
Proof.
  induction 1 as [| [c h] [c' h'] l l' [Hc Hh] _ IH]; cbn [dispatch].
  - apply agrees_same. intros s. apply Nat.le_refl.
  - cbn [fst snd] in Hc, Hh. subst c'.
    destruct (caught_by c e); [apply Hh | exact IH].
Qed.

Lemma agrees_try {A} (body body' : M A) cl cl' :
  agrees body body' ->
  Forall2 (fun c c' => fst c = fst c' /\ forall e, agrees (snd c e) (snd c' e))
    cl cl' ->
  agrees (try_except body cl) (try_except body' cl').
Proof.
  intros Hb Hc s Hs. destruct (Hb s Hs) as [He Ht]. unfold try_except.
  rewrite He. destruct (body' s) as [[a | e | | g | ] s1]; cbn [snd] in Ht |- *;
    try (split; [reflexivity | exact Ht]).
  apply agrees_dispatch; assumption.
Qed.

End Agrees.

Ltac agrees_step k T Hafter :=
  cbv beta;
  lazymatch goal with
  | |- agrees _ (bind T (fun _ => _)) (bind quiet (fun _ => _)) =>
    apply (agrees_op k T Hafter); intros;
    unfold modify, raise, ret; cbn; repeat case_scrutinee; reflexivity
  | |- agrees _ (bind _ _) (bind _ _) => apply (agrees_bind k); [ | intros ]
  | |- agrees _ (for_each _ _) (for_each _ _) =>
    apply (agrees_for_each k); intros
  | |- agrees _ (try_except _ _) (try_except _ _) => apply (agrees_try k)
  | |- Forall2 _ [] [] => apply Forall2_nil
  | |- Forall2 _ (_ :: _) (_ :: _) =>
    apply Forall2_cons; [split; [reflexivity | cbn [snd]; intros] | ]
  | |- agrees _ (if ?b then _ else _) _ => destruct b
  | |- agrees _ (match ?x with Some _ => _ | None => _ end) _ => destruct x
  | |- agrees _ ?m ?m =>
    apply (agrees_same k); intros; unfold modify, get, ret; cbn; apply Nat.le_refl
  end.

Section AfterSignal.

Variable E : env.
Variable k : nat.
Variable T : M unit.

Hypothesis tick_after : forall s, (k < ticks s)%nat -> T s = quiet s.

Lemma cleanup_agrees : agrees k (cleanup E T) (cleanup E quiet).
Proof.
  unfold cleanup, stop_tracked, cleanup_ports, pgrep_kill, lsof_kill,
    netstat_kill, kill_each, swallow, print, time_sleep, subprocess_run,
    poll, wait, terminate, kill.
  repeat agrees_step k T tick_after.
Qed.

(** A [cleanup] begun after the signal has been dealt with runs to its
    end. *)
Lemma cleanup_resumes (s : state) :
  (k < ticks s)%nat ->
  exists s', cleanup E T s = (Ret tt, s')
             /\ (k < ticks s')%nat
             /\ signalled s' = signalled s
             /\ extends s s'.
Proof.
  intros Hs. destruct (cleanup_agrees s Hs) as [He Ht].
  destruct (cleanup_run E s) as [s' [d [Hc [Ho _]]]].
  pose proof (cleanup_goes_on E s) as [_ Hsig].
  rewrite Hc in Ht, Hsig. cbn [snd] in Ht, Hsig.
  exists s'. rewrite He, Hc. split; [reflexivity |].
  split; [exact Ht |]. split; [exact Hsig |].
  exists (EPrint MCleanupCompleted :: d ++ [EPrint MCleaningUp]).
  rewrite Ho. cbn [app]. rewrite <- app_assoc. reflexivity.
Qed.

End AfterSignal.

Lemma never_catches_exit classes code : caught_by classes (SystemExit code) = false.
Proof.
  unfold caught_by. induction classes as [| c cl IH]; [reflexivity |].
  cbn [existsb]. rewrite IH. destruct c; reflexivity.
Qed.

Lemma dispatch_exit {A} (clauses : list (list exn_class * (exn -> M A))) code s :
  dispatch clauses (SystemExit code) s = (Raise (SystemExit code), s).
Proof.
  induction clauses as [| [c h] rest IH]; cbn [dispatch]; [reflexivity |].
  rewrite never_catches_exit. exact IH.
Qed.

(** The handler has been entered, has run [cleanup] to its end and has
    raised [SystemExit(0)]; nothing has caught the exception. *)
Definition dealt_with (k : nat) {A} (r : result A * state) : Prop :=
  fst r = Raise (SystemExit 0)
  /\ (k < ticks (snd r))%nat
  /\ In (EPrint MCleanupCompleted) (out (snd r)).

(** If the handler is entered while [m] runs, [m] ends in that way. *)
Definition handled (k : nat) {A} (m : M A) : Prop :=
  forall s, signalled s = false -> signalled (snd (m s)) = true ->
            dealt_with k (m s).

(** After the signal, [fin] runs to its end. *)
Definition resumes (k : nat) (fin : M unit) : Prop :=
  forall s, (k < ticks s)%nat ->
            exists s', fin s = (Ret tt, s') /\ (k < ticks s')%nat /\ extends s s'.

Section Handled.

Variable k : nat.
Variable T : M unit.

Hypothesis tick_handled : handled k T.

Lemma handled_pure {A} (f : M A) :
  (forall s, signalled (snd (f s)) = signalled s) -> handled k f.
Proof. intros H s Hs Hf. rewrite H, Hs in Hf. discriminate. Qed.

Lemma handled_bind {A B} (m : M A) (f : A -> M B) :
  handled k m -> (forall a, handled k (f a)) -> handled k (bind m f).
Proof.
  intros Hm Hf s Hs. specialize (Hm s Hs). unfold bind.
  destruct (m s) as [r s1]. cbn [fst snd] in Hm.
  destruct (signalled s1) eqn:Hs1.
  - destruct (Hm eq_refl) as [Hr [Ht Hin]]. cbn [fst snd] in Hr, Ht, Hin.
    subst r. intros _. repeat split; assumption.
  - destruct r as [a | e | | g | ]; cbn [snd];
      try (intros Hc; rewrite Hs1 in Hc; discriminate).
    apply Hf. exact Hs1.
Qed.

Lemma handled_op {A} (f : M A) :
  (forall s, signalled (snd (f s)) = signalled s) ->
  handled k (bind T (fun _ => f)).
Proof.
  intros H. apply handled_bind; [exact tick_handled |].
  intros _. apply handled_pure. exact H.
Qed.

Lemma handled_for_each {A} (xs : list A) (body : A -> M unit) :
  (forall x, handled k (body x)) -> handled k (for_each xs body).
Proof.
  intros H. induction xs as [| x xs IH]; cbn [for_each].
  - apply handled_pure. reflexivity.
  - apply handled_bind; [apply H | intros _; exact IH].
Qed.

Lemma handled_dispatch {A} (clauses : list (list exn_class * (exn -> M A))) e :
  Forall (fun c => forall e, handled k (snd c e)) clauses ->
  handled k (dispatch clauses e).
Proof.
  induction 1 as [| [c h] rest Hh _ IH]; cbn [dispatch].
  - apply handled_pure. reflexivity.
  - destruct (caught_by c e); [apply Hh | exact IH].
Qed.

Lemma handled_try {A} (body : M A) clauses :
  handled k body ->
  Forall (fun c => forall e, handled k (snd c e)) clauses ->
  handled k (try_except body clauses).
Proof.
  intros Hb Hc s Hs. specialize (Hb s Hs). unfold try_except.
  destruct (body s) as [r s1]. cbn [fst snd] in Hb.
  destruct (signalled s1) eqn:Hs1.
  - destruct (Hb eq_refl) as [Hr [Ht Hin]]. cbn [fst snd] in Hr, Ht, Hin.
    subst r. rewrite dispatch_exit. intros _. repeat split; assumption.
  - destruct r as [a | e | | g | ]; cbn [snd];
      try (intros Hf; rewrite Hs1 in Hf; discriminate).
    apply handled_dispatch; assumption.
Qed.

Lemma handled_finally {A} (body : M A) (fin : M unit) :
  handled k body -> handled k fin -> resumes k fin ->
  handled k (try_finally body fin).
Proof.
  intros Hb Hf Hr s Hs. specialize (Hb s Hs). unfold try_finally.
  destruct (body s) as [r s1]. cbn [fst snd] in Hb.
  destruct (signalled s1) eqn:Hs1.
  - destruct (Hb eq_refl) as [Hx [Ht Hin]]. cbn [fst snd] in Hx, Ht, Hin.
    subst r. destruct (Hr s1 Ht) as [s2 [Hfin [Ht2 Hext]]].
    rewrite (bind_ret_at _ _ _ _ _ Hfin). intros _.
    split; [reflexivity |]. split; [exact Ht2 |].
    apply (in_out_later _ _ _ Hext). exact Hin.
  - destruct r as [a | e | | g | ]; cbn [snd];
      try (intros Hc; rewrite Hs1 in Hc; discriminate).
    + apply (handled_bind fin (fun _ => ret a));
        [exact Hf | intros _; apply handled_pure; reflexivity | exact Hs1].
    + apply (handled_bind fin (fun _ => raise e));
        [exact Hf | intros _; apply handled_pure; reflexivity | exact Hs1].
Qed.

End Handled.

Ltac handled_step k T Hh :=
  cbv beta;
  lazymatch goal with
  | |- handled _ (bind T (fun _ => _)) =>
    apply (handled_op k T Hh); intros;
    unfold modify, raise, ret; cbn; repeat case_scrutinee; reflexivity
  | |- handled _ (bind _ _) => apply (handled_bind k); [ | intros ]
  | |- handled _ (for_each _ _) => apply (handled_for_each k); intros
  | |- handled _ (try_except _ _) => apply (handled_try k)
  | |- Forall _ [] => apply Forall_nil
  | |- Forall _ (_ :: _) => apply Forall_cons; [cbn [snd]; intros | ]
  | |- handled _ (if ?b then _ else _) => destruct b
  | |- handled _ (match ?x with Some _ => _ | None => _ end) => destruct x
  | |- handled _ (let _ := _ in _) => cbv zeta
  | |- handled _ (ret _) => apply (handled_pure k); reflexivity
  | |- handled _ get => apply (handled_pure k); reflexivity
  | |- handled _ (raise _) => apply (handled_pure k); reflexivity
  | |- handled _ (modify _) => apply (handled_pure k); intros; reflexivity
  end.

Section HandledProgram.

Variable E : env.
Variable k : nat.
Variable T : M unit.

Hypothesis tick_handled : handled k T.
Hypothesis tick_after : forall s, (k < ticks s)%nat -> T s = quiet s.

Lemma cleanup_ports_handled : handled k (cleanup_ports E T).
Proof.
  unfold cleanup_ports, pgrep_kill, lsof_kill, netstat_kill, kill_each,
    swallow, print, time_sleep, subprocess_run.
  repeat handled_step k T tick_handled.
Qed.

Lemma check_ports_free_handled : handled k (check_ports_free E T).
Proof.
  unfold check_ports_free, ports. cbn [check_ports_loop].
  unfold print, subprocess_run.
  repeat handled_step k T tick_handled.
Qed.

Lemma cleanup_handled : handled k (cleanup E T).
Proof.
  unfold cleanup, stop_tracked, swallow, print, poll, terminate, wait, kill,
    subprocess_run.
  repeat handled_step k T tick_handled.
  all: apply cleanup_ports_handled.
Qed.

Lemma wait_loop_handled fuel name marker x start timeout :
  handled k (wait_loop E T fuel name marker x start timeout).
Proof.
  induction fuel as [| fuel IH]; cbn [wait_loop].
  - apply handled_pure. reflexivity.
  - unfold time_time, poll, readline, print, time_sleep.
    repeat handled_step k T tick_handled.
    all: exact IH.
Qed.

Lemma wait_for_server_ready_handled name marker x timeout :
  handled k (wait_for_server_ready E T name marker x timeout).
Proof.
  unfold wait_for_server_ready, print, time_time.
  repeat handled_step k T tick_handled.
  all: apply wait_loop_handled.
Qed.

Lemma start_server2_handled : handled k (start_server2 E T).
Proof.
  unfold start_server2, print, Popen.
  repeat handled_step k T tick_handled.
  all: apply wait_for_server_ready_handled.
Qed.

Lemma start_server1_handled : handled k (start_server1 E T).
Proof.
  unfold start_server1, print, Popen.
  repeat handled_step k T tick_handled.
  all: apply wait_for_server_ready_handled.
Qed.

Lemma run_client_handled : handled k (run_client E T).
Proof.
  unfold run_client, print, Popen, wait_forever.
  repeat handled_step k T tick_handled.
Qed.

Lemma cleanup_carries_on : resumes k (cleanup E T).
Proof.
  intros s Hs.
  destruct (cleanup_resumes E k T tick_after s Hs) as [s' [Hc [Ht [_ Hx]]]].
  exists s'. auto.
Qed.

Lemma run_handled : handled k (run E T).
Proof.
  unfold run, print, signal_signal, subprocess_run, time_sleep.
  repeat handled_step k T tick_handled.
  all: try apply cleanup_ports_handled.
  all: try apply check_ports_free_handled.
  apply handled_finally;
    [ | apply cleanup_handled | apply cleanup_carries_on ].
  repeat handled_step k T tick_handled.
  all: first [apply start_server2_handled | apply start_server1_handled
             | apply run_client_handled].
Qed.

Lemma main_handled : handled k (main E T).
Proof.
  unfold main, os_path_exists, print, sys_exit, subprocess_run.
  repeat handled_step k T tick_handled.
  all: apply run_handled.
Qed.

End HandledProgram.

Lemma quiet_handled k : handled k quiet.
Proof. apply handled_pure. reflexivity. Qed.

Lemma deliver_handled (E : env) (k : nat) (sg : signum) :
  handled k (deliver E (Some (k, sg))).
Proof.
  intros s Hs. unfold deliver.
  destruct (Nat.eqb (ticks s) k) eqn:Hk;
    [ | cbn [snd]; intros Hf; cbn in Hf; rewrite Hs in Hf; discriminate ].
  destruct (existsb (signum_eqb sg) (handlers s)).
  - apply Nat.eqb_eq in Hk.
    destruct (signal_handler_at E sg
                (set_signalled (emit (EHandler sg) (count_tick s))))
      as [s' [Hrun [Ht [_ Hin]]]].
    rewrite Hrun. intros _. split; [reflexivity |].
    split; [ | exact Hin ].
    cbn [snd]. change (ticks (set_signalled _)) with (S (ticks s)) in Ht. lia.
  - destruct sg; cbn [default_action snd raise];
      intros Hf; cbn in Hf; rewrite Hs in Hf; discriminate.
Qed.

Lemma deliver_after (E : env) (k : nat) (sg : signum) (s : state) :
  (k < ticks s)%nat -> deliver E (Some (k, sg)) s = quiet s.
Proof.
  intros H. unfold deliver.
  assert (Hk : Nat.eqb (ticks s) k = false) by (apply Nat.eqb_neq; lia).
  rewrite Hk. reflexivity.
Qed.



(** ** The clause for KeyboardInterrupt *)

(** The message of the [except KeyboardInterrupt] clause of [run] has not
    been printed. *)
Definition uninterrupted (t : list event) : Prop :=
  ~ In (EPrint MInterrupted) t.

(** The handler for [SIGINT] stays installed and the message stays
    unprinted. *)
Definition grows (s s' : state) : Prop :=
  (In SIGINT (handlers s) -> In SIGINT (handlers s'))
  /\ (uninterrupted (out s) -> uninterrupted (out s')).

(** The same, for a step that starts with the handler installed. *)
Definition guarded (s s' : state) : Prop :=
  In SIGINT (handlers s) ->
  In SIGINT (handlers s') /\ (uninterrupted (out s) -> uninterrupted (out s')).

Lemma grows_refl s : grows s s.
Proof. split; auto. Qed.

Lemma grows_trans a b c : grows a b -> grows b c -> grows a c.
Proof. intros [H1 H2] [H3 H4]. split; auto. Qed.

Lemma guarded_refl s : guarded s s.
Proof. intros H. split; auto. Qed.

Lemma guarded_trans a b c : guarded a b -> guarded b c -> guarded a c.
Proof.
  intros Hab Hbc Ha. destruct (Hab Ha) as [Hb H1]. destruct (Hbc Hb) as [Hc H2].
  split; auto.
Qed.

Lemma grows_guarded {A} (m : M A) : preserves grows m -> preserves guarded m.
Proof. intros H s Hs. destruct (H s) as [H1 H2]. split; auto. Qed.

(** State functions that involve no [tick]: by evaluation. *)
Ltac grows_pure :=
  let s := fresh "s" in
  intros s; split;
  [ unfold modify, ret, raise, get, quiet; cbn; repeat case_scrutinee; cbn; auto
  | unfold uninterrupted, modify, ret, raise, get, quiet; cbn;
    repeat case_scrutinee; cbn;
    first [ tauto
          | let H := fresh "H" in let Heq := fresh "Heq" in
            let Hin := fresh "Hin" in
            intros H [Heq | Hin]; [discriminate | exact (H Hin)] ] ].

Lemma cleanup_quiet_grows (E : env) : preserves grows (cleanup E quiet).
Proof.
  unfold cleanup, stop_tracked, cleanup_ports, pgrep_kill, lsof_kill,
    netstat_kill, kill_each, swallow, print, time_sleep, subprocess_run,
    poll, wait, terminate, kill.
  repeat walk grows_refl grows_trans ltac:(idtac; grows_pure).
Qed.

Lemma signal_handler_quiet_grows (E : env) sg :
  preserves grows (signal_handler E quiet sg).
Proof.
  unfold signal_handler, print, sys_exit.
  repeat walk grows_refl grows_trans
    ltac:(first [apply cleanup_quiet_grows | grows_pure]).
Qed.

(** [KeyboardInterrupt] comes out of [m] only where no handler for
    [SIGINT] is installed. *)
Definition interrupt_unhandled {A} (m : M A) : Prop :=
  forall s, fst (m s) = Raise KeyboardInterrupt ->
            ~ In SIGINT (handlers (snd (m s))).

Lemma unhandled_bind {A B} (m : M A) (f : A -> M B) :
  interrupt_unhandled m -> (forall a, interrupt_unhandled (f a)) ->
  interrupt_unhandled (bind m f).
Proof.
  intros Hm Hf s. specialize (Hm s). unfold bind.
  destruct (m s) as [[a | e | | g | ] s1]; cbn [fst snd] in *;
    try discriminate; [apply Hf |].
  intros H. apply Hm. injection H as ->. reflexivity.
Qed.

Lemma unhandled_for_each {A} (xs : list A) (body : A -> M unit) :
  (forall x, interrupt_unhandled (body x)) ->
  interrupt_unhandled (for_each xs body).
Proof.
  intros H. induction xs as [| x xs IH]; cbn [for_each].
  - intros s Hs. discriminate.
  - apply unhandled_bind; [apply H | intros _; exact IH].
Qed.

Lemma unhandled_try {A} (body : M A) clauses :
  interrupt_unhandled body ->
  Forall (fun c => forall e, interrupt_unhandled (snd c e)) clauses ->
  interrupt_unhandled (try_except body clauses).
Proof.
  intros Hb Hc s. specialize (Hb s). unfold try_except.
  destruct (body s) as [[a | e | | g | ] s1]; cbn [fst snd] in *;
    try discriminate.
  induction Hc as [| [c h] rest Hh _ IH]; cbn [dispatch].
  - exact Hb.
  - destruct (caught_by c e); [apply Hh | exact IH].
Qed.

Ltac unhandled_pure :=
  let s := fresh "s" in
  let H := fresh "H" in
  intros s H; exfalso; revert H;
  unfold modify, ret, raise, get; cbn; repeat case_scrutinee; cbn;
  try discriminate;
  repeat match goal with f : os_failure |- _ => destruct f end;
  cbn; discriminate.

Ltac unhandled_step T HT :=
  cbv beta;
  lazymatch goal with
  | |- interrupt_unhandled T => exact HT
  | |- interrupt_unhandled (bind _ _) => apply unhandled_bind; [ | intros ]
  | |- interrupt_unhandled (for_each _ _) => apply unhandled_for_each; intros
  | |- interrupt_unhandled (try_except _ _) => apply unhandled_try
  | |- Forall _ [] => apply Forall_nil
  | |- Forall _ (_ :: _) => apply Forall_cons; [cbn [snd]; intros | ]
  | |- interrupt_unhandled (if ?b then _ else _) => destruct b
  | |- interrupt_unhandled (match ?x with Some _ => _ | None => _ end) =>
    destruct x
  | |- interrupt_unhandled (let _ := _ in _) => cbv zeta
  | |- interrupt_unhandled (wait_loop _ _ _ _ _ _ _ _) => fail
  | |- interrupt_unhandled _ => unhandled_pure
  end.

Lemma only_interrupt_caught e :
  caught_by [C_KeyboardInterrupt] e = true -> e = KeyboardInterrupt.
Proof. destruct e; try discriminate. reflexivity. Qed.

(** The [try] statement of [run], entered with the handler for [SIGINT]
    installed: its first clause is never chosen. *)
Lemma run_try_guarded {A} (body : M A) (h1 h2 : exn -> M A) classes :
  preserves guarded body ->
  interrupt_unhandled body ->
  (forall e, preserves guarded (h2 e)) ->
  preserves guarded
    (try_except body [([C_KeyboardInterrupt], h1); (classes, h2)]).
Proof.
  intros Hb Hu Hh s Hs. specialize (Hb s Hs). specialize (Hu s).
  unfold try_except. destruct (body s) as [r s1]. cbn [fst snd] in Hb, Hu.
  destruct Hb as [H1 Hout].
  destruct r as [a | e | | g | ]; cbn [snd]; try (split; assumption).
  cbn [dispatch].
  destruct (caught_by [C_KeyboardInterrupt] e) eqn:Hc.
  - apply only_interrupt_caught in Hc. subst e. destruct (Hu eq_refl H1).
  - destruct (caught_by classes e).
    + destruct (Hh e s1 H1) as [H2 Hout2]. split; auto.
    + split; assumption.
Qed.

Section DeadClause.

Variable E : env.
Variable T : M unit.

Hypothesis T_grows : preserves grows T.
Hypothesis T_unhandled : interrupt_unhandled T.

Ltac grows_leaf0 :=
  idtac;
  lazymatch goal with
  | |- preserves _ T => exact T_grows
  | |- preserves _ (wait_loop _ _ _ _ _ _ _ _) => fail
  | |- preserves _ (cleanup_ports _ _) => fail
  | |- preserves _ (check_ports_free _ _) => fail
  | |- preserves _ (cleanup _ _) => fail
  | |- preserves _ _ => grows_pure
  end.

Ltac grows_walk := repeat walk grows_refl grows_trans ltac:(grows_leaf0).

Lemma cleanup_ports_grows : preserves grows (cleanup_ports E T).
Proof.
  unfold cleanup_ports, pgrep_kill, lsof_kill, netstat_kill, kill_each,
    swallow, print, time_sleep, subprocess_run.
  grows_walk.
Qed.

Lemma check_ports_free_grows : preserves grows (check_ports_free E T).
Proof.
  unfold check_ports_free, ports. cbn [check_ports_loop].
  unfold print, subprocess_run. grows_walk.
Qed.

Lemma cleanup_grows : preserves grows (cleanup E T).
Proof.
  unfold cleanup, stop_tracked, swallow, print, poll, terminate, wait, kill,
    subprocess_run.
  grows_walk. all: apply cleanup_ports_grows.
Qed.

Lemma wait_loop_grows fuel name marker x start timeout :
  preserves grows (wait_loop E T fuel name marker x start timeout).
Proof.
  induction fuel as [| fuel IH]; cbn [wait_loop].
  - grows_pure.
  - unfold time_time, poll, readline, print, time_sleep.
    grows_walk. all: exact IH.
Qed.

Lemma wait_loop_unhandled fuel name marker x start timeout :
  interrupt_unhandled (wait_loop E T fuel name marker x start timeout).
Proof.
  induction fuel as [| fuel IH]; cbn [wait_loop].
  - intros s H. discriminate.
  - unfold time_time, poll, readline, print, time_sleep.
    repeat unhandled_step T T_unhandled. all: exact IH.
Qed.

Ltac guarded_leaf :=
  idtac;
  lazymatch goal with
  | |- preserves _ (wait_loop _ _ _ _ _ _ _ _) =>
    apply grows_guarded; apply wait_loop_grows
  | |- preserves _ (cleanup_ports _ _) =>
    apply grows_guarded; apply cleanup_ports_grows
  | |- preserves _ (check_ports_free _ _) =>
    apply grows_guarded; apply check_ports_free_grows
  | |- preserves _ (cleanup _ _) =>
    apply grows_guarded; apply cleanup_grows
  | |- preserves _ _ => apply grows_guarded; grows_leaf0
  end.

Ltac guarded_step :=
  lazymatch goal with
  | |- preserves _ (try_except _ [(_, _); (_, _)]) =>
    apply run_try_guarded; [ | | intros ]
  | |- _ => walk guarded_refl guarded_trans ltac:(guarded_leaf)
  end.

(** Installing the handler for [SIGINT], then the rest. *)
Lemma install_then {A} (rest : M A) :
  preserves guarded rest ->
  preserves grows (signal_signal T SIGINT ;; rest).
Proof.
  intros Hr s. destruct (T_grows s) as [Hh Ho].
  unfold signal_signal, bind, modify.
  destruct (T s) as [[[] | e | | g | ] s1]; cbn [fst snd] in *;
    try (split; assumption).
  set (s2 := set_handlers (SIGINT :: handlers s1) s1).
  destruct (Hr s2) as [H1 H2]; [left; reflexivity |].
  split; [intros _; exact H1 |].
  intros Hu. apply H2. exact (Ho Hu).
Qed.

Lemma run_grows : preserves grows (run E T).
Proof.
  unfold run.
  apply (preserves_bind _ grows_trans);
    [unfold print; grows_walk | intros _].
  apply (preserves_bind _ grows_trans);
    [unfold print; grows_walk | intros _].
  apply install_then.
  unfold start_server2, start_server1, run_client, wait_for_server_ready,
    signal_signal, print, time_sleep, time_time, subprocess_run, Popen,
    wait_forever.
  repeat guarded_step.
  all: repeat unhandled_step T T_unhandled.
  all: apply wait_loop_unhandled.
Qed.

Lemma main_grows : preserves grows (main E T).
Proof.
  unfold main, os_path_exists, print, sys_exit, subprocess_run.
  repeat walk grows_refl grows_trans
    ltac:(idtac; lazymatch goal with
                 | |- preserves _ (run _ _) => apply run_grows
                 | |- _ => grows_leaf0
                 end).
Qed.

End DeadClause.

Lemma deliver_grows (E : env) pending : preserves grows (deliver E pending).
Proof.
  intros s. unfold deliver. destruct pending as [[k sg] |]; [ | revert s; grows_pure ].
  destruct (Nat.eqb (ticks s) k); [ | split; cbn; auto ].
  destruct (existsb (signum_eqb sg) (handlers s)).
  - apply (grows_trans _ (set_signalled (emit (EHandler sg) (count_tick s)))).
    + split; cbn; [auto |].
      intros H [Heq | Hin]; [discriminate | exact (H Hin)].
    + apply signal_handler_quiet_grows.
  - destruct sg; split; cbn; auto.
Qed.

Lemma deliver_unhandled (E : env) pending :
  interrupt_unhandled (deliver E pending).
Proof.
  intros s. unfold deliver. destruct pending as [[k sg] |]; [ | discriminate ].
  destruct (Nat.eqb (ticks s) k); [ | discriminate ].
  destruct (existsb (signum_eqb sg) (handlers s)) eqn:Hex.
  - destruct (signal_handler_at E sg
                (set_signalled (emit (EHandler sg) (count_tick s))))
      as [s' [Hrun _]].
    rewrite Hrun. discriminate.
  - destruct sg; [ | discriminate ].
    intros _ Hin. cbn in Hin.
    assert (Ht : existsb (signum_eqb SIGINT) (handlers s) = true)
      by (apply existsb_exists; exists SIGINT; split; [exact Hin | reflexivity]).
    rewrite Ht in Hex. discriminate.
Qed.

(** The [except KeyboardInterrupt] clause of [run] is never taken: in no
    environment, with or without a signal, does the script print that it
    was interrupted by the user.  [run] installs its handler for [SIGINT]
    before it enters the [try] statement, so [SIGINT] no longer raises
    [KeyboardInterrupt] there. *)
Theorem interrupted_message_never_printed (E : env) :
  ~ In (EPrint MInterrupted) (out (snd (run_myco E))).
Proof.
  unfold run_myco.
  pose proof (main_grows E (deliver E (env_signal E))
                (deliver_grows E (env_signal E))
                (deliver_unhandled E (env_signal E)) initial) as [_ H].
  destruct (main E (deliver E (env_signal E)) initial) as [r s].
  cbn [snd] in *. apply H. intros [].
Qed.

(** ** cleanup: no tracked child is passed over *)

Definition anything (e : event) : bool := true.

Lemma stop_tracked_extends (E : env) x s :
  extends s (snd (stop_tracked E quiet x s)).
Proof.
  apply (acts_only_extends anything). revert s.
  change (preserves (acts_only anything) (stop_tracked E quiet x)).
  unfold stop_tracked. acts_walk anything.
Qed.

Lemma stop_tracked_returns (E : env) x s :
  fst (stop_tracked E quiet x s) = Ret tt.
Proof.
  assert (H : raises_only never (stop_tracked E quiet x)).
  { unfold stop_tracked. repeat returns_step.
    apply wait_then_returns. intros _. repeat returns_step.
    apply wait_then_returns. intros; apply raises_only_ret. }
  specialize (H s).
  destruct (fst (stop_tracked E quiet x s)) as [[] | e | | g | ];
    try contradiction; [reflexivity | discriminate].
Qed.

Lemma recorded_in_range h (o : list popen) :
  returncode (nth h o {| pid := 0; returncode := Some 0 |}) = None ->
  (h < List.length o)%nat.
Proof.
  intros H. destruct (Nat.lt_ge_cases h (List.length o)) as [Hlt | Hge];
    [exact Hlt |].
  rewrite (nth_overflow _ _ Hge) in H. discriminate.
Qed.

(** The child [h] has been sent [terminate()] since [s0], or its exit is
    on record. *)
Definition reached (h : nat) (s0 s' : state) : Prop :=
  In (ETerminate h) (since s0 s') \/ returncode (object_at h s') <> None.

Lemma reached_later h s0 s1 s2 :
  extends s0 s1 -> extends s1 s2 -> spares h s1 s2 ->
  reached h s0 s1 -> reached h s0 s2.
Proof.
  intros X1 X2 Hsp [Hin | Hrc].
  - left. apply (in_since_split s0 s1 s2 _ X1 X2). right. exact Hin.
  - right. destruct (Hsp Hrc) as [H _]. exact H.
Qed.

Lemma stop_tracked_reaches (E : env) h s :
  reached h s (snd (stop_tracked E quiet h s)).
Proof.
  destruct (returncode (object_at h s)) as [rc |] eqn:Hrc.
  - right.
    destruct (stop_tracked_spares E h h s) as [H _];
      [rewrite Hrc; discriminate | exact H].
  - destruct (env_poll E h (n_poll s)) as [rc |] eqn:Hp.
    + right. unfold stop_tracked, poll, bind, quiet, object_at in *. cbn.
      rewrite Hrc, Hp. cbn.
      rewrite store_returncode_at; [discriminate |].
      apply recorded_in_range. exact Hrc.
    + left.
      destruct (stop_tracked_begins E s h Hrc Hp) as [s3 [Hs [Ho _]]].
      rewrite Hs.
      match goal with
      | |- In _ (since s (snd (?m s3))) =>
        assert (X : extends s3 (snd (m s3)))
      end.
      { apply (acts_only_extends anything). revert s3 Hs Ho. intros s3 _ _.
        revert s3.
        match goal with
        | |- forall s3, acts_only _ s3 (snd (?m s3)) =>
          change (preserves (acts_only anything) m)
        end.
        acts_walk anything. }
      apply (in_since_split s s3 _ _ (ex_intro _ _ Ho) X). right.
      rewrite (since_app _ _ _ Ho). left. reflexivity.
Qed.

Lemma for_each_stop_returns (E : env) (ps : list nat) :
  forall s, fst (for_each ps (stop_tracked E quiet) s) = Ret tt.
Proof.
  induction ps as [| x ps IH]; intros s; [reflexivity |].
  cbn [for_each]. unfold bind.
  pose proof (stop_tracked_returns E x s) as H.
  destruct (stop_tracked E quiet x s) as [r s1]. cbn [fst] in H. subst r.
  apply IH.
Qed.

Lemma for_each_stop_extends (E : env) (ps : list nat) s :
  extends s (snd (for_each ps (stop_tracked E quiet) s)).
Proof.
  apply (acts_only_extends anything). revert s.
  change (preserves (acts_only anything) (for_each ps (stop_tracked E quiet))).
  unfold stop_tracked. acts_walk anything.
Qed.

Lemma for_each_stop_spares (E : env) h (ps : list nat) :
  preserves (spares h) (for_each ps (stop_tracked E quiet)).
Proof.
  apply (preserves_for_each _ (spares_refl h) (spares_trans h)).
  intros x. apply stop_tracked_spares.
Qed.

Lemma for_each_stop_reaches (E : env) h (ps : list nat) :
  forall s, In h ps ->
            reached h s (snd (for_each ps (stop_tracked E quiet) s)).
Proof.
  induction ps as [| x ps IH]; intros s Hin; [destruct Hin |].
  cbn [for_each]. unfold bind.
  pose proof (stop_tracked_returns E x s) as Hr.
  pose proof (stop_tracked_extends E x s) as X1.
  pose proof (stop_tracked_reaches E x s) as Hx.
  destruct (stop_tracked E quiet x s) as [r s1]. cbn [fst snd] in *. subst r.
  pose proof (for_each_stop_extends E ps s1) as X2.
  destruct (Nat.eq_dec x h) as [-> | Hne].
  - apply (reached_later h s s1 _ X1 X2); [apply for_each_stop_spares | exact Hx].
  - destruct Hin as [Heq | Hin]; [contradiction |].
    destruct (IH s1 Hin) as [H | H]; [left | right; exact H].
    apply (in_since_split s s1 _ _ X1 X2). left. exact H.
Qed.

(** What [cleanup] does after the loop over the tracked children. *)
Definition after_children (E : env) : M unit :=
  (cleanup_ports E quiet ;;
   try_except
     (subprocess_run E quiet [u "pkill"; u "-f"; u "rpc_server"] false ;; ret tt)
     swallow) ;;
  print quiet MCleanupCompleted.

Lemma cleanup_in_two (E : env) (s : state) :
  cleanup E quiet s
  = (for_each (processes s) (stop_tracked E quiet) ;; after_children E)
      (emit (EPrint MCleaningUp) (count_tick s)).
Proof.
  rewrite cleanup_unfold. unfold cleanup_body. rewrite bind_assoc.
  rewrite (bind_ret_at _ _ _ _ _ (get_at _)). cbv beta.
  rewrite bind_assoc. reflexivity.
Qed.

(** [cleanup] passes over no child it tracks: for every member of
    [self.processes], by the end of the call either [terminate()] has been
    sent to it or its exit is on record. *)
Theorem cleanup_reaches_every_tracked_child (E : env) (s : state) (h : nat) :
  In h (processes s) ->
  In (ETerminate h) (since s (snd (cleanup E quiet s)))
  \/ returncode (object_at h (snd (cleanup E quiet s))) <> None.
Proof.
  intros Hin.
  cut (reached h s (snd (cleanup E quiet s))); [intros H; exact H |].
  rewrite cleanup_in_two.
  set (s0 := emit (EPrint MCleaningUp) (count_tick s)).
  assert (X0 : extends s s0) by apply extends_emit.
  pose proof (for_each_stop_returns E (processes s) s0) as Hr.
  pose proof (for_each_stop_extends E (processes s) s0) as X1.
  pose proof (for_each_stop_reaches E h (processes s) s0 Hin) as Hreach.
  unfold bind at 1.
  destruct (for_each (processes s) (stop_tracked E quiet) s0) as [r s1].
  cbn [fst snd] in *. subst r.
  assert (Hafter : preserves (acts_only anything) (after_children E)).
  { unfold after_children, swallow. acts_walk anything.
    apply cleanup_ports_acts; reflexivity. }
  assert (Hsp : preserves (spares h) (after_children E)).
  { unfold after_children, swallow.
    apply (preserves_bind _ (spares_trans h)); [ | intros _; apply print_keeps ].
    apply (preserves_bind _ (spares_trans h));
      [apply cleanup_ports_spares | intros _].
    apply (preserves_try _ (spares_refl h) (spares_trans h)).
    - apply (preserves_bind _ (spares_trans h));
        [apply subprocess_run_keeps
        | intros _; apply (preserves_ret _ (spares_refl h))].
    - apply Forall_cons; [ | apply Forall_nil ].
      intros e. apply (preserves_ret _ (spares_refl h)). }
  pose proof (acts_only_extends _ _ _ (Hafter s1)) as X2.
  assert (R1 : reached h s s1).
  { destruct Hreach as [H | H]; [left | right; exact H].
    apply (in_since_split s s0 s1 _ X0 X1). left. exact H. }
  exact (reached_later h s s1 _ (extends_trans _ _ _ X0 X1) X2 (Hsp s1) R1).
Qed.

Lemma cleanup_reaches_every_tracked_child_witness :
  In (ETerminate 0)
    (since (launched Server2 100 initial)
       (snd (cleanup Sample.calm quiet (launched Server2 100 initial))))
  \/ returncode
       (object_at 0 (snd (cleanup Sample.calm quiet (launched Server2 100 initial))))
     <> None.
Proof.
  apply (cleanup_reaches_every_tracked_child Sample.calm
           (launched Server2 100 initial) 0).
  left. reflexivity.
Defined.

(** ** cleanup_ports: what lsof reports is killed *)

Lemma modify_at f s : modify f s = (Ret tt, f s).
Proof. reflexivity. Qed.

Lemma ret_at {A} (a : A) s : ret a s = (Ret a, s).
Proof. reflexivity. Qed.

(** One turn of the loop of [kill_each]. *)
Definition kill_one (E : env) (label : str -> msg) (pause : bool) (pid : str)
  : M unit :=
  if nonempty (strip pid) then
    print quiet (label pid) ;;
    subprocess_run E quiet (kill_argv (strip pid)) false ;;
    modify (set_killed_any true) ;;
    if pause then time_sleep quiet 100 else ret tt
  else ret tt.

Lemma kill_each_unfold (E : env) label pause pids :
  kill_each E quiet label pause pids = for_each pids (kill_one E label pause).
Proof. reflexivity. Qed.

(** [kill] can always be run. *)
Definition kill_runs (E : env) : Prop :=
  forall n pid, exists rc text, env_run E n (kill_argv pid) = Completed rc text.

Lemma kill_one_at (E : env) label pause pid s :
  kill_runs E ->
  exists s', kill_one E label pause pid s = (Ret tt, s')
             /\ extends s s'
             /\ (nonempty (strip pid) = true ->
                 In (ERun (kill_argv (strip pid)) true) (since s s')).
Proof.
  intros Hk. unfold kill_one.
  destruct (nonempty (strip pid)) eqn:Hne.
  2: { exists s. split; [reflexivity |]. split; [apply extends_refl |].
       discriminate. }
  set (s1 := emit (EPrint (label pid)) (count_tick s)).
  destruct (Hk (n_run s1) (strip pid)) as [rc [text Hrun]].
  assert (Hstep :
    forall (k : M unit) s2, k (set_killed_any true
                                 (count_run (emit (ERun (kill_argv (strip pid)) true)
                                               (count_tick s1)))) = (Ret tt, s2) ->
      (print quiet (label pid) ;;
       subprocess_run E quiet (kill_argv (strip pid)) false ;;
       modify (set_killed_any true) ;; k) s = (Ret tt, s2)).
  { intros k s2 Hk2. step_print.
    step (run_completed_at E (kill_argv (strip pid)) s1 rc text Hrun).
    match goal with
    | |- bind (modify ?f) _ ?s3 = _ => step (modify_at f s3)
    end.
    exact Hk2. }
  assert (Hdone :
    forall s', (exists d, out s' = d ++ [ERun (kill_argv (strip pid)) true;
                                         EPrint (label pid)] ++ out s) ->
      extends s s'
      /\ (true = true -> In (ERun (kill_argv (strip pid)) true) (since s s'))).
  { intros s' [d Ho]. split; [exists (d ++ [ERun (kill_argv (strip pid)) true;
                                            EPrint (label pid)]);
                              rewrite Ho, app_assoc; reflexivity |].
    intros _. rewrite app_assoc in Ho. rewrite (since_app _ _ _ Ho).
    apply in_or_app. right. left. reflexivity. }
  destruct pause; eexists; (split; [apply Hstep; reflexivity |]); apply Hdone.
  - exists [ESleep 100]. reflexivity.
  - exists []. reflexivity.
Qed.

Lemma kill_each_kills (E : env) label pause :
  kill_runs E ->
  forall pids s,
    exists s', kill_each E quiet label pause pids s = (Ret tt, s')
               /\ extends s s'
               /\ forall pid, In pid pids -> nonempty (strip pid) = true ->
                    In (ERun (kill_argv (strip pid)) true) (since s s').
Proof.
  intros Hk pids. rewrite kill_each_unfold.
  induction pids as [| pid pids IH]; intros s.
  - exists s. split; [reflexivity |]. split; [apply extends_refl |].
    intros pid [].
  - destruct (kill_one_at E label pause pid s Hk) as [s1 [H1 [X1 K1]]].
    destruct (IH s1) as [s' [H2 [X2 K2]]].
    exists s'. split.
    + cbn [for_each]. rewrite (bind_ret_at _ _ _ _ _ H1). exact H2.
    + split; [exact (extends_trans _ _ _ X1 X2) |].
      intros p [<- | Hin] Hne; apply (in_since_split s s1 s' _ X1 X2).
      * right. exact (K1 Hne).
      * left. exact (K2 p Hin Hne).
Qed.

Lemma blank_pieces text pid :
  nonempty (strip text) = false ->
  In pid (split_on nl (strip text)) -> nonempty (strip pid) = false.
Proof.
  intros H. destruct (strip text); [ | discriminate ].
  intros [<- | []]. reflexivity.
Qed.

Lemma lsof_kill_kills (E : env) (port : Z) (text : str) (s : state) :
  env_run E (n_run s) (lsof_argv port) = Completed 0 text ->
  kill_runs E ->
  exists s', lsof_kill E quiet port s = (Ret tt, s')
             /\ extends s s'
             /\ forall pid, In pid (split_on nl (strip text)) ->
                  nonempty (strip pid) = true ->
                  In (ERun (kill_argv (strip pid)) true) (since s s').
Proof.
  intros Hrun Hk.
  set (s1 := count_run (emit (ERun (lsof_argv port) true) (count_tick s))).
  assert (X1 : extends s s1) by (exists [ERun (lsof_argv port) true]; reflexivity).
  destruct (nonempty (strip text)) eqn:Hne.
  - destruct (kill_each_kills E (fun pid => MKillingOnPort pid port) true Hk
                (split_on nl (strip text)) s1) as [s' [H2 [X2 K2]]].
    exists s'. split.
    + unfold lsof_kill. step (run_completed_at E (lsof_argv port) s 0 text Hrun).
      cbn [fst snd]. rewrite Hne. exact H2.
    + split; [exact (extends_trans _ _ _ X1 X2) |].
      intros pid Hin Hp. apply (in_since_split s s1 s' _ X1 X2). left.
      exact (K2 pid Hin Hp).
  - exists s1. split.
    + unfold lsof_kill. step (run_completed_at E (lsof_argv port) s 0 text Hrun).
      cbn [fst snd]. rewrite Hne. reflexivity.
    + split; [exact X1 |].
      intros pid Hin Hp. rewrite (blank_pieces text pid Hne Hin) in Hp.
      discriminate.
Qed.

(** The two methods tried for one port. *)
Definition sweep (E : env) (port : Z) : M unit :=
  try_except (lsof_kill E quiet port ;; netstat_kill E quiet port) swallow.

Lemma sweep_returns (E : env) port s : fst (sweep E port s) = Ret tt.
Proof.
  assert (H : raises_only never (sweep E port)).
  { unfold sweep. apply raises_only_try with (ok := os_error);
      [ | intros; apply swallow_os; assumption ].
    apply raises_only_bind;
      [apply lsof_kill_raises | intros; apply netstat_kill_returns]. }
  specialize (H s).
  destruct (fst (sweep E port s)) as [[] | e | | g | ];
    try contradiction; [reflexivity | discriminate].
Qed.

Lemma sweep_extends (E : env) port s : extends s (snd (sweep E port s)).
Proof.
  apply (acts_only_extends anything). revert s.
  change (preserves (acts_only anything) (sweep E port)).
  unfold sweep, lsof_kill, netstat_kill, kill_each, swallow.
  acts_walk anything.
Qed.

Lemma netstat_kill_extends (E : env) port s :
  extends s (snd (netstat_kill E quiet port s)).
Proof.
  apply (acts_only_extends anything). revert s.
  change (preserves (acts_only anything) (netstat_kill E quiet port)).
  unfold netstat_kill, swallow. acts_walk anything.
Qed.

Lemma sweep_kills (E : env) (port : Z) (text : str) (s : state) :
  env_run E (n_run s) (lsof_argv port) = Completed 0 text ->
  kill_runs E ->
  forall pid, In pid (split_on nl (strip text)) ->
    nonempty (strip pid) = true ->
    In (ERun (kill_argv (strip pid)) true) (since s (snd (sweep E port s))).
Proof.
  intros Hrun Hk pid Hin Hp.
  destruct (lsof_kill_kills E port text s Hrun Hk) as [s1 [H1 [X1 K1]]].
  pose proof (netstat_kill_returns E never port s1) as Hn.
  pose proof (netstat_kill_extends E port s1) as X2.
  unfold sweep.
  destruct (netstat_kill E quiet port s1) as [r s2] eqn:H2.
  cbn [fst snd] in Hn, X2.
  destruct r as [[] | e | | g | ]; try contradiction; [ | discriminate ].
  rewrite (try_ret_at _ _ s tt s2).
  - cbn [snd]. apply (in_since_split s s1 s2 _ X1 X2). right.
    exact (K1 pid Hin Hp).
  - rewrite (bind_ret_at _ _ _ _ _ H1). exact H2.
Qed.

Lemma sweeps_member (E : env) (port : Z) (text : str) :
  (forall n, env_run E n (lsof_argv port) = Completed 0 text) ->
  kill_runs E ->
  forall ps s, In port ps ->
    forall pid, In pid (split_on nl (strip text)) ->
      nonempty (strip pid) = true ->
      In (ERun (kill_argv (strip pid)) true)
         (since s (snd (for_each ps (sweep E) s))).
Proof.
  intros Hrun Hk ps.
  induction ps as [| x ps IH]; intros s Hport pid Hin Hp; [destruct Hport |].
  cbn [for_each]. unfold bind.
  pose proof (sweep_returns E x s) as Hr.
  pose proof (sweep_extends E x s) as X1.
  assert (X2 : forall s1, extends s1 (snd (for_each ps (sweep E) s1))).
  { intros s1. apply (acts_only_extends anything). revert s1.
    change (preserves (acts_only anything) (for_each ps (sweep E))).
    unfold sweep, lsof_kill, netstat_kill, kill_each, swallow.
    acts_walk anything. }
  destruct Hport as [-> | Hport].
  - pose proof (sweep_kills E port text s (Hrun _) Hk pid Hin Hp) as K.
    destruct (sweep E port s) as [r s1]. cbn [fst snd] in *. subst r.
    apply (in_since_split s s1 _ _ X1 (X2 s1)). right. exact K.
  - destruct (sweep E x s) as [r s1]. cbn [fst snd] in *. subst r.
    apply (in_since_split s s1 _ _ X1 (X2 s1)). left.
    exact (IH s1 Hport pid Hin Hp).
Qed.

(** [cleanup_ports] after the loop over the ports. *)
Definition after_ports (E : env) : M pyval :=
  (pgrep_kill E quiet (u "rpc_server") MKillingRpcServer ;;
   pgrep_kill E quiet (u "cargo run.*rpc_server") MKillingCargo) ;;
  settle.

Lemma cleanup_ports_in_two (E : env) (s : state) :
  cleanup_ports E quiet s
  = (for_each ports (sweep E) ;; after_ports E) (set_killed_any false s).
Proof.
  rewrite cleanup_ports_unfold. unfold sweeps. rewrite bind_assoc. reflexivity.
Qed.


(** [lsof] finds two processes on each port; [kill] works. *)
Definition two_listeners : env :=
  Tools.with_tools (fun n argv =>
    if str_eqb (Tools.command argv) (u "lsof")
    then Completed 0 (u "4242" ++ [nl] ++ u "4243" ++ [nl])
    else if str_eqb (Tools.command argv) (u "kill") then Completed 0 []
    else Completed 1 []).


(** ** How often cleanup is entered, signals included *)

Definition started (s : state) : nat := cleanups_started (out s).

(** From [s] to [s'], [cleanup] was entered at most [extra] times, and
    once more if in between the handler was entered, which happens at the
    [k]-th operation and never again. *)
Definition counted (k extra : nat) (s s' : state) : Prop :=
  (signalled s = true -> (k < ticks s)%nat ->
   signalled s' = true /\ (k < ticks s')%nat
   /\ (started s' <= started s + extra)%nat)
  /\ (signalled s = false ->
      (signalled s' = true -> (k < ticks s')%nat)
      /\ (started s' <= started s + extra
                        + (if signalled s' then 1 else 0))%nat).

Lemma counted_refl k s : counted k 0 s s.
Proof.
  split.
  - intros Hs Ht. repeat split; [exact Hs | exact Ht | lia].
  - intros Hs. split; [rewrite Hs; discriminate | lia].
Qed.

Lemma counted_sum k a b s1 s2 s3 :
  counted k a s1 s2 -> counted k b s2 s3 -> counted k (a + b) s1 s3.
Proof.
  intros [H1 H2] [H3 H4]. split.
  - intros Hs Ht. destruct (H1 Hs Ht) as [Hs2 [Ht2 Hc2]].
    destruct (H3 Hs2 Ht2) as [Hs3 [Ht3 Hc3]]. repeat split; auto. lia.
  - intros Hs. destruct (H2 Hs) as [Ht2 Hc2].
    destruct (signalled s2) eqn:Hs2.
    + destruct (H3 eq_refl (Ht2 eq_refl)) as [Hs3 [Ht3 Hc3]].
      rewrite Hs3. split; [intros _; exact Ht3 | lia].
    + destruct (H4 eq_refl) as [Ht3 Hc3]. split; [exact Ht3 |].
      destruct (signalled s3); lia.
Qed.

Lemma counted_trans k a b c : counted k 0 a b -> counted k 0 b c -> counted k 0 a c.
Proof. apply (counted_sum k 0 0). Qed.

Lemma counted_more k a b s s' :
  (a <= b)%nat -> counted k a s s' -> counted k b s s'.
Proof.
  intros Hab [H1 H2]. split.
  - intros Hs Ht. destruct (H1 Hs Ht) as [Hs2 [Ht2 Hc2]]. repeat split; auto. lia.
  - intros Hs. destruct (H2 Hs) as [Ht2 Hc2]. split; [exact Ht2 | lia].
Qed.

(** State functions that involve no [tick] and do not print the opening
    line of [cleanup]: by evaluation. *)
Ltac counted_pure :=
  let s := fresh "s" in
  intros s; unfold counted, started, cleanups_started, modify, ret, raise, get;
  cbn;
  (split;
   [ let Hs := fresh "Hs" in let Ht := fresh "Ht" in
     intros Hs Ht; repeat (case_scrutinee; cbn);
     repeat split; first [assumption | lia]
   | let Hs := fresh "Hs" in
     intros Hs; repeat (first [rewrite Hs | case_scrutinee]; cbn);
     (split; [discriminate | lia]) ]).

Lemma bind_counted k a b {A B} (m : M A) (f : A -> M B) :
  preserves (counted k a) m -> (forall x, preserves (counted k b) (f x)) ->
  preserves (counted k (a + b)) (bind m f).
Proof.
  intros Hm Hf s. specialize (Hm s). unfold bind.
  destruct (m s) as [[x | e | | g | ] s1]; cbn [snd] in *;
    try (apply (counted_more k a); [lia | exact Hm]).
  apply (counted_sum k a b _ s1); [exact Hm | apply Hf].
Qed.

Lemma finally_counted k a b {A} (body : M A) (fin : M unit) :
  preserves (counted k a) body -> preserves (counted k b) fin ->
  preserves (counted k (a + b)) (try_finally body fin).
Proof.
  intros Hb Hf s. specialize (Hb s). unfold try_finally.
  destruct (body s) as [[x | e | | g | ] s1]; cbn [snd] in *;
    try (apply (counted_more k a); [lia | exact Hb]).
  - apply (counted_sum k a b _ s1); [exact Hb |].
    replace b with (b + 0)%nat by lia.
    apply (bind_counted k b 0 fin (fun _ => ret x)); [exact Hf |].
    intros _ s2. apply counted_refl.
  - apply (counted_sum k a b _ s1); [exact Hb |].
    replace b with (b + 0)%nat by lia.
    apply (bind_counted k b 0 fin (fun _ => raise e)); [exact Hf |].
    intros _ s2. apply counted_refl.
Qed.

Lemma signal_handler_started (E : env) (sg : signum) (s : state) :
  started (snd (signal_handler E quiet sg s)) = S (started s).
Proof.
  unfold signal_handler. step_print.
  set (s0 := emit (EPrint (MReceivedSignal (signal_number sg))) (count_tick s)).
  destruct (cleanup_run E s0) as [s1 [d [Hc [Ho Hf]]]].
  rewrite (bind_ret_at _ _ _ _ _ Hc). rewrite sys_exit_at. cbn [snd].
  unfold started. change (out (count_tick s1)) with (out s1). rewrite Ho.
  change (out s0) with (EPrint (MReceivedSignal (signal_number sg)) :: out s).
  rewrite !cleanups_started_printed.
  change (EPrint MCleanupCompleted
            :: d ++ EPrint MCleaningUp
                    :: EPrint (MReceivedSignal (signal_number sg)) :: out s)
    with ([EPrint MCleanupCompleted]
            ++ d ++ [EPrint MCleaningUp;
                     EPrint (MReceivedSignal (signal_number sg))] ++ out s).
  rewrite !printed_app.
  rewrite (printed_none is_opening ordinary d Hf);
    [reflexivity | intros m Hm; destruct m; try discriminate; reflexivity].
Qed.

Lemma counted_tick k s : counted k 0 s (count_tick s).
Proof.
  unfold counted. change (started (count_tick s)) with (started s).
  change (signalled (count_tick s)) with (signalled s).
  change (ticks (count_tick s)) with (S (ticks s)).
  split.
  - intros Hs Ht. repeat split; [exact Hs | lia | lia].
  - intros Hs. rewrite Hs. split; [discriminate | lia].
Qed.

Lemma deliver_counted (E : env) (k : nat) (sg : signum) :
  preserves (counted k 0) (deliver E (Some (k, sg))).
Proof.
  intros s. unfold deliver.
  destruct (Nat.eqb (ticks s) k) eqn:Hk.
  2: { apply counted_tick. }
  apply Nat.eqb_eq in Hk.
  destruct (existsb (signum_eqb sg) (handlers s)).
  - set (s0 := set_signalled (emit (EHandler sg) (count_tick s))).
    pose proof (signal_handler_started E sg s0) as Hn.
    destruct (signal_handler_at E sg s0) as [s' [Hrun [Ht [Hsig _]]]].
    rewrite Hrun in Hn |- *. cbn [snd] in *.
    change (signalled s0) with true in Hsig.
    change (ticks s0) with (S (ticks s)) in Ht.
    change (started s0) with (started s) in Hn.
    split.
    + intros _ Hlt. lia.
    + intros _. rewrite Hsig. split; [intros _; lia | lia].
  - destruct sg; unfold default_action, raise; cbv beta; cbn [snd];
      apply counted_tick.
Qed.

Lemma quiet_counted k : preserves (counted k 0) quiet.
Proof. intros s. apply counted_tick. Qed.

Lemma preserves_counted_more k a b {A} (m : M A) :
  (a <= b)%nat -> preserves (counted k a) m -> preserves (counted k b) m.
Proof. intros Hab H s. apply (counted_more k a b); [exact Hab | apply H]. Qed.

Lemma opening_counted k :
  preserves (counted k 1) (modify (emit (EPrint MCleaningUp))).
Proof.
  intros s. unfold modify. cbn [snd]. unfold counted.
  change (signalled (emit (EPrint MCleaningUp) s)) with (signalled s).
  change (ticks (emit (EPrint MCleaningUp) s)) with (ticks s).
  change (started (emit (EPrint MCleaningUp) s)) with (S (started s)).
  split.
  - intros Hs Ht. repeat split; [exact Hs | exact Ht | lia].
  - intros Hs. rewrite Hs. split; [discriminate | lia].
Qed.

Section Counted.

Variable E : env.
Variable k : nat.
Variable T : M unit.

Hypothesis T_counted : preserves (counted k 0) T.

Ltac counted_leaf :=
  idtac;
  lazymatch goal with
  | |- preserves _ T => exact T_counted
  | |- preserves _ (wait_loop _ _ _ _ _ _ _ _) => fail
  | |- preserves _ (cleanup_ports _ _) => fail
  | |- preserves _ (check_ports_free _ _) => fail
  | |- preserves _ (start_server2 _ _) => fail
  | |- preserves _ (start_server1 _ _) => fail
  | |- preserves _ (run_client _ _) => fail
  | |- preserves _ _ => counted_pure
  end.

Ltac counted_walk :=
  repeat walk (counted_refl k) (counted_trans k) ltac:(counted_leaf).

Lemma cleanup_ports_counted : preserves (counted k 0) (cleanup_ports E T).
Proof.
  unfold cleanup_ports, pgrep_kill, lsof_kill, netstat_kill, kill_each,
    swallow, print, time_sleep, subprocess_run.
  counted_walk.
Qed.

Lemma check_ports_free_counted : preserves (counted k 0) (check_ports_free E T).
Proof.
  unfold check_ports_free, ports. cbn [check_ports_loop].
  unfold print, subprocess_run. counted_walk.
Qed.

Lemma wait_loop_counted fuel name marker x start timeout :
  preserves (counted k 0) (wait_loop E T fuel name marker x start timeout).
Proof.
  induction fuel as [| fuel IH]; cbn [wait_loop].
  - counted_pure.
  - unfold time_time, poll, readline, print, time_sleep.
    counted_walk. all: exact IH.
Qed.

Lemma start_server2_counted : preserves (counted k 0) (start_server2 E T).
Proof.
  unfold start_server2, wait_for_server_ready, print, Popen, time_time.
  counted_walk. all: apply wait_loop_counted.
Qed.

Lemma start_server1_counted : preserves (counted k 0) (start_server1 E T).
Proof.
  unfold start_server1, wait_for_server_ready, print, Popen, time_time.
  counted_walk. all: apply wait_loop_counted.
Qed.

Lemma run_client_counted : preserves (counted k 0) (run_client E T).
Proof.
  unfold run_client, print, Popen, wait_forever. counted_walk.
Qed.

(** One call of [cleanup] enters [cleanup] once, and the handler may
    enter it once more. *)
Lemma cleanup_counted : preserves (counted k 1) (cleanup E T).
Proof.
  unfold cleanup.
  apply (bind_counted k 1 0).
  - unfold print. apply (bind_counted k 0 1); [exact T_counted |].
    intros _. apply opening_counted.
  - intros _.
    unfold stop_tracked, swallow, print, poll, terminate, wait, kill,
      subprocess_run.
    counted_walk. all: apply cleanup_ports_counted.
Qed.

Ltac counted_rest :=
  counted_walk;
  first [ apply cleanup_ports_counted | apply check_ports_free_counted
        | apply start_server2_counted | apply start_server1_counted
        | apply run_client_counted ].

Lemma run_counted : preserves (counted k 1) (run E T).
Proof.
  unfold run, print, signal_signal, subprocess_run, time_sleep.
  repeat (apply (bind_counted k 0 1); [counted_walk; counted_rest | intros]).
  match goal with
  | |- preserves _ (if ?b then _ else _) => destruct b
  end.
  - apply (preserves_counted_more k 0 1); [lia | counted_walk].
  - apply (finally_counted k 0 1); [ | apply cleanup_counted ].
    counted_walk.
    all: first [ apply start_server2_counted | apply start_server1_counted
               | apply run_client_counted ].
Qed.

Lemma main_counted : preserves (counted k 1) (main E T).
Proof.
  unfold main, os_path_exists, print, sys_exit, subprocess_run.
  apply (bind_counted k 0 1); [counted_walk | intros present].
  destruct (negb present).
  - apply (preserves_counted_more k 0 1); [lia | counted_walk].
  - apply (bind_counted k 0 1); [counted_walk | intros _].
    apply (bind_counted k 1 0); [apply run_counted | intros success].
    counted_walk.
Qed.

End Counted.

(** In every environment, with or without a signal, [cleanup] is entered
    at most twice in a run, and at most once in a run in which the
    handler is not entered. *)
Theorem cleanup_entered_at_most_twice (E : env) :
  (cleanups_started (out (snd (run_myco E))) <= 2)%nat
  /\ (signalled (snd (run_myco E)) = false ->
      (cleanups_started (out (snd (run_myco E))) <= 1)%nat).
Proof.
  unfold run_myco.
  assert (H : exists k, preserves (counted k 1)
                          (main E (deliver E (env_signal E)))).
  { destruct (env_signal E) as [[k sg] |].
    - exists k. apply main_counted. apply deliver_counted.
    - exists 0%nat. apply main_counted. apply quiet_counted. }
  destruct H as [k H]. destruct (H initial) as [_ Hc].
  destruct (Hc eq_refl) as [_ Hn].
  destruct (main E (deliver E (env_signal E)) initial) as [r s].
  cbn [fst snd] in *. change (started initial) with 0%nat in Hn.
  unfold started in Hn. split.
  - destruct (signalled s); lia.
  - intros Hs. rewrite Hs in Hn. lia.
Qed.
